(** * get_world_cities.py: the incremental enrichment pipeline

    A shallow embedding of [src/get_world_cities.py] and the properties its
    specification states about it.

    What is modelled, and how:
    - JSON values are the inductive type [json]; a JSON number is the exact
      rational it denotes (the program never does arithmetic: it only tests
      numbers for truth and equality), objects are finite maps with string
      keys (Python compares dicts regardless of order).
    - Python's dynamic typing is kept: every expression that can raise is a
      [result], and the exception it raises is named.
    - The files under [data/] are fields of [disk].  The ledger is the list
      of its lines, each line being what [json.loads] makes of it; a record
      written by [append_jsonl] is read back as the same value.  A cache file
      that parses holds an object ([save_json] is its only writer).
    - The external API is an [oracle]: what a request returns, given the
      number of events of the run so far, so an answer may change over time.
    - Every effect is appended to [log]: requests, cache writes, ledger
      appends, sleeps and the lines printed.
    - The three caches are keyed by strings (names and entity identifiers).
      A value that Python cannot hash raises [TypeError] as in the source;
      where the source would use a number, a boolean or [None] as a cache
      key the run stops with [Beyond]: [json.dump] renames such a key when
      it writes the cache, which is outside this model. *)

From Stdlib Require Import QArith.
From stdpp Require Import gmap strings list fin_maps.

#[local] Set Warnings "-register-all,-clear-no-such-hyp".

(** ** JSON values and the Python operations the program applies to them *)

Inductive json : Type :=
| JNull
| JBool (b : bool)
| JNum (q : Q)
| JStr (s : string)
| JArr (l : list json)
| JObj (m : gmap string json).

Inductive exn : Type :=
| FileNotFoundError
| JSONDecodeError
| KeyError
| IndexError
| TypeError
| AttributeError
| RequestError.

(** The value of a Python expression, or the exception it raises. *)
Inductive result (A : Type) : Type :=
| Ok (a : A)
| Raise (e : exn).
Arguments Ok {A} a.
Arguments Raise {A} e.

Definition rbind {A B : Type} (r : result A) (k : A → result B) : result B :=
  match r with
  | Ok a => k a
  | Raise e => Raise e
  end.

Notation "'let?' x ':=' r 'in' k" := (rbind r (λ x, k))
  (at level 10, x name, r at level 100, k at level 200).

(** [if v:] *)
Definition truthy (v : json) : bool :=
  match v with
  | JNull => false
  | JBool b => b
  | JNum q => negb (Qeq_bool q 0)
  | JStr s => negb (String.eqb s "")
  | JArr l => negb (Nat.eqb (length l) 0)
  | JObj m => negb (Nat.eqb (size m) 0)
  end.

(** [isinstance(v, dict)] *)
Definition is_dict (v : json) : bool :=
  match v with
  | JObj _ => true
  | _ => false
  end.

(** Lists and dicts cannot be hashed. *)
Definition hashable (v : json) : bool :=
  match v with
  | JArr _ | JObj _ => false
  | _ => true
  end.

Definition Q_of_bool (b : bool) : Q := if b then 1%Q else 0%Q.

(** [a == b]: [True == 1], numbers by value, containers by content. *)
Fixpoint py_eqb (a b : json) {struct a} : bool :=
  match a, b with
  | JNull, JNull => true
  | JBool x, JBool y => Bool.eqb x y
  | JBool x, JNum q => Qeq_bool (Q_of_bool x) q
  | JNum q, JBool x => Qeq_bool q (Q_of_bool x)
  | JNum p, JNum q => Qeq_bool p q
  | JStr s, JStr t => String.eqb s t
  | JArr l, JArr l' =>
      (fix go (l l' : list json) : bool :=
         match l, l' with
         | [], [] => true
         | x :: xs, y :: ys => py_eqb x y && go xs ys
         | _, _ => false
         end) l l'
  | JObj m, JObj m' =>
      Nat.eqb (size m) (size m') &&
      map_fold (λ k v acc,
                acc && match m' !! k with
                       | Some v' => py_eqb v v'
                       | None => false
                       end) true m
  | _, _ => false
  end.

(** [v.get(k, dflt)] for a string literal [k]. *)
Definition py_get (v : json) (k : string) (dflt : json) : result json :=
  match v with
  | JObj m => Ok (default dflt (m !! k))
  | _ => Raise AttributeError
  end.

(** [info.get(f)] on a dict. *)
Definition field (info : gmap string json) (f : string) : json :=
  default JNull (info !! f).

(** [v.get(key, dflt)] for a key that is itself a value: only a string can
    be a key of a parsed object. *)
Definition py_get_key (v : json) (key : json) (dflt : json) : result json :=
  match v with
  | JObj m =>
      match key with
      | JStr k => Ok (default dflt (m !! k))
      | JArr _ | JObj _ => Raise TypeError
      | _ => Ok dflt
      end
  | _ => Raise AttributeError
  end.

(** [v[k]] for a string literal [k]. *)
Definition py_item (v : json) (k : string) : result json :=
  match v with
  | JObj m =>
      match m !! k with
      | Some x => Ok x
      | None => Raise KeyError
      end
  | _ => Raise TypeError
  end.

(** [v[0]] *)
Definition py_first (v : json) : result json :=
  match v with
  | JArr [] => Raise IndexError
  | JArr (x :: _) => Ok x
  | JStr EmptyString => Raise IndexError
  | JStr (String c _) => Ok (JStr (String c EmptyString))
  | JObj _ => Raise KeyError
  | _ => Raise TypeError
  end.

(** The nested [get_claim(prop)] of [get_entity_info] and [enrich_city],
    closed over [claims]. *)
Definition get_claim (claims : json) (prop : string) : result json :=
  let? values := py_get claims prop (JArr []) in
  if negb (truthy values) then Ok JNull
  else
    let? first := py_first values in
    let? mainsnak := py_get first "mainsnak" (JObj ∅) in
    let? datavalue := py_get mainsnak "datavalue" (JObj ∅) in
    py_get datavalue "value" JNull.

(** ** The external API *)

(** The [level] of [get_entity_info]: it is called with ["Country"] and
    with ["State"]. *)
Inductive level : Type := Country | State.

Definition level_name (lv : level) : string :=
  match lv with
  | Country => "Country"
  | State => "State"
  end.

(** [search t name] is the body of the answer to the search request for
    [name] issued after [t] events, [entity t qid] that of the entity
    document of [qid]; [None] when [requests.get] or [response.json()]
    raises. *)
Record oracle : Type := {
  search : nat → string → option json;
  entity : nat → json → option json
}.

Definition response (r : option json) : result json :=
  match r with
  | Some data => Ok data
  | None => Raise RequestError
  end.

(** Lines 58-60 of [get_wikidata_id]: the identifier of the top match,
    [None] when the search came back empty. *)
Definition search_hit (r : option json) : result (option json) :=
  let? data := response r in
  let? found := py_get data "search" JNull in
  if truthy found then
    let? hits := py_item data "search" in
    let? top := py_first hits in
    let? qid := py_item top "id" in
    Ok (Some qid)
  else Ok None.

(** Lines 71-74 and 108-111: the labels and the claims of the entity. *)
Definition entity_parts (r : option json) (qid : json) : result (json * json) :=
  let? data := response r in
  let? entities := py_get data "entities" (JObj ∅) in
  let? ent := py_get_key entities qid (JObj ∅) in
  let? labels := py_get ent "labels" (JObj ∅) in
  let? claims := py_get ent "claims" (JObj ∅) in
  Ok (labels, claims).

Definition label (labels : json) (lang : string) : result json :=
  let? l := py_get labels lang (JObj ∅) in
  py_get l "value" JNull.

(** The [try] block of [get_entity_info]; of its two [if level == ...]
    exactly one is taken. *)
Definition entity_info_body (r : option json) (qid : json) (lv : level)
  : result (gmap string json) :=
  let? parts := entity_parts r qid in
  let claims := parts.2 in
  let? name_en := label parts.1 "en" in
  let? name_ar := label parts.1 "ar" in
  let info : gmap string json :=
    <[level_name lv +:+ "NameAr" := name_ar]>
      (<[level_name lv +:+ "NameEn" := name_en]>
         (<[level_name lv +:+ "QID" := qid]> ∅)) in
  match lv with
  | Country =>
      let? iso := get_claim claims "P297" in
      let info := <["IsoAlpha2" := iso]> info in
      let? capital := get_claim claims "P36" in
      if is_dict capital then
        let? cid := py_get capital "id" JNull in
        Ok (<["CapitalQID" := cid]> info)
      else Ok info
  | State =>
      let? iso := get_claim claims "P300" in
      let info := <["IsoCode" := iso]> info in
      let? parent := get_claim claims "P17" in
      if is_dict parent then
        let? pid := py_get parent "id" JNull in
        Ok (<["CountryQID" := pid]> info)
      else Ok info
  end.

(** [get_claim(p).get("id") if isinstance(get_claim(p), dict) else None] *)
Definition claim_id (claims : json) (prop : string) : result json :=
  let? c := get_claim claims prop in
  if is_dict c then
    let? c' := get_claim claims prop in
    py_get c' "id" JNull
  else Ok JNull.

(** [get_claim("P625")[axis] if get_claim("P625") else None] *)
Definition claim_coordinate (claims : json) (axis : string) : result json :=
  let? c := get_claim claims "P625" in
  if truthy c then
    let? c' := get_claim claims "P625" in
    py_item c' axis
  else Ok JNull.

(** [get_claim("P1082").get("amount") if isinstance(get_claim("P1082"), dict)
    else get_claim("P1082")] *)
Definition claim_population (claims : json) : result json :=
  let? c := get_claim claims "P1082" in
  if is_dict c then
    let? c' := get_claim claims "P1082" in
    py_get c' "amount" JNull
  else get_claim claims "P1082".

(** The [try] block of [enrich_city]. *)
Definition enrich_city_body (r : option json) (qid : json)
  : result (gmap string json) :=
  let? parts := entity_parts r qid in
  let claims := parts.2 in
  let? name_ar := label parts.1 "ar" in
  let? country := claim_id claims "P17" in
  let? state := claim_id claims "P131" in
  let? latitude := claim_coordinate claims "latitude" in
  let? longitude := claim_coordinate claims "longitude" in
  let? population := claim_population claims in
  let? iso := get_claim claims "P300" in
  Ok (<["IsoCode" := iso]>
        (<["Population" := population]>
           (<["Longitude" := longitude]>
              (<["Latitude" := latitude]>
                 (<["StateQID" := state]>
                    (<["CountryQID" := country]>
                       (<["CityNameAr" := name_ar]> ∅))))))).

(** ** Files, effects and the state of a run *)

Inductive file (A : Type) : Type :=
| Absent
| Corrupt
| Stored (a : A).
Arguments Absent {A}.
Arguments Corrupt {A}.
Arguments Stored {A} a.

(** A line of the ledger: [json.loads] raises [JSONDecodeError] on it, or
    returns a value. *)
Inductive line : Type :=
| Garbage
| Parsed (v : json).

Inductive domain : Type := Names | Countries | States.

#[global] Instance domain_eq_dec : EqDecision domain.
Proof. solve_decision. Defined.

Inductive event : Type :=
| EvProcessing (n : nat)
| EvProgress (idx total : nat) (name : json)
| EvSearch (name : string)
| EvCity (qid : json)
| EvEntity (lv : level) (qid : json)
| EvError (what : string)
| EvSave (d : domain) (content : gmap string json)
| EvAppend (record : gmap string json)
| EvSleep (seconds : nat).

Record disk : Type := {
  input_file : file json;
  qid_file : file (gmap string json);
  countries_file : file (gmap string json);
  states_file : file (gmap string json);
  output_file : option (list line);
  log : list event
}.

Record state : Type := {
  fs : disk;
  qid_lookup : gmap string json;
  country_cache : gmap string json;
  state_cache : gmap string json
}.

Definition now (s : state) : nat := length (log (fs s)).

Definition with_log (f : list event → list event) (d : disk) : disk :=
  {| input_file := input_file d; qid_file := qid_file d;
     countries_file := countries_file d; states_file := states_file d;
     output_file := output_file d; log := f (log d) |}.

Definition with_cache_file (dm : domain) (c : gmap string json) (d : disk) : disk :=
  {| input_file := input_file d;
     qid_file := match dm with Names => Stored c | _ => qid_file d end;
     countries_file := match dm with Countries => Stored c | _ => countries_file d end;
     states_file := match dm with States => Stored c | _ => states_file d end;
     output_file := output_file d; log := log d |}.

Definition with_output (o : option (list line)) (d : disk) : disk :=
  {| input_file := input_file d; qid_file := qid_file d;
     countries_file := countries_file d; states_file := states_file d;
     output_file := o; log := log d |}.

Definition with_fs (f : disk → disk) (s : state) : state :=
  {| fs := f (fs s); qid_lookup := qid_lookup s;
     country_cache := country_cache s; state_cache := state_cache s |}.

Definition cache (dm : domain) (s : state) : gmap string json :=
  match dm with
  | Names => qid_lookup s
  | Countries => country_cache s
  | States => state_cache s
  end.

Definition with_cache (dm : domain) (c : gmap string json) (s : state) : state :=
  {| fs := fs s;
     qid_lookup := match dm with Names => c | _ => qid_lookup s end;
     country_cache := match dm with Countries => c | _ => country_cache s end;
     state_cache := match dm with States => c | _ => state_cache s end |}.

(** The cache of the records of a level. *)
Definition domain_of (lv : level) : domain :=
  match lv with
  | Country => Countries
  | State => States
  end.

Definition cache_file (dm : domain) (d : disk) : file (gmap string json) :=
  match dm with
  | Names => qid_file d
  | Countries => countries_file d
  | States => states_file d
  end.

(** How one pass through the loop body goes on: to the next statement, to
    the next record ([continue]), out of the program with an uncaught
    exception, or out of the model. *)
Inductive flow (A : Type) : Type :=
| Next (a : A)
| Continue
| Abort (e : exn)
| Beyond.
Arguments Next {A} a.
Arguments Continue {A}.
Arguments Abort {A} e.
Arguments Beyond {A}.

Definition M (A : Type) : Type := state → flow A * state.

Definition ret {A : Type} (a : A) : M A := λ s, (Next a, s).

Definition bind {A B : Type} (m : M A) (k : A → M B) : M B :=
  λ s, match m s with
       | (Next a, s') => k a s'
       | (Continue, s') => (Continue, s')
       | (Abort e, s') => (Abort e, s')
       | (Beyond, s') => (Beyond, s')
       end.

Notation "'let*' x ':=' m 'in' k" := (bind m (λ x, k))
  (at level 10, x name, m at level 100, k at level 200).
Notation "m ';;;' k" := (bind m (λ _, k))
  (at level 100, k at level 200, right associativity).

Definition continue {A : Type} : M A := λ s, (Continue, s).
Definition beyond {A : Type} : M A := λ s, (Beyond, s).
Definition abort {A : Type} (e : exn) : M A := λ s, (Abort e, s).
Definition get_state : M state := λ s, (Next s, s).
(** The state after the event [e]. *)
Definition note (e : event) (s : state) : state :=
  with_fs (with_log (λ l, l ++ [e])) s.

(** The state after [cache[key] = v] in memory. *)
Definition put (dm : domain) (key : string) (v : json) (s : state) : state :=
  with_cache dm (<[key := v]> (cache dm s)) s.

(** The state after the cache [dm], as it is in memory, is written to its
    file. *)
Definition saved (dm : domain) (s : state) : state :=
  note (EvSave dm (cache dm s)) (with_fs (with_cache_file dm (cache dm s)) s).

(** The state after one more line of the ledger. *)
Definition appended (record : gmap string json) (s : state) : state :=
  note (EvAppend record)
    (with_fs (λ d, with_output
                     (Some (default [] (output_file d) ++ [Parsed (JObj record)]))
                     d) s).

(** What an [except Exception] that returns the empty dict leaves. *)
Definition caught (r : result (gmap string json)) : gmap string json :=
  match r with
  | Ok info => info
  | Raise _ => ∅
  end.

Definition emit (e : event) : M unit := λ s, (Next (), note e s).
Definition assign (dm : domain) (key : string) (v : json) : M unit :=
  λ s, (Next (), put dm key v s).

(** An exception nobody catches. *)
Definition uncaught {A : Type} (r : result A) : M A :=
  match r with
  | Ok a => ret a
  | Raise e => abort e
  end.

(** The use of [v] as a key of a cache. *)
Definition as_key (v : json) : M string :=
  match v with
  | JStr k => ret k
  | JArr _ | JObj _ => abort TypeError
  | _ => beyond
  end.

(** ** Helpers (lines 18-42) *)

Definition load_json (f : file (gmap string json)) : result (gmap string json) :=
  match f with
  | Absent => Ok ∅
  | Corrupt => Raise JSONDecodeError
  | Stored data => Ok data
  end.

(** [save_json] of the cache [dm], as it is in memory. *)
Definition save_json (dm : domain) : M unit := λ s, (Next (), saved dm s).

Definition append_jsonl (record : gmap string json) : M unit :=
  λ s, (Next (), appended record s).

(** [x in processed], for a set of hashable values. *)
Definition set_mem (x : json) (set : list json) : result bool :=
  if hashable x then Ok (existsb (py_eqb x) set) else Raise TypeError.

(** [processed.add(x)] *)
Definition set_add (x : json) (set : list json) : result (list json) :=
  let? present := set_mem x set in
  Ok (if present then set else set ++ [x]).

(** The loop of [load_processed_city_names] over the lines of the ledger. *)
Fixpoint scan_ledger (lines : list line) (processed : list json)
  : result (list json) :=
  match lines with
  | [] => Ok processed
  | Garbage :: rest => scan_ledger rest processed
  | Parsed record :: rest =>
      let? name := py_get record "CityNameEn" JNull in
      let? processed := set_add name processed in
      scan_ledger rest processed
  end.

Definition load_processed_city_names (out : option (list line))
  : result (list json) :=
  match out with
  | None => Ok []
  | Some lines => scan_ledger lines []
  end.

(** ** Wikidata integration (lines 45-130) *)

Definition get_wikidata_id (o : oracle) (name : json) : M json :=
  let* key := as_key name in
  let* s := get_state in
  match qid_lookup s !! key with
  | Some qid => ret qid
  | None =>
      emit (EvSearch key);;;
      match search_hit (search o (now s) key) with
      | Ok (Some qid) =>
          assign Names key qid;;;
          save_json Names;;;
          ret qid
      | Ok None => ret JNull
      | Raise _ =>
          emit (EvError "Error finding QID");;;
          ret JNull
      end
  end.

Definition get_entity_info (o : oracle) (qid : json) (lv : level)
  : M (gmap string json) :=
  let* s := get_state in
  emit (EvEntity lv qid);;;
  match entity_info_body (entity o (now s) qid) qid lv with
  | Ok info => ret info
  | Raise _ =>
      emit (EvError "Error loading entity");;;
      ret ∅
  end.

Definition enrich_city (o : oracle) (qid : json) : M (gmap string json) :=
  let* s := get_state in
  emit (EvCity qid);;;
  match enrich_city_body (entity o (now s) qid) qid with
  | Ok info => ret info
  | Raise _ =>
      emit (EvError "Error enriching city");;;
      ret ∅
  end.

(** ** Main process (lines 133-180) *)

(** Lines 157-177, for the country and for the state: the parent's record,
    fetched and saved when the cache of its level does not have it. *)
Definition parent_record (o : oracle) (lv : level) (pqid : json) : M json :=
  let dm := domain_of lv in
  let* key := as_key pqid in
  let* s := get_state in
  (match cache dm s !! key with
   | Some _ => ret ()
   | None =>
       let* info := get_entity_info o pqid lv in
       assign dm key (JObj info);;;
       save_json dm
   end);;;
  let* s := get_state in
  match cache dm s !! key with
  | Some record => ret record
  | None => abort KeyError
  end.

(** Lines 156-169: [# Country enrichment] and [# Capital check]. *)
Definition country_enrichment (o : oracle) (qid : json)
    (city_info city : gmap string json) : M (gmap string json) :=
  let cqid := field city_info "CountryQID" in
  if truthy cqid then
    let* country_info := parent_record o Country cqid in
    let city := <["CountryDetails" := country_info]> city in
    let* capital_qid := uncaught (py_get country_info "CapitalQID" JNull) in
    ret (<["IsCapital" := JBool (py_eqb capital_qid qid)]> city)
  else ret (<["IsCapital" := JBool false]> city).

(** Lines 171-177: [# State enrichment]. *)
Definition state_enrichment (o : oracle)
    (city_info city : gmap string json) : M (gmap string json) :=
  let sqid := field city_info "StateQID" in
  if truthy sqid then
    let* state_info := parent_record o State sqid in
    ret (<["StateDetails" := state_info]> city)
  else ret city.

(** The body of the [for] loop; [city.update(city_info)] is the union that
    prefers [city_info]. *)
Definition process_city (o : oracle) (idx total : nat)
    (city : gmap string json) : M unit :=
  let* city_name := uncaught (py_item (JObj city) "CityNameEn") in
  emit (EvProgress idx total city_name);;;
  let* qid := get_wikidata_id o city_name in
  if negb (truthy qid) then continue
  else
    let* city_info := enrich_city o qid in
    let city := city_info ∪ city in
    let* city := country_enrichment o qid city_info city in
    let* city := state_enrichment o city_info city in
    append_jsonl city;;;
    emit (EvSleep 1).

(** How a run ends. *)
Inductive outcome : Type :=
| Done
| Crashed (e : exn)
| OutOfModel.

(** [for idx, city in enumerate(to_process, 1)] *)
Fixpoint for_each (o : oracle) (total idx : nat)
    (to_process : list (gmap string json)) (s : state) : outcome * state :=
  match to_process with
  | [] => (Done, s)
  | city :: rest =>
      match process_city o idx total city s with
      | (Next _, s') | (Continue, s') => for_each o total (S idx) rest s'
      | (Abort e, s') => (Crashed e, s')
      | (Beyond, s') => (OutOfModel, s')
      end
  end.

(** [json.load(open(INPUT_FILE))] *)
Definition load_input (f : file json) : result json :=
  match f with
  | Absent => Raise FileNotFoundError
  | Corrupt => Raise JSONDecodeError
  | Stored v => Ok v
  end.

(** [for c in cities]: a list gives its items, an object its keys, a string
    its characters; nothing else can be iterated. *)
Definition py_iter (v : json) : result (list json) :=
  match v with
  | JArr l => Ok l
  | JObj m => Ok (JStr <$> (map_to_list m).*1)
  | JStr s => Ok ((λ c, JStr (String c EmptyString)) <$> String.list_ascii_of_string s)
  | _ => Raise TypeError
  end.

(** [[c for c in cities if c["CityNameEn"] not in processed]]: only a dict
    can be indexed by a string. *)
Fixpoint select (cities : list json) (processed : list json)
  : result (list (gmap string json)) :=
  match cities with
  | [] => Ok []
  | c :: rest =>
      let? name := py_item c "CityNameEn" in
      let? seen := set_mem name processed in
      let? others := select rest processed in
      match c with
      | JObj m => Ok (if seen then others else m :: others)
      | _ => Raise TypeError
      end
  end.

Definition process_entries (o : oracle) (d : disk) : outcome * disk :=
  let started :=
    let? cities := load_input (input_file d) in
    let? qid_lookup := load_json (qid_file d) in
    let? country_cache := load_json (countries_file d) in
    let? state_cache := load_json (states_file d) in
    let? processed := load_processed_city_names (output_file d) in
    let? items := py_iter cities in
    let? to_process := select items processed in
    Ok (to_process,
        {| fs := with_log (λ l, l ++ [EvProcessing (length to_process)]) d;
           qid_lookup := qid_lookup;
           country_cache := country_cache;
           state_cache := state_cache |}) in
  match started with
  | Raise e => (Crashed e, d)
  | Ok (to_process, s) =>
      let (r, s') := for_each o (length to_process) 1 to_process s in
      (r, fs s')
  end.

(** ** Vocabulary of the properties *)

(** The fields of a city record and the property each one is read from. *)
Definition city_fields : list (string * string) :=
  [("CountryQID", "P17"); ("StateQID", "P131"); ("Latitude", "P625");
   ("Longitude", "P625"); ("Population", "P1082"); ("IsoCode", "P300")].

(** The same for the record of a country or a state. *)
Definition entity_fields (lv : level) : list (string * string) :=
  match lv with
  | Country => [("IsoAlpha2", "P297"); ("CapitalQID", "P36")]
  | State => [("IsoCode", "P300"); ("CountryQID", "P17")]
  end.

Definition lines_of (out : option (list line)) : list line := default [] out.

(** The name of the record a ledger line holds. *)
Definition line_name (l : line) : option string :=
  match l with
  | Parsed (JObj r) =>
      match r !! "CityNameEn" with
      | Some (JStr n) => Some n
      | _ => None
      end
  | _ => None
  end.

(** [m] takes every state to one related to it by [R]. *)
Definition preserves {A : Type} (R : relation state) (m : M A) : Prop :=
  ∀ s, R s (m s).2.

(** What resolving, enriching and linking never touch: the ledger and the
    input. *)
Definition background (s s' : state) : Prop :=
  output_file (fs s') = output_file (fs s) ∧
  input_file (fs s') = input_file (fs s).

#[global] Instance background_preorder : PreOrder background.
Proof.
  split; [done|]. intros s1 s2 s3 [H1 H2] [H3 H4]. split; congruence.
Qed.

(** The fields the pipeline writes into a record: those of the city's own
    record and the three it computes. *)
Definition pipeline_fields : list string :=
  ["CityNameAr"; "CountryQID"; "StateQID"; "Latitude"; "Longitude";
   "Population"; "IsoCode"; "CountryDetails"; "IsCapital"; "StateDetails"].

(** The contents of the three caches. *)
Record stores : Type := {
  st_names : gmap string json;
  st_countries : gmap string json;
  st_states : gmap string json
}.

Definition store_get (dm : domain) (st : stores) : gmap string json :=
  match dm with
  | Names => st_names st
  | Countries => st_countries st
  | States => st_states st
  end.

Definition store_set (dm : domain) (c : gmap string json) (st : stores) : stores :=
  {| st_names := match dm with Names => c | _ => st_names st end;
     st_countries := match dm with Countries => c | _ => st_countries st end;
     st_states := match dm with States => c | _ => st_states st end |}.

(** What a cache file holds: nothing when it is not there. *)
Definition file_content (f : file (gmap string json)) : gmap string json :=
  match f with
  | Stored c => c
  | _ => ∅
  end.

(** The caches on disk, and in memory. *)
Definition stored (d : disk) : stores :=
  {| st_names := file_content (qid_file d);
     st_countries := file_content (countries_file d);
     st_states := file_content (states_file d) |}.

Definition memory (s : state) : stores :=
  {| st_names := qid_lookup s;
     st_countries := country_cache s;
     st_states := state_cache s |}.

(** The cache monitor.  Given what the caches hold, a search is issued only
    for a name the name cache lacks, the record of a country or a state is
    fetched only for an identifier the cache of its level lacks, and a
    cache is saved with all it held before, unchanged.  The monitor goes on
    with what was saved. *)
Fixpoint respects (st : stores) (evs : list event) : Prop :=
  match evs with
  | [] => True
  | EvSearch name :: rest =>
      store_get Names st !! name = None ∧ respects st rest
  | EvEntity lv (JStr key) :: rest =>
      store_get (domain_of lv) st !! key = None ∧ respects st rest
  | EvSave dm c :: rest =>
      store_get dm st ⊆ c ∧ respects (store_set dm c st) rest
  | _ :: rest => respects st rest
  end.

(** What the caches hold after the events. *)
Fixpoint after (evs : list event) (st : stores) : stores :=
  match evs with
  | [] => st
  | EvSave dm c :: rest => after rest (store_set dm c st)
  | _ :: rest => after rest st
  end.

(** The write-through monitor: the fetch of a parent's record is followed
    at once by the save of its cache, holding a record under the identifier
    fetched: the empty record when the fetch failed.  [waiting] says what
    the last events leave to be done. *)
Inductive waiting : Type :=
| Idle
| Fetched (lv : level) (key : string)
| Failed (lv : level) (key : string).

Fixpoint saved_from (w : waiting) (evs : list event) : Prop :=
  match evs with
  | [] => w = Idle
  | e :: rest =>
      match w, e with
      | Idle, EvEntity lv (JStr key) => saved_from (Fetched lv key) rest
      | Idle, _ => saved_from Idle rest
      | Fetched lv key, EvError _ => saved_from (Failed lv key) rest
      | Fetched lv key, EvSave dm c =>
          dm = domain_of lv ∧ is_Some (c !! key) ∧ saved_from Idle rest
      | Failed lv key, EvSave dm c =>
          dm = domain_of lv ∧ c !! key = Some (JObj ∅) ∧ saved_from Idle rest
      | _, _ => False
      end
  end.

Definition fetches_saved (evs : list event) : Prop := saved_from Idle evs.

(** A step that keeps the caches: its events respect them, the memory ends
    as the events say, every parent fetch is saved, and the files hold what
    the memory holds if they did before. *)
Definition tracks (s s' : state) : Prop :=
  ∃ evs,
    log (fs s') = log (fs s) ++ evs ∧
    respects (memory s) evs ∧
    fetches_saved evs ∧
    memory s' = after evs (memory s) ∧
    (stored (fs s) = memory s → stored (fs s') = memory s').

(** A later run: its oracle, and the input and the ledger it finds, which
    may have been replaced by anything since the run before; the cache files
    are those the run before left. *)
Record session : Type := {
  ses_oracle : oracle;
  ses_input : file json;
  ses_ledger : option (list line)
}.

Definition prepare (ss : session) (d : disk) : disk :=
  {| input_file := ses_input ss; qid_file := qid_file d;
     countries_file := countries_file d; states_file := states_file d;
     output_file := ses_ledger ss; log := log d |}.

Fixpoint runs (sessions : list session) (d : disk) : disk :=
  match sessions with
  | [] => d
  | ss :: rest => runs rest (process_entries (ses_oracle ss) (prepare ss d)).2
  end.

(** The search gave no identifier: no answer, an answer without a match,
    or one [get_wikidata_id] cannot read. *)
Definition no_match (r : option json) : bool :=
  match search_hit r with
  | Ok (Some _) => false
  | _ => true
  end.

(** The name [n] is in no cache of names, in memory or on disk. *)
Definition unresolved (n : string) (s : state) : Prop :=
  cache Names s !! n = None ∧
  file_content (cache_file Names (fs s)) !! n = None.

(** A step that appends nothing and leaves [n] unresolved. *)
Definition still_unresolved (n : string) (s s' : state) : Prop :=
  (unresolved n s → unresolved n s') ∧
  ∃ evs, log (fs s') = log (fs s) ++ evs ∧ ∀ r, EvAppend r ∉ evs.

(** A step that leaves [n] unresolved and appends no record named [n]. *)
Definition never_emits (n : string) (s s' : state) : Prop :=
  unresolved n s →
  unresolved n s' ∧
  ∃ evs, log (fs s') = log (fs s) ++ evs ∧
         ∀ r, EvAppend r ∈ evs → r !! "CityNameEn" ≠ Some (JStr n).

(** A step after which [n] is still not in the cache of names, unless it
    was searched. *)
Definition retries (n : string) (s s' : state) : Prop :=
  ∃ evs, log (fs s') = log (fs s) ++ evs ∧
         (cache Names s !! n = None →
          cache Names s' !! n = None ∨ EvSearch n ∈ evs).

(** Well-formed data.  A parent identifier is a string, or a false value
    (no parent). *)
Definition key_like (v : json) : bool :=
  match v with
  | JStr _ => true
  | _ => negb (truthy v)
  end.

(** The documents of the oracle give such identifiers for the country and
    the state of a city. *)
Definition well_typed (o : oracle) : Prop :=
  ∀ t qid,
    key_like (field (caught (enrich_city_body (entity o t qid) qid)) "CountryQID") = true ∧
    key_like (field (caught (enrich_city_body (entity o t qid) qid)) "StateQID") = true.

(** An input record: an object with a string for its name. *)
Definition named (v : json) : Prop :=
  ∃ city n, v = JObj city ∧ city !! "CityNameEn" = Some (JStr n).

(** A ledger line: one that does not parse, or an object whose name can be
    hashed. *)
Definition ledger_line (l : line) : Prop :=
  match l with
  | Garbage => True
  | Parsed (JObj r) => hashable (field r "CityNameEn") = true
  | Parsed _ => False
  end.

(** Every record of the cache is an object: [country_info.get], line 166,
    is called on the record the cache of countries holds. *)
Definition records (c : gmap string json) : Prop :=
  ∀ k v, c !! k = Some v → is_dict v = true.

(** A well-formed data directory.  The input file holds a list of objects
    that each have a string for their [CityNameEn]; every line of the ledger
    does not parse, or is an object whose [CityNameEn], if it has one, can
    be hashed; each of the three cache files is absent or holds an object
    (none is there and unparseable); and every record the cache file of
    countries holds is itself an object. *)
Definition well_formed (d : disk) : Prop :=
  (∃ cities, input_file d = Stored (JArr cities) ∧ Forall named cities) ∧
  Forall ledger_line (lines_of (output_file d)) ∧
  qid_file d ≠ Corrupt ∧ countries_file d ≠ Corrupt ∧ states_file d ≠ Corrupt ∧
  records (file_content (countries_file d)).

(** An oracle whose answers do not change with time. *)
Definition fixed (o : oracle) : Prop :=
  (∀ t t' name, search o t name = search o t' name) ∧
  (∀ t t' qid, entity o t qid = entity o t' qid).

(** What the resolver answers for [n], given the cache of names. *)
Definition answer (o : oracle) (c : gmap string json) (n : string) : json :=
  match c !! n with
  | Some qid => qid
  | None =>
      match search_hit (search o 0 n) with
      | Ok (Some qid) => qid
      | _ => JNull
      end
  end.

(** What the orchestrator finds for the parent [key], given the cache of
    its level: the record cached, or the one fetched. *)
Definition parent_answer (o : oracle) (lv : level) (c : gmap string json)
    (key : string) : json :=
  match c !! key with
  | Some record => record
  | None => JObj (caught (entity_info_body (entity o 0 (JStr key)) (JStr key) lv))
  end.

(** Two states in which every name and every parent identifier get the
    same answer. *)
Definition agree (o : oracle) (s s' : state) : Prop :=
  (∀ n, answer o (cache Names s') n = answer o (cache Names s) n) ∧
  (∀ lv key, parent_answer o lv (cache (domain_of lv) s') key =
             parent_answer o lv (cache (domain_of lv) s) key).

(** A step after which the answers are as before, the cache files still
    parse and still hold what the memory holds, and the input is what it
    was. *)
Definition steady (o : oracle) (s s' : state) : Prop :=
  agree o s s' ∧
  (stored (fs s) = memory s → stored (fs s') = memory s') ∧
  (∀ dm, cache_file dm (fs s) ≠ Corrupt → cache_file dm (fs s') ≠ Corrupt) ∧
  input_file (fs s') = input_file (fs s).

(** A steady step that leaves the ledger alone. *)
Definition calm (o : oracle) (s s' : state) : Prop :=
  steady o s s' ∧ background s s'.

(** Two passes that go on the same way, with values related by [P]. *)
Definition flow_rel {A B : Type} (P : A → B → Prop) (f : flow A) (g : flow B)
  : Prop :=
  match f, g with
  | Next a, Next b => P a b
  | Continue, Continue => True
  | Abort e, Abort e' => e = e'
  | Beyond, Beyond => True
  | _, _ => False
  end.

(** Two computations that go on the same way from states that agree. *)
Definition alike {A B : Type} (o : oracle) (P : A → B → Prop)
    (m : M A) (m' : M B) : Prop :=
  ∀ s s', agree o s s' → flow_rel P (m s).1 (m' s').1.

(** With a fixed oracle, a record named [n] is emitted from [s], and from
    every state that agrees with it. *)
Definition emittable (o : oracle) (s : state) (n : string) : Prop :=
  ∀ t city idx total,
    agree o s t →
    city !! "CityNameEn" = Some (JStr n) →
    (process_city o idx total city t).1 = Next ().

(** The record has one of the names [names]. *)
Definition emitted_before (names : list string) (city : gmap string json) : bool :=
  existsb (py_eqb (field city "CityNameEn")) (JStr <$> names).

(** The records still to process, once records of these names are in the
    ledger. *)
Definition left_over (names : list string) (to_process : list (gmap string json))
  : list (gmap string json) :=
  List.filter (λ city, negb (emitted_before names city)) to_process.

(** The pacing monitor: [pending] says that a ledger append still waits for
    its delay.  An append must be followed at once by [time.sleep(1)], and
    there is no sleep at any other time. *)
Fixpoint paced_from (pending : bool) (evs : list event) : bool :=
  match evs with
  | [] => negb pending
  | EvAppend _ :: rest => negb pending && paced_from true rest
  | EvSleep n :: rest => pending && Nat.eqb n 1 && paced_from false rest
  | _ :: rest => negb pending && paced_from false rest
  end.

Definition paced (evs : list event) : bool := paced_from false evs.

(** The ledger line an event writes. *)
Definition appended_line (e : event) : option line :=
  match e with
  | EvAppend record => Some (Parsed (JObj record))
  | _ => None
  end.

(** The log grows by events that keep the pace, and the ledger by the
    records they append. *)
Definition keeps_pace (s s' : state) : Prop :=
  ∃ evs,
    log (fs s') = log (fs s) ++ evs ∧
    paced evs = true ∧
    lines_of (output_file (fs s')) =
      lines_of (output_file (fs s)) ++ omap appended_line evs.

(** The events of a run are those after the log it started with. *)
Definition extends (d d' : disk) (evs : list event) : Prop :=
  log d' = log d ++ evs.

(** ** Examples: documents, an oracle and a data directory *)

Definition obj (l : list (string * json)) : json := JObj (list_to_map l).

(** A property with one statement whose value is [v]. *)
Definition statement (v : json) : json :=
  JArr [obj [("mainsnak", obj [("datavalue", obj [("value", v)])])]].

(** The entity document of [qid]. *)
Definition document (qid : string) (labels claims : list (string * json)) : json :=
  obj [("entities",
        obj [(qid, obj [("labels", obj labels); ("claims", obj claims)])])].

(** What the document of Testville states: its country and where it is,
    and nothing else. *)
Definition testville_claims : list (string * json) :=
  [("P17", statement (obj [("id", JStr "Q2")]));
   ("P625", statement (obj [("latitude", JNum 10); ("longitude", JNum 20)]))].

(** The scenario of the specification: Testville is Q1, in the country Q2
    whose capital is Q1; no other name is found. *)
Definition demo_oracle : oracle := {|
  search := λ _ name,
    if String.eqb name "Testville"
    then Some (obj [("search", JArr [obj [("id", JStr "Q1")]])])
    else Some (obj [("search", JArr [])]);
  entity := λ _ qid,
    match qid with
    | JStr "Q1" => Some (document "Q1" [] testville_claims)
    | JStr "Q2" =>
        Some (document "Q2" [("en", obj [("value", JStr "Testland")])]
                [("P297", statement (JStr "TV"));
                 ("P36", statement (obj [("id", JStr "Q1")]))])
    | _ => None
    end
|}.

(** The same, but the record of the country Q2 cannot be fetched. *)
Definition failing_oracle : oracle := {|
  search := search demo_oracle;
  entity := λ t qid,
    match qid with
    | JStr "Q2" => None
    | _ => entity demo_oracle t qid
    end
|}.

(** The search answers as in the scenario, but no entity document can be
    fetched. *)
Definition offline_oracle : oracle := {|
  search := search demo_oracle;
  entity := λ _ _, None
|}.

Definition empty_disk (input : file json) : disk := {|
  input_file := input;
  qid_file := Absent;
  countries_file := Absent;
  states_file := Absent;
  output_file := None;
  log := []
|}.

Definition demo_disk : disk :=
  empty_disk (Stored (JArr [obj [("CityNameEn", JStr "Testville")]])).

(** The state in which the loop of a first run starts. *)
Definition fresh_state (d : disk) : state := {|
  fs := d; qid_lookup := ∅; country_cache := ∅; state_cache := ∅
|}.

(** Testville, with fields of the caller's own. *)
Definition caller_city : gmap string json :=
  list_to_map [("CityNameEn", JStr "Testville"); ("Population", JNum 5);
               ("Mayor", JStr "Ada")].

(** The record of the country Q2, as [get_entity_info] builds it. *)
Definition demo_country : gmap string json :=
  list_to_map [("CountryQID", JStr "Q2"); ("CountryNameEn", JStr "Testland");
               ("CountryNameAr", JNull); ("IsoAlpha2", JStr "TV");
               ("CapitalQID", JStr "Q1")].

Definition demo_city : gmap string json :=
  list_to_map [("CityNameEn", JStr "Testville")].

(** The state after the loop body has handled [city] in a first run. *)
Definition after_city (city : gmap string json) : state :=
  (process_city demo_oracle 1 1 city (fresh_state demo_disk)).2.

(** The record the last line of the ledger holds. *)
Definition last_record (s : state) : gmap string json :=
  match last (lines_of (output_file (fs s))) with
  | Some (Parsed (JObj record)) => record
  | _ => ∅
  end.

(** The data directory of the scenario, with a cache file that does not
    parse. *)
Definition corrupt_disk : disk := {|
  input_file := input_file demo_disk;
  qid_file := Corrupt;
  countries_file := Absent;
  states_file := Absent;
  output_file := None;
  log := []
|}.

(** A data directory whose only input record has a name nobody knows. *)
Definition nowhere_disk : disk :=
  empty_disk (Stored (JArr [obj [("CityNameEn", JStr "Nowhere")]])).

(** A ledger record named [n], for the examples. *)
Definition named_record (n : string) : gmap string json :=
  {[ "CityNameEn" := JStr n ]}.

(** An oracle that finds every name, and whose document of the city Bad!
    gives a list where the identifier of its country should be: the cache
    of countries cannot be asked for it. *)
Definition odd_oracle : oracle := {|
  search := λ _ name,
    Some (obj [("search", JArr [obj [("id", JStr (name +:+ "!"))]])]);
  entity := λ _ qid,
    match qid with
    | JStr "Bad!" =>
        Some (document "Bad!" []
                [("P17", statement (obj [("id", JArr [JStr "Q2"])]))])
    | _ => None
    end
|}.

Definition odd_disk : disk :=
  empty_disk (Stored (JArr [obj [("CityNameEn", JStr "Good")];
                            obj [("CityNameEn", JStr "Bad")];
                            obj [("CityNameEn", JStr "Late")]])).

(** ** Vocabulary of further properties *)

(** [json.loads] made a value of the line. *)
Definition is_parsed (l : line) : bool :=
  match l with
  | Parsed _ => true
  | Garbage => false
  end.

(** What [record.get("CityNameEn")] gives for the record of a line. *)
Definition line_key (l : line) : option json :=
  match l with
  | Parsed (JObj r) => Some (field r "CityNameEn")
  | _ => None
  end.

(** The number a boolean or a number is compared as. *)
Definition number (v : json) : option Q :=
  match v with
  | JBool b => Some (Q_of_bool b)
  | JNum q => Some q
  | _ => None
  end.

(** No two values of the list are equal ([==]): the list is a set. *)
Fixpoint distinct (l : list json) : bool :=
  match l with
  | [] => true
  | x :: rest => negb (existsb (py_eqb x) rest) && distinct rest
  end.

(** The exception a parsed line raises in [load_processed_city_names]:
    a value that is no object has no [get], and a name that cannot be
    hashed cannot be added to the set. *)
Definition line_error (v : json) : option exn :=
  match v with
  | JObj r => if hashable (field r "CityNameEn") then None else Some TypeError
  | _ => Some AttributeError
  end.

(** A data directory whose ledger has the line [5]. *)
Definition odd_ledger_disk : disk := {|
  input_file := input_file demo_disk;
  qid_file := Absent;
  countries_file := Absent;
  states_file := Absent;
  output_file := Some [Garbage; Parsed (JNum 5)];
  log := []
|}.

(** The answer to a search is an object whose ["search"] is a list that
    starts with an object whose ["id"] is [qid]. *)
Definition first_hit (r : option json) (qid : json) : Prop :=
  ∃ data top rest,
    r = Some (JObj data) ∧
    data !! "search" = Some (JArr (JObj top :: rest)) ∧
    top !! "id" = Some qid.

(** The keys of a city record. *)
Definition city_keys : gset string :=
  list_to_set ["CityNameAr"; "CountryQID"; "StateQID"; "Latitude"; "Longitude";
               "Population"; "IsoCode"].

(** The keys the record of a country or a state always has, and the one
    it has when the document names the capital, or the country. *)
Definition required_keys (lv : level) : gset string :=
  match lv with
  | Country => list_to_set ["CountryQID"; "CountryNameEn"; "CountryNameAr"; "IsoAlpha2"]
  | State => list_to_set ["StateQID"; "StateNameEn"; "StateNameAr"; "IsoCode"]
  end.

Definition optional_key (lv : level) : string :=
  match lv with
  | Country => "CapitalQID"
  | State => "CountryQID"
  end.

(** The scenario, but the document of Testville gives its location without
    a latitude. *)
Definition adrift_oracle : oracle := {|
  search := search demo_oracle;
  entity := λ t qid,
    match qid with
    | JStr "Q1" =>
        Some (document "Q1" []
                [("P17", statement (obj [("id", JStr "Q2")]));
                 ("P625", statement (obj [("longitude", JNum 20)]))])
    | _ => entity demo_oracle t qid
    end
|}.

(** The scenario after Testville was written to the ledger. *)
Definition done_disk : disk := {|
  input_file := input_file demo_disk;
  qid_file := Absent;
  countries_file := Absent;
  states_file := Absent;
  output_file := Some [Parsed (JObj (named_record "Testville"))];
  log := []
|}.

(** The field of a city record that names its parent, and the field of the
    output record that holds the parent's record. *)
Definition parent_field (lv : level) : string :=
  match lv with
  | Country => "CountryQID"
  | State => "StateQID"
  end.

Definition details_field (lv : level) : string :=
  match lv with
  | Country => "CountryDetails"
  | State => "StateDetails"
  end.

(** The requests to the API among the events, and the records taken up. *)
Definition is_request (e : event) : bool :=
  match e with
  | EvSearch _ | EvCity _ | EvEntity _ _ => true
  | _ => false
  end.

Definition is_progress (e : event) : bool :=
  match e with
  | EvProgress _ _ _ => true
  | _ => false
  end.

Definition requests (evs : list event) : nat := length (List.filter is_request evs).

Definition progresses (evs : list event) : nat := length (List.filter is_progress evs).

(** [m] adds at most [k] requests to the log, and takes up no record. *)
Definition within {A : Type} (k : nat) (m : M A) : Prop :=
  ∀ s, ∃ evs,
    log (fs (m s).2) = log (fs s) ++ evs ∧ requests evs ≤ k ∧ progresses evs = 0.

(** The exception an item of the input raises when the records to process
    are selected: only an object can be indexed by ["CityNameEn"], the key
    must be there, and its value must be hashable to be looked up in the
    processed set. *)
Definition item_error (v : json) : option exn :=
  match v with
  | JObj m =>
      match m !! "CityNameEn" with
      | None => Some KeyError
      | Some name => if hashable name then None else Some TypeError
      end
  | _ => Some TypeError
  end.

(** The scenario, with a second record that has no name. *)
Definition nameless_disk : disk :=
  empty_disk (Stored (JArr [obj [("CityNameEn", JStr "Testville")];
                            obj [("Mayor", JStr "Ada")]])).

(** The objects among the items of the input. *)
Definition records_of (items : list json) : list (gmap string json) :=
  omap (λ v, match v with JObj m => Some m | _ => None end) items.

(** The name of the record equals the name of a record of the ledger. *)
Definition in_ledger (lines : list line) (city : gmap string json) : bool :=
  existsb (py_eqb (field city "CityNameEn")) (omap line_key lines).

(** The name under which a record is emitted, if it is: a string for which
    the resolver has a true answer. *)
Definition emitted_as (o : oracle) (names : gmap string json)
    (city : gmap string json) : option string :=
  match city !! "CityNameEn" with
  | Some (JStr n) => if truthy (answer o names n) then Some n else None
  | _ => None
  end.

(** The names a run is expected to add to the ledger, in the order of the
    input: those of the records that are not in the ledger and that the
    resolver, with the cache of names found at startup, resolves. *)
Definition expected_names (o : oracle) (d : disk) (cities : list json)
  : list string :=
  omap (emitted_as o (file_content (qid_file d)))
    (List.filter (λ city, negb (in_ledger (lines_of (output_file d)) city))
       (records_of cities)).

(** The scenario with Testville twice in the input, and a name nobody
    knows between the two. *)
Definition twice_disk : disk :=
  empty_disk (Stored (JArr [obj [("CityNameEn", JStr "Testville")];
                            obj [("CityNameEn", JStr "Nowhere")];
                            obj [("CityNameEn", JStr "Testville");
                                 ("Mayor", JStr "Ada")]])).

(** [m] adds to the log only events that satisfy [P]. *)
Definition emits_only {A : Type} (P : event → Prop) (m : M A) : Prop :=
  ∀ s, ∃ evs, log (fs (m s).2) = log (fs s) ++ evs ∧ Forall P evs.

(** A search, if the event is one, is for the name of [city]. *)
Definition search_for (city : gmap string json) (e : event) : Prop :=
  ∀ n, e = EvSearch n → city !! "CityNameEn" = Some (JStr n).

(** An input that is no list but can be iterated, and has nothing to
    iterate over: the empty object and the empty string. *)
Definition nothing_to_iterate (v : json) : bool :=
  match v with
  | JObj m => bool_decide (m = ∅)
  | JStr s => String.eqb s ""
  | _ => false
  end.

(** The scenario, but the input file holds the one record itself, not a
    list of records. *)
Definition bare_disk : disk :=
  empty_disk (Stored (obj [("CityNameEn", JStr "Testville")])).

(** ** Vocabulary of the detail fetches *)

(** The computation raised nothing. *)
Definition is_ok {A : Type} (r : result A) : bool :=
  match r with
  | Ok _ => true
  | Raise _ => false
  end.

(** The document of a city can be read: none of the seven expressions of
    the record [enrich_city] returns raises. *)
Definition city_reads (labels claims : json) : bool :=
  is_ok (label labels "ar") &&
  is_ok (claim_id claims "P17") &&
  is_ok (claim_id claims "P131") &&
  is_ok (claim_coordinate claims "latitude") &&
  is_ok (claim_coordinate claims "longitude") &&
  is_ok (claim_population claims) &&
  is_ok (get_claim claims "P300").

(** The code of a country or a state: its field and its property; and the
    property that names the capital of a country, the country of a state. *)
Definition code_key (lv : level) : string :=
  match lv with
  | Country => "IsoAlpha2"
  | State => "IsoCode"
  end.

Definition code_property (lv : level) : string :=
  match lv with
  | Country => "P297"
  | State => "P300"
  end.

Definition link_property (lv : level) : string :=
  match lv with
  | Country => "P36"
  | State => "P17"
  end.

(** The document of a country or a state can be read: neither label and
    neither [get_claim] of [get_entity_info] raises. *)
Definition parent_reads (lv : level) (labels claims : json) : bool :=
  is_ok (label labels "en") &&
  is_ok (label labels "ar") &&
  is_ok (get_claim claims (code_property lv)) &&
  is_ok (get_claim claims (link_property lv)).

(** The scenario, with a cache of countries whose record of Q2 is the
    number 5. *)
Definition stale_disk : disk := {|
  input_file := input_file demo_disk;
  qid_file := Absent;
  countries_file := Stored {[ "Q2" := JNum 5 ]};
  states_file := Absent;
  output_file := None;
  log := []
|}.

(** The scenario, with a ledger whose record has a list for its name. *)
Definition listed_disk : disk := {|
  input_file := input_file demo_disk;
  qid_file := Absent;
  countries_file := Absent;
  states_file := Absent;
  output_file := Some [Parsed (obj [("CityNameEn", JArr [])])];
  log := []
|}.
(** ** Properties *)

(** *** Python values *)

Lemma py_eqb_str (a b : string) : py_eqb (JStr a) (JStr b) = true ↔ a = b.
Proof. simpl. apply String.eqb_eq. Qed.

Lemma rbind_ok {A B : Type} (r : result A) (k : A → result B) (b : B) :
  rbind r k = Ok b → ∃ a, r = Ok a ∧ k a = Ok b.
Proof. destruct r as [a|e]; simpl; [eauto | discriminate]. Qed.

Ltac rinv H :=
  repeat match type of H with
    | rbind _ _ = Ok _ =>
        let a := fresh "v" in
        let Ha := fresh "Hv" in
        apply rbind_ok in H as (a & Ha & H)
    | (if ?c then _ else _) = Ok _ =>
        let Hc := fresh "Hc" in destruct c eqn:Hc
    | Ok _ = Ok _ => injection H as H
    end.

Lemma get_claim_missing (claims : gmap string json) (prop : string) :
  claims !! prop = None → get_claim (JObj claims) prop = Ok JNull.
Proof. intros Hp. unfold get_claim. simpl. rewrite Hp. reflexivity. Qed.

Lemma claim_id_missing (claims : gmap string json) (prop : string) :
  claims !! prop = None → claim_id (JObj claims) prop = Ok JNull.
Proof. intros Hp. unfold claim_id. rewrite get_claim_missing by done. reflexivity. Qed.

Lemma claim_coordinate_missing (claims : gmap string json) (axis : string) :
  claims !! "P625" = None → claim_coordinate (JObj claims) axis = Ok JNull.
Proof.
  intros Hp. unfold claim_coordinate. rewrite get_claim_missing by done. reflexivity.
Qed.

Lemma claim_population_missing (claims : gmap string json) :
  claims !! "P1082" = None → claim_population (JObj claims) = Ok JNull.
Proof.
  intros Hp. unfold claim_population. rewrite get_claim_missing by done.
  reflexivity.
Qed.

(** A city record has its seven fields, each taken from its property. *)
Lemma enrich_city_body_ok (r : option json) (qid : json) (info : gmap string json) :
  enrich_city_body r qid = Ok info →
  ∃ labels claims,
    entity_parts r qid = Ok (labels, claims) ∧
    is_Some (info !! "CityNameAr") ∧
    info !! "CityNameEn" = None ∧
    info !! "IsCapital" = None ∧
    info !! "CountryDetails" = None ∧
    info !! "StateDetails" = None ∧
    (claim_id claims "P17" = Ok (field info "CountryQID") ∧
       info !! "CountryQID" = Some (field info "CountryQID")) ∧
    (claim_id claims "P131" = Ok (field info "StateQID") ∧
       info !! "StateQID" = Some (field info "StateQID")) ∧
    (claim_coordinate claims "latitude" = Ok (field info "Latitude") ∧
       info !! "Latitude" = Some (field info "Latitude")) ∧
    (claim_coordinate claims "longitude" = Ok (field info "Longitude") ∧
       info !! "Longitude" = Some (field info "Longitude")) ∧
    (claim_population claims = Ok (field info "Population") ∧
       info !! "Population" = Some (field info "Population")) ∧
    (get_claim claims "P300" = Ok (field info "IsoCode") ∧
       info !! "IsoCode" = Some (field info "IsoCode")).
Proof.
  unfold enrich_city_body. intros H. rinv H. destruct v as [labels claims].
  exists labels, claims. subst info. unfold field.
  split; [done|]. simpl in *.
  repeat split; simplify_map_eq; eauto.
Qed.

Lemma entity_info_body_missing (r : option json) (qid labels : json)
    (claims info : gmap string json) (lv : level) (f p : string) :
  entity_info_body r qid lv = Ok info →
  entity_parts r qid = Ok (labels, JObj claims) →
  (f, p) ∈ entity_fields lv →
  claims !! p = None →
  field info f = JNull.
Proof.
  unfold entity_info_body. intros H Hparts Hin Hp.
  rewrite Hparts in H. simpl in H.
  apply rbind_ok in H as (en & _ & H). apply rbind_ok in H as (ar & _ & H).
  unfold field.
  destruct lv; simpl in Hin.
  - simpl in H. rename H into H1. rename info into info1.
    apply rbind_ok in H1 as (iso & Hiso & H1).
    apply rbind_ok in H1 as (capital & Hcap & H1).
    apply elem_of_cons in Hin as [Hin|Hin]; [injection Hin as -> ->|].
    + rewrite get_claim_missing in Hiso by done. injection Hiso as <-.
      destruct (is_dict capital); rinv H1; subst info1; by simplify_map_eq.
    + apply list_elem_of_singleton in Hin. injection Hin as -> ->.
      rewrite get_claim_missing in Hcap by done. injection Hcap as <-.
      simpl in H1. injection H1 as <-. by simplify_map_eq.
  - simpl in H.
    apply rbind_ok in H as (iso & Hiso & H).
    apply rbind_ok in H as (parent & Hpar & H).
    apply elem_of_cons in Hin as [Hin|Hin]; [injection Hin as -> ->|].
    + rewrite get_claim_missing in Hiso by done. injection Hiso as <-.
      destruct (is_dict parent); rinv H; subst info; by simplify_map_eq.
    + apply list_elem_of_singleton in Hin. injection Hin as -> ->.
      rewrite get_claim_missing in Hpar by done. injection Hpar as <-.
      simpl in H. injection H as <-. by simplify_map_eq.
Qed.

Lemma enrich_city_body_missing (r : option json) (qid labels : json)
    (claims info : gmap string json) (f p : string) :
  enrich_city_body r qid = Ok info →
  entity_parts r qid = Ok (labels, JObj claims) →
  (f, p) ∈ city_fields →
  claims !! p = None →
  info !! f = Some JNull.
Proof.
  intros H Hparts Hin Hp.
  apply enrich_city_body_ok in H
    as (labels' & claims' & Hparts' & _ & _ & _ & _ & _ & H).
  rewrite Hparts in Hparts'. injection Hparts' as <- <-.
  destruct H as ([H1 E1] & [H2 E2] & [H3 E3] & [H4 E4] & [H5 E5] & [H6 E6]).
  unfold city_fields in Hin.
  repeat (apply elem_of_cons in Hin as [Hin|Hin]; [injection Hin as -> ->|]);
    [| | | | | | by apply elem_of_nil in Hin].
  - rewrite claim_id_missing in H1 by done. congruence.
  - rewrite claim_id_missing in H2 by done. congruence.
  - rewrite claim_coordinate_missing in H3 by done. congruence.
  - rewrite claim_coordinate_missing in H4 by done. congruence.
  - rewrite claim_population_missing in H5 by done. congruence.
  - rewrite get_claim_missing in H6 by done. congruence.
Qed.

(** *** Running the monad *)

(** What each effect changes, and what it leaves alone. *)

Lemma cache_note (dm : domain) (e : event) (s : state) :
  cache dm (note e s) = cache dm s.
Proof. by destruct dm. Qed.

Lemma cache_file_note (dm : domain) (e : event) (s : state) :
  cache_file dm (fs (note e s)) = cache_file dm (fs s).
Proof. by destruct dm. Qed.

Lemma output_note (e : event) (s : state) :
  output_file (fs (note e s)) = output_file (fs s).
Proof. done. Qed.

Lemma input_note (e : event) (s : state) :
  input_file (fs (note e s)) = input_file (fs s).
Proof. done. Qed.

Lemma log_note (e : event) (s : state) :
  log (fs (note e s)) = log (fs s) ++ [e].
Proof. done. Qed.

Lemma cache_put (dm dm' : domain) (k : string) (v : json) (s : state) :
  cache dm' (put dm k v s) =
    if decide (dm' = dm) then <[k := v]> (cache dm s) else cache dm' s.
Proof. by destruct dm, dm'. Qed.

Lemma fs_put (dm : domain) (k : string) (v : json) (s : state) :
  fs (put dm k v s) = fs s.
Proof. done. Qed.

Lemma cache_saved (dm dm' : domain) (s : state) :
  cache dm' (saved dm s) = cache dm' s.
Proof. by destruct dm'. Qed.

Lemma cache_file_saved (dm dm' : domain) (s : state) :
  cache_file dm' (fs (saved dm s)) =
    if decide (dm' = dm) then Stored (cache dm s) else cache_file dm' (fs s).
Proof. by destruct dm, dm'. Qed.

Lemma output_saved (dm : domain) (s : state) :
  output_file (fs (saved dm s)) = output_file (fs s).
Proof. done. Qed.

Lemma input_saved (dm : domain) (s : state) :
  input_file (fs (saved dm s)) = input_file (fs s).
Proof. done. Qed.

Lemma log_saved (dm : domain) (s : state) :
  log (fs (saved dm s)) = log (fs s) ++ [EvSave dm (cache dm s)].
Proof. done. Qed.

Lemma cache_appended (dm : domain) (r : gmap string json) (s : state) :
  cache dm (appended r s) = cache dm s.
Proof. by destruct dm. Qed.

Lemma cache_file_appended (dm : domain) (r : gmap string json) (s : state) :
  cache_file dm (fs (appended r s)) = cache_file dm (fs s).
Proof. by destruct dm. Qed.

Lemma output_appended (r : gmap string json) (s : state) :
  output_file (fs (appended r s)) =
    Some (lines_of (output_file (fs s)) ++ [Parsed (JObj r)]).
Proof. done. Qed.

Lemma input_appended (r : gmap string json) (s : state) :
  input_file (fs (appended r s)) = input_file (fs s).
Proof. done. Qed.

Lemma log_appended (r : gmap string json) (s : state) :
  log (fs (appended r s)) = log (fs s) ++ [EvAppend r].
Proof. done. Qed.

Create Rewrite HintDb st.
#[global] Hint Rewrite cache_note cache_file_note output_note input_note log_note
  cache_put fs_put cache_saved cache_file_saved output_saved input_saved
  log_saved cache_appended cache_file_appended output_appended input_appended
  log_appended : st.

Arguments note : simpl never.
Arguments put : simpl never.
Arguments saved : simpl never.
Arguments appended : simpl never.
Arguments cache : simpl never.
Arguments cache_file : simpl never.

(** The resolver never raises: it answers from the cache, or from the
    search, and [None] when the search fails. *)
Lemma get_wikidata_id_str (o : oracle) (key : string) (s : state) :
  get_wikidata_id o (JStr key) s =
    match cache Names s !! key with
    | Some qid => (Next qid, s)
    | None =>
        match search_hit (search o (now s) key) with
        | Ok (Some qid) =>
            (Next qid, saved Names (put Names key qid (note (EvSearch key) s)))
        | Ok None => (Next JNull, note (EvSearch key) s)
        | Raise _ =>
            (Next JNull,
             note (EvError "Error finding QID") (note (EvSearch key) s))
        end
    end.
Proof.
  unfold get_wikidata_id, bind, as_key, ret, get_state.
  change (qid_lookup s) with (cache Names s).
  destruct (cache Names s !! key); [done|].
  by destruct (search_hit _) as [[q|]|e].
Qed.

(** A detail fetch never raises: a failure leaves the empty record. *)
Lemma enrich_city_run (o : oracle) (qid : json) (s : state) :
  enrich_city o qid s =
    let r := enrich_city_body (entity o (now s) qid) qid in
    (Next (caught r),
     match r with
     | Ok _ => note (EvCity qid) s
     | Raise _ => note (EvError "Error enriching city") (note (EvCity qid) s)
     end).
Proof.
  unfold enrich_city, bind, get_state, emit, ret. simpl.
  by destruct (enrich_city_body _ _).
Qed.

Lemma get_entity_info_run (o : oracle) (qid : json) (lv : level) (s : state) :
  get_entity_info o qid lv s =
    let r := entity_info_body (entity o (now s) qid) qid lv in
    (Next (caught r),
     match r with
     | Ok _ => note (EvEntity lv qid) s
     | Raise _ => note (EvError "Error loading entity") (note (EvEntity lv qid) s)
     end).
Proof.
  unfold get_entity_info, bind, get_state, emit, ret. simpl.
  by destruct (entity_info_body _ _ _).
Qed.

(** The parent's record comes from the cache; on a miss it is fetched,
    stored under its identifier and the cache is saved at once. *)
Lemma parent_record_str (o : oracle) (lv : level) (key : string) (s : state) :
  parent_record o lv (JStr key) s =
    match cache (domain_of lv) s !! key with
    | Some record => (Next record, s)
    | None =>
        let s1 := (get_entity_info o (JStr key) lv s).2 in
        let record :=
          JObj (caught (entity_info_body (entity o (now s) (JStr key))
                          (JStr key) lv)) in
        (Next record, saved (domain_of lv) (put (domain_of lv) key record s1))
    end.
Proof.
  unfold parent_record, bind, as_key, ret, get_state. cbv zeta.
  destruct (cache (domain_of lv) s !! key) as [record|] eqn:Hc.
  - by rewrite Hc.
  - rewrite get_entity_info_run. unfold assign, save_json. cbv zeta.
    autorewrite with st. rewrite decide_True by done.
    by rewrite lookup_insert_eq.
Qed.

(** *** The ledger at startup *)

Lemma scan_ledger_garbage (before after : list line) (acc : list json) :
  scan_ledger (before ++ Garbage :: after) acc = scan_ledger (before ++ after) acc.
Proof.
  revert acc. induction before as [|l before IH]; intros acc; [done|].
  destruct l as [|record]; simpl; [apply IH|].
  destruct (py_get record "CityNameEn" JNull) as [name|]; [|done]. simpl.
  destruct (set_add name acc) as [acc'|]; [|done]. simpl. apply IH.
Qed.

Lemma existsb_py_eqb_str (n : string) (ns : list string) :
  existsb (py_eqb (JStr n)) (JStr <$> ns) = bool_decide (n ∈ ns).
Proof.
  induction ns as [|m ns IH]; [done|]. cbn [fmap list_fmap existsb].
  rewrite IH. cbn [py_eqb].
  destruct (String.eqb_spec n m) as [->|Hne].
  - symmetry. apply bool_decide_eq_true. left.
  - simpl. apply bool_decide_ext. rewrite elem_of_cons.
    split; [auto | intros [?|?]; [congruence | done]].
Qed.

Lemma line_name_some (l : line) (n : string) :
  line_name l = Some n ↔
  ∃ r, l = Parsed (JObj r) ∧ r !! "CityNameEn" = Some (JStr n).
Proof.
  split.
  - destruct l as [|[| | | | |r]]; simpl; try discriminate.
    destruct (r !! "CityNameEn") as [[| | |m| |]|] eqn:Hr; try discriminate.
    intros [= ->]. eauto.
  - intros (r & -> & Hr). simpl. by rewrite Hr.
Qed.

(** Records with distinct names are all counted. *)
Lemma scan_ledger_named (lines : list line) (acc : list string) :
  Forall (λ l, is_Some (line_name l)) lines →
  NoDup (acc ++ omap line_name lines) →
  scan_ledger lines (JStr <$> acc) = Ok (JStr <$> (acc ++ omap line_name lines)).
Proof.
  revert acc. induction lines as [|l lines IH]; intros acc Hall Hnd.
  - simpl. by rewrite app_nil_r.
  - apply Forall_cons in Hall as [[n Hn] Hall].
    pose proof Hn as Hl. apply line_name_some in Hl as (r & -> & Hr).
    cbn [omap list_omap] in Hnd |- *. rewrite Hn in Hnd |- *.
    cbn [scan_ledger py_get rbind]. rewrite Hr. cbn [from_option id].
    unfold set_add, set_mem. cbn [hashable rbind].
    rewrite existsb_py_eqb_str, bool_decide_eq_false_2.
    + replace ((JStr <$> acc) ++ [JStr n]) with (JStr <$> (acc ++ [n]))
        by by rewrite fmap_app.
      rewrite IH; [|done|by rewrite <- app_assoc].
      by rewrite <- app_assoc.
    + apply NoDup_app in Hnd as (_ & Hnd & _). intros Hin.
      apply (Hnd n Hin). left.
Qed.

(** C8. Malformed ledger tolerance: a ledger with one line that does not
    parse among N records (objects carrying distinct names) loads without
    an error, and the processed set has the N names: the bad line is
    skipped and costs nothing. *)
Theorem C8_malformed_ledger_tolerance (before after : list line) :
  Forall (λ l, is_Some (line_name l)) (before ++ after) →
  NoDup (omap line_name (before ++ after)) →
  ∃ processed,
    load_processed_city_names (Some (before ++ Garbage :: after)) = Ok processed ∧
    length processed = length (before ++ after) ∧
    processed = JStr <$> omap line_name (before ++ after) ∧
    load_processed_city_names (Some (before ++ after)) = Ok processed.
Proof.
  intros Hall Hnd. eexists. unfold load_processed_city_names.
  rewrite scan_ledger_garbage.
  pose proof (scan_ledger_named (before ++ after) [] Hall Hnd) as Hscan.
  rewrite app_nil_l in Hscan. change (JStr <$> []) with (@nil json) in Hscan.
  rewrite Hscan. repeat split. rewrite length_fmap.
  clear Hnd Hscan. induction Hall as [|l ls [n Hn] _ IH]; [done|].
  cbn [omap list_omap]. rewrite Hn. cbn [length]. by rewrite IH.
Qed.

Lemma C8_witness :
  ∃ processed,
    load_processed_city_names
      (Some ([Parsed (JObj (named_record "Oslo"))] ++
             Garbage :: [Parsed (JObj (named_record "Lima"))])) = Ok processed ∧
    length processed = 2.
Proof.
  destruct (C8_malformed_ledger_tolerance
              [Parsed (JObj (named_record "Oslo"))]
              [Parsed (JObj (named_record "Lima"))])
    as (processed & H1 & H2 & _).
  - repeat constructor; by eexists.
  - vm_compute. apply NoDup_cons_2; [|apply NoDup_singleton].
    rewrite list_elem_of_singleton. discriminate.
  - exists processed. split; [exact H1 | exact H2].
Defined.

(** *** Relations every step of the loop preserves *)

Section Preserves.
Context (R : relation state) `{!PreOrder R}.

Lemma preserves_bind {A B : Type} (m : M A) (k : A → M B) :
  preserves R m → (∀ a, preserves R (k a)) → preserves R (bind m k).
Proof.
  intros Hm Hk s. unfold bind. specialize (Hm s).
  destruct (m s) as [[a| |e|] s1]; simpl in *; try done.
  etrans; [exact Hm | apply Hk].
Qed.

Lemma preserves_ret {A : Type} (a : A) : preserves R (ret a).
Proof. intros s. simpl. reflexivity. Qed.

Lemma preserves_continue {A : Type} : preserves R (@continue A).
Proof. intros s. simpl. reflexivity. Qed.

Lemma preserves_uncaught {A : Type} (r : result A) : preserves R (uncaught r).
Proof. intros s. destruct r; simpl; reflexivity. Qed.

Lemma get_wikidata_id_other (o : oracle) (name : json) (s : state) :
  (∀ k, name ≠ JStr k) → (get_wikidata_id o name s).2 = s.
Proof. intros Hn. destruct name; try done. by destruct (Hn s0). Qed.

Lemma parent_record_other (o : oracle) (lv : level) (pqid : json) (s : state) :
  (∀ k, pqid ≠ JStr k) → (parent_record o lv pqid s).2 = s.
Proof. intros Hn. destruct pqid; try done. by destruct (Hn s0). Qed.

Context (o : oracle).
Hypothesis progress_ok : ∀ idx total name s, R s (note (EvProgress idx total name) s).
Hypothesis resolve_ok : ∀ key s, R s (get_wikidata_id o (JStr key) s).2.
Hypothesis enrich_ok : ∀ qid s, R s (enrich_city o qid s).2.
Hypothesis parent_ok : ∀ lv key s, R s (parent_record o lv (JStr key) s).2.
Hypothesis emit_ok : ∀ record s, R s (note (EvSleep 1) (appended record s)).

Lemma preserves_get_wikidata_id (name : json) :
  preserves R (get_wikidata_id o name).
Proof.
  intros s. destruct name as [| | |key| |];
    try (rewrite get_wikidata_id_other by done; reflexivity).
  apply resolve_ok.
Qed.

Lemma preserves_parent_record (lv : level) (pqid : json) :
  preserves R (parent_record o lv pqid).
Proof.
  intros s. destruct pqid as [| | |key| |];
    try (rewrite parent_record_other by done; reflexivity).
  apply parent_ok.
Qed.

Lemma preserves_country_enrichment (qid : json) (info city : gmap string json) :
  preserves R (country_enrichment o qid info city).
Proof.
  unfold country_enrichment. destruct (truthy _); [|apply preserves_ret].
  apply preserves_bind; [apply preserves_parent_record|]. intros country_info.
  apply preserves_bind; [apply preserves_uncaught|]. intros ?.
  apply preserves_ret.
Qed.

Lemma preserves_state_enrichment (info city : gmap string json) :
  preserves R (state_enrichment o info city).
Proof.
  unfold state_enrichment. destruct (truthy _); [|apply preserves_ret].
  apply preserves_bind; [apply preserves_parent_record|]. intros ?.
  apply preserves_ret.
Qed.

Lemma preserves_process_city (idx total : nat) (city : gmap string json) :
  preserves R (process_city o idx total city).
Proof.
  unfold process_city.
  apply preserves_bind; [apply preserves_uncaught|]. intros name.
  apply preserves_bind; [intros s; apply progress_ok|]. intros _.
  apply preserves_bind; [apply preserves_get_wikidata_id|]. intros qid.
  destruct (negb (truthy qid)); [apply preserves_continue|].
  apply preserves_bind; [intros s; apply enrich_ok|]. intros info.
  apply preserves_bind; [apply preserves_country_enrichment|]. intros city1.
  apply preserves_bind; [apply preserves_state_enrichment|]. intros city2.
  intros s. apply emit_ok.
Qed.

Lemma preserves_for_each (total idx : nat) (to_process : list (gmap string json))
    (s : state) :
  R s (for_each o total idx to_process s).2.
Proof.
  revert idx s. induction to_process as [|city rest IH]; intros idx s.
  - simpl. reflexivity.
  - simpl. pose proof (preserves_process_city idx total city s) as Hstep.
    destruct (process_city o idx total city s) as [[[]| |e|] s1]; simpl in *;
      try done; (etrans; [exact Hstep | apply IH]).
Qed.
End Preserves.

(** *** Pacing *)

Lemma paced_from_app (pending : bool) (evs evs' : list event) :
  paced_from pending evs = true → paced evs' = true →
  paced_from pending (evs ++ evs') = true.
Proof.
  revert pending. induction evs as [|e evs IH]; intros pending H H'.
  - destruct pending; [done | exact H'].
  - destruct e; simpl in *;
      repeat (apply andb_true_iff in H as [H ?]);
      repeat (apply andb_true_iff; split); auto.
Qed.

#[local] Instance keeps_pace_preorder : PreOrder keeps_pace.
Proof.
  split.
  - intros s. exists []. by rewrite !app_nil_r.
  - intros s1 s2 s3 (e1 & H1 & P1 & L1) (e2 & H2 & P2 & L2). exists (e1 ++ e2).
    split; [by rewrite H2, H1, app_assoc|].
    split; [by apply paced_from_app|].
    by rewrite L2, L1, omap_app, app_assoc.
Qed.

Ltac pace :=
  unfold keeps_pace; autorewrite with st; rewrite <- ?app_assoc;
  eexists; split; [reflexivity | split; [done | by rewrite ?app_nil_r]].

Lemma keeps_pace_for_each (o : oracle) (total idx : nat)
    (to_process : list (gmap string json)) (s : state) :
  keeps_pace s (for_each o total idx to_process s).2.
Proof.
  apply preserves_for_each; try apply _.
  - intros. pace.
  - intros key s0. rewrite get_wikidata_id_str.
    destruct (cache Names s0 !! key); [reflexivity|].
    destruct (search_hit _) as [[q|]|e]; simpl; pace.
  - intros qid s0. rewrite enrich_city_run. simpl.
    destruct (enrich_city_body _ _); pace.
  - intros lv key s0. rewrite parent_record_str.
    destruct (cache _ s0 !! key); [reflexivity|].
    rewrite get_entity_info_run. simpl.
    destruct (entity_info_body _ _ _); pace.
  - intros. pace.
Qed.

(** What [process_entries] does before the loop. *)
Lemma process_entries_run (o : oracle) (d : disk) :
  (∃ e, process_entries o d = (Crashed e, d)) ∨
  ∃ cities items processed to_process qids countries states,
    load_input (input_file d) = Ok cities ∧
    load_json (qid_file d) = Ok qids ∧
    load_json (countries_file d) = Ok countries ∧
    load_json (states_file d) = Ok states ∧
    load_processed_city_names (output_file d) = Ok processed ∧
    py_iter cities = Ok items ∧
    select items processed = Ok to_process ∧
    let s0 := {| fs := with_log (λ l, l ++ [EvProcessing (length to_process)]) d;
                 qid_lookup := qids; country_cache := countries;
                 state_cache := states |} in
    process_entries o d =
      ((for_each o (length to_process) 1 to_process s0).1,
       fs (for_each o (length to_process) 1 to_process s0).2).
Proof.
  unfold process_entries.
  destruct (load_input _) as [cities|e]; cbn [rbind]; [|left; by eexists].
  destruct (load_json (qid_file d)) as [qids|e]; cbn [rbind];
    [|left; by eexists].
  destruct (load_json (countries_file d)) as [countries|e]; cbn [rbind];
    [|left; by eexists].
  destruct (load_json (states_file d)) as [states|e]; cbn [rbind];
    [|left; by eexists].
  destruct (load_processed_city_names _) as [processed|e]; cbn [rbind];
    [|left; by eexists].
  destruct (py_iter cities) as [items|e] eqn:Hiter; cbn [rbind];
    [|left; by eexists].
  destruct (select items processed) as [to_process|e] eqn:Hsel; cbn [rbind];
    [|left; by eexists].
  right. exists cities, items, processed, to_process, qids, countries, states.
  repeat split; try done.
  by destruct (for_each _ _ _ _ _).
Qed.

(** A run keeps the pace and appends to the ledger what its events say. *)
Lemma process_entries_paced (o : oracle) (d : disk) :
  ∃ evs,
    log (process_entries o d).2 = log d ++ evs ∧
    paced evs = true ∧
    lines_of (output_file (process_entries o d).2) =
      lines_of (output_file d) ++ omap appended_line evs.
Proof.
  destruct (process_entries_run o d) as [[e H]|H].
  - rewrite H. exists []. by rewrite !app_nil_r.
  - destruct H as (cities & items & processed & to_process & qids & countries
                   & states & _ & _ & _ & _ & _ & _ & _ & H).
    simpl in H. rewrite H. simpl.
    match goal with |- context [for_each o ?t 1 ?tp ?s0] =>
      destruct (keeps_pace_for_each o t 1 tp s0) as (evs & Hlog & Hp & Hl) end.
    exists (EvProcessing (length to_process) :: evs).
    rewrite Hlog, Hl. simpl. by rewrite <- app_assoc.
Qed.

(** C5, as the code has it.  In every run each ledger append is followed
    at once by the pacing delay of one second, before anything of the next
    record happens, the run sleeps at no other time, and the lines added to
    the ledger are the records appended. *)
Theorem C5_pacing_after_emitted (o : oracle) (d : disk) :
  ∃ evs,
    extends d (process_entries o d).2 evs ∧
    paced evs = true ∧
    lines_of (output_file (process_entries o d).2) =
      lines_of (output_file d) ++ omap appended_line evs.
Proof. apply process_entries_paced. Qed.

(** C5, as it is stated, fails: the only record of this run is skipped (its
    search finds nothing) and the run ends without any delay. *)
Lemma C5_counterexample :
  process_entries demo_oracle nowhere_disk =
    (Done,
     {| input_file := input_file nowhere_disk;
        qid_file := Absent; countries_file := Absent; states_file := Absent;
        output_file := None;
        log := [EvProcessing 1; EvProgress 1 1 (JStr "Nowhere");
                EvSearch "Nowhere"] |}).
Proof. vm_compute. reflexivity. Qed.

(** *** One record *)

(** Only the loop body itself says [continue]. *)
Lemma get_wikidata_id_flow (o : oracle) (name : json) (s : state) :
  (get_wikidata_id o name s).1 ≠ Continue.
Proof.
  destruct name; try done. rewrite get_wikidata_id_str.
  destruct (cache Names s !! _); [done|].
  by destruct (search_hit _) as [[?|]|?].
Qed.

Lemma parent_record_flow (o : oracle) (lv : level) (pqid : json) (s : state) :
  (parent_record o lv pqid s).1 ≠ Continue.
Proof.
  destruct pqid; try done. rewrite parent_record_str.
  by destruct (cache _ s !! _).
Qed.

Lemma country_enrichment_flow (o : oracle) (qid : json)
    (info city : gmap string json) (s : state) :
  (country_enrichment o qid info city s).1 ≠ Continue.
Proof.
  unfold country_enrichment, bind. destruct (truthy _); [|done].
  pose proof (parent_record_flow o Country (field info "CountryQID") s).
  destruct (parent_record _ _ _ _) as [[record| | |] s1]; try done.
  by destruct (py_get record "CapitalQID" JNull).
Qed.

Lemma state_enrichment_flow (o : oracle) (info city : gmap string json) (s : state) :
  (state_enrichment o info city s).1 ≠ Continue.
Proof.
  unfold state_enrichment, bind. destruct (truthy _); [|done].
  pose proof (parent_record_flow o State (field info "StateQID") s).
  by destruct (parent_record _ _ _ _) as [[record| | |] s1].
Qed.

Section Cases.
Context (R : relation state) `{!PreOrder R} (o : oracle).
Hypothesis progress_ok : ∀ idx total name s, R s (note (EvProgress idx total name) s).
Hypothesis resolve_ok : ∀ key s, R s (get_wikidata_id o (JStr key) s).2.
Hypothesis enrich_ok : ∀ qid s, R s (enrich_city o qid s).2.
Hypothesis parent_ok : ∀ lv key s, R s (parent_record o lv (JStr key) s).2.

(** The ways through the loop body: a record is emitted after its name is
    resolved to a true value, it is enriched and linked to its country
    and state; it is skipped when the resolver answers a false value;
    otherwise the run ends there. *)
Lemma process_city_cases (idx total : nat) (city : gmap string json) (s : state) :
  match process_city o idx total city s with
  | (Next _, s') =>
      ∃ name qid s1 info s2 city1 s3 city2 s4,
        city !! "CityNameEn" = Some name ∧
        get_wikidata_id o name (note (EvProgress idx total name) s) = (Next qid, s1) ∧
        truthy qid = true ∧
        enrich_city o qid s1 = (Next info, s2) ∧
        info = caught (enrich_city_body (entity o (now s1) qid) qid) ∧
        country_enrichment o qid info (info ∪ city) s2 = (Next city1, s3) ∧
        state_enrichment o info city1 s3 = (Next city2, s4) ∧
        s' = note (EvSleep 1) (appended city2 s4) ∧
        R s s1 ∧ R s1 s4
  | (Continue, s') =>
      ∃ name qid,
        city !! "CityNameEn" = Some name ∧
        get_wikidata_id o name (note (EvProgress idx total name) s) = (Next qid, s') ∧
        truthy qid = false ∧
        R s s'
  | (_, s') => R s s'
  end.
Proof.
  unfold process_city, bind. simpl.
  destruct (city !! "CityNameEn") as [name|] eqn:Hname; simpl; [|reflexivity].
  pose proof (preserves_get_wikidata_id R o resolve_ok name
                (note (EvProgress idx total name) s)) as H1.
  assert (R s (get_wikidata_id o name (note (EvProgress idx total name) s)).2)
    as H01 by (etrans; [apply progress_ok | exact H1]).
  clear H1.
  pose proof (get_wikidata_id_flow o name (note (EvProgress idx total name) s))
    as F1.
  unfold emit.
  destruct (get_wikidata_id o name _) as [[qid| |e|] s1] eqn:E1; simpl in *;
    try done.
  destruct (truthy qid) eqn:Hq; simpl; [|exists name, qid; by repeat split].
  pose proof (enrich_ok qid s1) as H2. rewrite enrich_city_run in H2 |- *.
  simpl in H2 |- *.
  set (info := caught _). set (s2 := match enrich_city_body _ _ with
                                     | Ok _ => _ | Raise _ => _ end) in *.
  pose proof (preserves_country_enrichment R o parent_ok qid info
                (info ∪ city) s2) as H3.
  pose proof (country_enrichment_flow o qid info (info ∪ city) s2) as F3.
  destruct (country_enrichment o qid info (info ∪ city) s2)
    as [[city1| |e|] s3] eqn:E3; simpl in *; try done;
    try (etrans; [exact H01 | etrans; [exact H2 | exact H3]]).
  pose proof (preserves_state_enrichment R o parent_ok info city1 s3) as H4.
  pose proof (state_enrichment_flow o info city1 s3) as F4.
  destruct (state_enrichment o info city1 s3)
    as [[city2| |e|] s4] eqn:E4; simpl in *; try done;
    try (etrans; [exact H01 | etrans; [exact H2 | etrans; [exact H3 | exact H4]]]).
  exists name, qid, s1, info, s2, city1, s3, city2, s4.
  split; [done|]. split; [done|]. split; [done|].
  split; [by rewrite enrich_city_run|].
  split; [done|]. split; [done|]. split; [done|]. split; [done|].
  split; [done|].
  etrans; [exact H2 | etrans; [exact H3 | exact H4]].
Qed.
End Cases.

Lemma py_eqb_null (v : json) : truthy v = true → py_eqb JNull v = false.
Proof. by destruct v. Qed.

Lemma truthy_str (k : string) : truthy (JStr k) = true ↔ k ≠ "".
Proof.
  simpl. rewrite negb_true_iff. split.
  - intros H ->. discriminate.
  - intros H. by apply String.eqb_neq.
Qed.

Lemma parent_record_next (o : oracle) (lv : level) (pqid record : json)
    (s s' : state) :
  parent_record o lv pqid s = (Next record, s') →
  ∃ key, pqid = JStr key ∧ cache (domain_of lv) s' !! key = Some record ∧
         ∀ dm, dm ≠ domain_of lv → cache dm s' = cache dm s.
Proof.
  destruct pqid as [| | |key| |]; try done. rewrite parent_record_str.
  intros H. exists key. split; [done|].
  destruct (cache (domain_of lv) s !! key) as [r|] eqn:Hc.
  - injection H as <- <-. done.
  - rewrite get_entity_info_run in H. simpl in H. injection H as <- <-.
    split.
    + autorewrite with st. rewrite decide_True by done. apply lookup_insert_eq.
    + intros dm Hne. autorewrite with st. rewrite decide_False by done.
      destruct (entity_info_body _ _ _); by autorewrite with st.
Qed.

(** What the country block writes into the record. *)
Lemma country_enrichment_next (o : oracle) (qid : json)
    (info city city1 : gmap string json) (s s1 : state) :
  truthy qid = true →
  country_enrichment o qid info city s = (Next city1, s1) →
  (∀ k, k ≠ "CountryDetails" → k ≠ "IsCapital" → city1 !! k = city !! k) ∧
  (∃ b, city1 !! "IsCapital" = Some (JBool b) ∧
        (b = true ↔
         ∃ key country capital,
           field info "CountryQID" = JStr key ∧ key ≠ "" ∧
           cache Countries s1 !! key = Some (JObj country) ∧
           country !! "CapitalQID" = Some capital ∧
           py_eqb capital qid = true)) ∧
  (∀ dm, dm ≠ Countries → cache dm s1 = cache dm s).
Proof.
  intros Hq. unfold country_enrichment, bind.
  destruct (truthy (field info "CountryQID")) eqn:Hc.
  - destruct (parent_record _ _ _ _) as [[record| |e|] s'] eqn:Hp; try done.
    apply parent_record_next in Hp as (key & Hkey & Hrec & Hother).
    simpl in Hrec, Hother.
    destruct record as [| | | | |country]; try done. simpl.
    intros [= <- <-]. split; [|split; [|done]].
    + intros k H1 H2. by rewrite !lookup_insert_ne.
    + eexists. split; [apply lookup_insert_eq|].
      split.
      * intros Heq.
        destruct (country !! "CapitalQID") as [capital|] eqn:Hcap;
          cbn [from_option id] in Heq.
        -- exists key, country, capital. repeat split; try done.
           apply truthy_str. by rewrite <- Hkey.
        -- by rewrite py_eqb_null in Heq.
      * intros (key' & country' & capital & Hkey' & _ & Hrec' & Hcap & Heq).
        rewrite Hkey in Hkey'. injection Hkey' as <-.
        rewrite Hrec in Hrec'. injection Hrec' as <-.
        by rewrite Hcap.
  - intros [= <- <-]. split; [|split; [|done]].
    + intros k H1 H2. by rewrite lookup_insert_ne.
    + exists false. split; [apply lookup_insert_eq|].
      split; [done|].
      intros (key & _ & _ & Hkey & Hne & _).
      rewrite Hkey in Hc. apply truthy_str in Hne. congruence.
Qed.

(** What the state block writes into the record. *)
Lemma state_enrichment_next (o : oracle) (info city city2 : gmap string json)
    (s s2 : state) :
  state_enrichment o info city s = (Next city2, s2) →
  (∀ k, k ≠ "StateDetails" → city2 !! k = city !! k) ∧
  (∀ dm, dm ≠ States → cache dm s2 = cache dm s).
Proof.
  unfold state_enrichment, bind.
  destruct (truthy (field info "StateQID")) eqn:Hc.
  - destruct (parent_record _ _ _ _) as [[record| |e|] s'] eqn:Hp; try done.
    apply parent_record_next in Hp as (key & Hkey & Hrec & Hother).
    simpl in Hother.
    intros [= <- <-]. split; [|done].
    intros k H1. by rewrite lookup_insert_ne.
  - by intros [= <- <-].
Qed.

(** A city record never carries the fields the pipeline sets itself. *)
Lemma caught_enrich_city_body (r : option json) (qid : json) (k : string) :
  k ∈ ["CityNameEn"; "IsCapital"; "CountryDetails"; "StateDetails"] →
  caught (enrich_city_body r qid) !! k = None.
Proof.
  intros Hk. destruct (enrich_city_body r qid) as [info|e] eqn:H; [|done].
  apply enrich_city_body_ok in H as (_ & _ & _ & _ & H1 & H2 & H3 & H4 & _).
  simpl. repeat (apply elem_of_cons in Hk as [->|Hk]; [done|]).
  by apply elem_of_nil in Hk.
Qed.

Lemma enrich_city_body_dom (r : option json) (qid : json) (k : string) :
  k ∉ pipeline_fields → caught (enrich_city_body r qid) !! k = None.
Proof.
  intros Hk. destruct (enrich_city_body r qid) as [info|e] eqn:H; [|done].
  unfold enrich_city_body in H. rinv H. subst info. simpl.
  unfold pipeline_fields in Hk. rewrite !not_elem_of_cons in Hk.
  destruct Hk as (?&?&?&?&?&?&?&_).
  by rewrite !lookup_insert_ne.
Qed.

Lemma background_note (e : event) (s : state) : background s (note e s).
Proof. done. Qed.

Lemma background_resolve (o : oracle) (key : string) (s : state) :
  background s (get_wikidata_id o (JStr key) s).2.
Proof.
  rewrite get_wikidata_id_str. destruct (cache Names s !! key); [done|].
  by destruct (search_hit _) as [[q|]|e].
Qed.

Lemma background_enrich (o : oracle) (qid : json) (s : state) :
  background s (enrich_city o qid s).2.
Proof. rewrite enrich_city_run. simpl. by destruct (enrich_city_body _ _). Qed.

Lemma background_parent (o : oracle) (lv : level) (key : string) (s : state) :
  background s (parent_record o lv (JStr key) s).2.
Proof.
  rewrite parent_record_str. destruct (cache _ s !! key); [done|].
  rewrite get_entity_info_run. simpl. by destruct (entity_info_body _ _ _).
Qed.

(** The record a pass through the loop body appends, with what went into
    it. *)
Lemma process_city_emitted (o : oracle) (idx total : nat)
    (city : gmap string json) (s s' : state) :
  process_city o idx total city s = (Next (), s') →
  ∃ record name qid s1 info,
    output_file (fs s') =
      Some (lines_of (output_file (fs s)) ++ [Parsed (JObj record)]) ∧
    city !! "CityNameEn" = Some name ∧
    get_wikidata_id o name (note (EvProgress idx total name) s) = (Next qid, s1) ∧
    truthy qid = true ∧
    info = caught (enrich_city_body (entity o (now s1) qid) qid) ∧
    (∀ k, k ∉ ["CountryDetails"; "IsCapital"; "StateDetails"] →
          record !! k = (info ∪ city) !! k) ∧
    (∃ b, record !! "IsCapital" = Some (JBool b) ∧
          (b = true ↔
           ∃ key country capital,
             field info "CountryQID" = JStr key ∧ key ≠ "" ∧
             country_cache s' !! key = Some (JObj country) ∧
             country !! "CapitalQID" = Some capital ∧
             py_eqb capital qid = true)).
Proof.
  intros H.
  pose proof (process_city_cases background o
                (λ _ _ _, background_note _) (background_resolve o)
                (background_enrich o) (background_parent o) idx total city s) as Hc.
  rewrite H in Hc.
  destruct Hc as (name & qid & s1 & info & s2 & city1 & s3 & city2 & s4 & Hname
                  & Hres & Hq & Hen & Hinfo & Hco & Hst & -> & [B1 _] & [B2 _]).
  apply country_enrichment_next in Hco as (Hk1 & (b & Hb & Hiff) & _); [|done].
  apply state_enrichment_next in Hst as (Hk2 & Hcache).
  exists city2, name, qid, s1, info.
  split; [autorewrite with st; by rewrite B2, B1|].
  split; [done|]. split; [done|]. split; [done|]. split; [done|]. split.
  - intros k Hk. rewrite !not_elem_of_cons in Hk. destruct Hk as (?&?&?&_).
    rewrite Hk2 by done. by apply Hk1.
  - exists b. split; [by rewrite Hk2|].
    change (country_cache (note (EvSleep 1) (appended city2 s4)))
      with (cache Countries (note (EvSleep 1) (appended city2 s4))).
    autorewrite with st. by rewrite Hcache.
Qed.

(** C3. Capital correctness: the record the loop body appends has a
    boolean [IsCapital]; it is true exactly when a country identifier was
    extracted for the city, the country cache holds a record for it, that
    record has a [CapitalQID], and the city's own resolved identifier equals
    it (Python's [==]; on strings, [py_eqb_str]).  So it is false when no
    country identifier was extracted and when the country's record has no
    capital, as the record of a failed fetch. *)
Theorem C3_capital_correctness (o : oracle) (idx total : nat)
    (city : gmap string json) (s s' : state) :
  process_city o idx total city s = (Next (), s') →
  ∃ record name qid s1 info b,
    output_file (fs s') =
      Some (lines_of (output_file (fs s)) ++ [Parsed (JObj record)]) ∧
    city !! "CityNameEn" = Some name ∧
    get_wikidata_id o name (note (EvProgress idx total name) s) = (Next qid, s1) ∧
    info = caught (enrich_city_body (entity o (now s1) qid) qid) ∧
    record !! "IsCapital" = Some (JBool b) ∧
    (b = true ↔
     ∃ key country capital,
       field info "CountryQID" = JStr key ∧ key ≠ "" ∧
       country_cache s' !! key = Some (JObj country) ∧
       country !! "CapitalQID" = Some capital ∧
       py_eqb capital qid = true) ∧
    (truthy (field info "CountryQID") = false → b = false) ∧
    (∀ key country,
       field info "CountryQID" = JStr key →
       country_cache s' !! key = Some (JObj country) →
       country !! "CapitalQID" = None → b = false).
Proof.
  intros H.
  apply process_city_emitted in H
    as (record & name & qid & s1 & info & Hout & Hname & Hres & Hq & Hinfo & _
        & b & Hb & Hiff).
  exists record, name, qid, s1, info, b.
  repeat (split; [done|]). split.
  - intros Hc. destruct b; [|done].
    destruct Hiff as [Hiff _].
    destruct (Hiff eq_refl) as (key & _ & _ & Hkey & Hne & _).
    rewrite Hkey in Hc. apply truthy_str in Hne. congruence.
  - intros key country Hkey Hrec Hcap. destruct b; [|done].
    destruct Hiff as [Hiff _].
    destruct (Hiff eq_refl) as (key' & country' & capital & Hkey' & _ & Hrec' & Hcap' & _).
    congruence.
Qed.

Lemma C3_witness :
  ∃ record b,
    output_file (fs (after_city demo_city)) = Some [Parsed (JObj record)] ∧
    record !! "IsCapital" = Some (JBool b).
Proof.
  assert (process_city demo_oracle 1 1 demo_city (fresh_state demo_disk)
          = (Next (), after_city demo_city)) as H by (vm_compute; reflexivity).
  destruct (C3_capital_correctness _ _ _ _ _ _ H)
    as (record & name & qid & s1 & info & b & Hout & _ & _ & _ & Hb & _).
  exists record, b. split; [exact Hout | exact Hb].
Defined.

(** The scenario of the specification: Testville, Q1, is the capital of its
    country Q2, at latitude 10, and the country's code is TV. *)
Example scenario_testville :
  (process_city demo_oracle 1 1 demo_city (fresh_state demo_disk)).1 = Next () ∧
  last_record (after_city demo_city) !! "IsCapital" = Some (JBool true) ∧
  last_record (after_city demo_city) !! "Latitude" = Some (JNum 10) ∧
  last_record (after_city demo_city) !! "CountryDetails" = Some (JObj demo_country) ∧
  demo_country !! "IsoAlpha2" = Some (JStr "TV").
Proof. vm_compute. repeat split. Qed.

(** C7, as the code has it.  Caller-field pass-through: a field of the
    input record appears unchanged in the record appended for it when its
    key is none of those the pipeline writes ([pipeline_fields]). *)
Theorem C7_caller_fields_pass_through (o : oracle) (idx total : nat)
    (city : gmap string json) (s s' : state) :
  process_city o idx total city s = (Next (), s') →
  ∃ record,
    output_file (fs s') =
      Some (lines_of (output_file (fs s)) ++ [Parsed (JObj record)]) ∧
    ∀ k v, city !! k = Some v → k ∉ pipeline_fields → record !! k = Some v.
Proof.
  intros H.
  apply process_city_emitted in H
    as (record & name & qid & s1 & info & Hout & _ & _ & _ & Hinfo & Hrec & _).
  exists record. split; [done|]. intros k v Hk Hnot.
  rewrite Hrec.
  - rewrite lookup_union_r; [done|]. subst info. by apply enrich_city_body_dom.
  - unfold pipeline_fields in Hnot. rewrite !not_elem_of_cons in Hnot.
    rewrite !not_elem_of_cons.
    destruct Hnot as (_&_&_&_&_&_&_&?&?&?&_). repeat split; try done.
    apply not_elem_of_nil.
Qed.

Lemma C7_witness :
  ∃ record,
    output_file (fs (after_city caller_city)) = Some [Parsed (JObj record)] ∧
    record !! "Mayor" = Some (JStr "Ada").
Proof.
  assert (process_city demo_oracle 1 1 caller_city (fresh_state demo_disk)
          = (Next (), after_city caller_city)) as H by (vm_compute; reflexivity).
  destruct (C7_caller_fields_pass_through _ _ _ _ _ _ H) as (record & Hout & Hrec).
  exists record. split; [exact Hout|].
  apply Hrec; [vm_compute; reflexivity|].
  unfold pipeline_fields. rewrite !not_elem_of_cons.
  repeat (split; [discriminate|]). apply not_elem_of_nil.
Defined.

(** C7, as it is stated, fails: the caller's [Population] of Testville is
    replaced by what the city's document says, here nothing. *)
Lemma C7_counterexample :
  (process_city demo_oracle 1 1 caller_city (fresh_state demo_disk)).1 = Next () ∧
  output_file (fs (after_city caller_city)) =
    Some [Parsed (JObj (last_record (after_city caller_city)))] ∧
  caller_city !! "Population" = Some (JNum 5) ∧
  last_record (after_city caller_city) !! "Population" = Some JNull.
Proof. vm_compute. repeat split. Qed.

(** *** The caches *)

Lemma store_get_set (dm dm' : domain) (c : gmap string json) (st : stores) :
  store_get dm' (store_set dm c st) = if decide (dm' = dm) then c else store_get dm' st.
Proof. by destruct dm, dm'. Qed.

Lemma store_get_memory (dm : domain) (s : state) :
  store_get dm (memory s) = cache dm s.
Proof. by destruct dm. Qed.

Lemma store_get_stored (dm : domain) (d : disk) :
  store_get dm (stored d) = file_content (cache_file dm d).
Proof. by destruct dm. Qed.

Lemma memory_note (e : event) (s : state) : memory (note e s) = memory s.
Proof. done. Qed.

Lemma memory_saved (dm : domain) (s : state) : memory (saved dm s) = memory s.
Proof. done. Qed.

Lemma memory_appended (r : gmap string json) (s : state) :
  memory (appended r s) = memory s.
Proof. done. Qed.

Lemma memory_put (dm : domain) (k : string) (v : json) (s : state) :
  memory (put dm k v s) = store_set dm (<[k := v]> (cache dm s)) (memory s).
Proof. by destruct dm. Qed.

Lemma stored_note (e : event) (s : state) : stored (fs (note e s)) = stored (fs s).
Proof. done. Qed.

Lemma stored_appended (r : gmap string json) (s : state) :
  stored (fs (appended r s)) = stored (fs s).
Proof. done. Qed.

Lemma stored_saved (dm : domain) (s : state) :
  stored (fs (saved dm s)) = store_set dm (cache dm s) (stored (fs s)).
Proof. by destruct dm. Qed.

#[global] Hint Rewrite memory_note memory_saved memory_appended memory_put
  stored_note stored_appended stored_saved : st.

Lemma respects_app (st : stores) (evs evs' : list event) :
  respects st (evs ++ evs') ↔ respects st evs ∧ respects (after evs st) evs'.
Proof.
  revert st. induction evs as [|e evs IH]; intros st; simpl; [tauto|].
  destruct e as [?|? ? ?|?|?|lv [| | |key| |]|?|? ?|?|?]; rewrite ?IH; tauto.
Qed.

Lemma after_app (st : stores) (evs evs' : list event) :
  after (evs ++ evs') st = after evs' (after evs st).
Proof.
  revert st. induction evs as [|e evs IH]; intros st; simpl; [done|].
  by destruct e.
Qed.

Lemma saved_from_app (w : waiting) (evs evs' : list event) :
  saved_from w evs → fetches_saved evs' → saved_from w (evs ++ evs').
Proof.
  revert w. induction evs as [|e evs IH]; intros w H H'; simpl in *.
  - by subst w.
  - destruct w, e as [?|? ? ?|?|?|lv' [| | |key'| |]|?|? ?|?|?]; try done;
      try by apply IH.
    + destruct H as (? & ? & ?). repeat split; try done. by apply IH.
    + destruct H as (? & ? & ?). repeat split; try done. by apply IH.
Qed.

(** A cache never loses an entry, nor changes one. *)
Lemma respects_grows (st : stores) (evs : list event) (dm : domain) :
  respects st evs → store_get dm st ⊆ store_get dm (after evs st).
Proof.
  revert st. induction evs as [|e evs IH]; intros st H; simpl in *; [done|].
  destruct e as [?|? ? ?|?|?|lv [| | |key| |]|?|dm' c|?|?];
    try (apply IH; tauto).
  destruct H as [Hsub H]. etrans; [|apply IH, H].
  rewrite store_get_set. by case_decide; subst.
Qed.

(** What is in a cache is not fetched again. *)
Lemma respects_no_search (st : stores) (evs : list event) (name : string) :
  respects st evs → is_Some (store_get Names st !! name) → EvSearch name ∉ evs.
Proof.
  revert st. induction evs as [|e evs IH]; intros st H Hin; [apply not_elem_of_nil|].
  apply not_elem_of_cons. simpl in H.
  destruct e as [?|? ? ?|n|?|lv' [| | |key'| |]|?|dm' c|?|?];
    try (split; [done | apply (IH st); tauto]).
  - destruct H as [Hn H]. split; [|by apply (IH st)].
    intros [= <-]. simpl in Hin. rewrite Hn in Hin. by destruct Hin.
  - destruct H as [Hsub H]. split; [done|]. apply (IH _ H).
    rewrite store_get_set. case_decide; [subst|done].
    destruct Hin as [v Hv]. exists v. by eapply lookup_weaken.
Qed.

Lemma respects_no_fetch (st : stores) (evs : list event) (lv : level) (key : string) :
  respects st evs → is_Some (store_get (domain_of lv) st !! key) →
  EvEntity lv (JStr key) ∉ evs.
Proof.
  revert st. induction evs as [|e evs IH]; intros st H Hin; [apply not_elem_of_nil|].
  apply not_elem_of_cons. simpl in H.
  destruct e as [?|? ? ?|n|?|lv' [| | |key'| |]|?|dm' c|?|?];
    try (split; [done | apply (IH st); tauto]).
  - destruct H as [Hn H]. split; [|by apply (IH st)].
    intros [= <- <-]. rewrite Hn in Hin. by destruct Hin.
  - destruct H as [Hsub H]. split; [done|]. apply (IH _ H).
    rewrite store_get_set. case_decide as Hd; [|done]. rewrite <- Hd in *.
    destruct Hin as [v Hv]. exists v. by eapply lookup_weaken.
Qed.

#[local] Instance tracks_preorder : PreOrder tracks.
Proof.
  split.
  - intros s. exists []. by rewrite app_nil_r.
  - intros s1 s2 s3 (e1 & L1 & R1 & F1 & M1 & S1) (e2 & L2 & R2 & F2 & M2 & S2).
    exists (e1 ++ e2). split; [by rewrite L2, L1, app_assoc|].
    split; [apply respects_app; by rewrite <- M1|].
    split; [by apply saved_from_app|].
    split; [by rewrite after_app, <- M1|]. auto.
Qed.

Lemma tracks_quiet (evs : list event) (s s' : state) :
  log (fs s') = log (fs s) ++ evs →
  memory s' = memory s →
  stored (fs s') = stored (fs s) →
  Forall (λ e, match e with
               | EvSearch _ | EvEntity _ _ | EvSave _ _ => False
               | _ => True
               end) evs →
  tracks s s'.
Proof.
  intros Hlog Hmem Hst Hq. exists evs. split; [done|].
  assert (respects (memory s) evs ∧ fetches_saved evs ∧ after evs (memory s) = memory s)
    as (? & ? & Ha).
  { generalize (memory s). clear -Hq. unfold fetches_saved.
    induction Hq as [|e evs He _ IH]; intros st; [done|].
    destruct (IH st) as (? & ? & ?). by destruct e. }
  repeat split; try done; congruence.
Qed.

Lemma tracks_resolve (o : oracle) (key : string) (s : state) :
  tracks s (get_wikidata_id o (JStr key) s).2.
Proof.
  rewrite get_wikidata_id_str.
  destruct (cache Names s !! key) as [q|] eqn:Hc; [reflexivity|].
  destruct (search_hit _) as [[q|]|e]; simpl.
  - exists [EvSearch key; EvSave Names (<[key := q]> (cache Names s))].
    autorewrite with st. rewrite decide_True by done. rewrite <- app_assoc.
    split; [done|]. split.
    { simpl. change (qid_lookup s) with (cache Names s).
      repeat split; try done. by apply insert_subseteq. }
    split; [done|]. split; [done|]. by intros ->.
  - exists [EvSearch key]. autorewrite with st. repeat split; try done.
  - exists [EvSearch key; EvError "Error finding QID"]. autorewrite with st.
    rewrite <- app_assoc. repeat split; try done.
Qed.

Lemma tracks_enrich (o : oracle) (qid : json) (s : state) :
  tracks s (enrich_city o qid s).2.
Proof.
  rewrite enrich_city_run. simpl.
  destruct (enrich_city_body _ _).
  - apply (tracks_quiet [EvCity qid]); try done. by repeat constructor.
  - apply (tracks_quiet [EvCity qid; EvError "Error enriching city"]); try done.
    + autorewrite with st. by rewrite <- app_assoc.
    + by repeat constructor.
Qed.

Lemma tracks_parent (o : oracle) (lv : level) (key : string) (s : state) :
  tracks s (parent_record o lv (JStr key) s).2.
Proof.
  rewrite parent_record_str.
  destruct (cache (domain_of lv) s !! key) as [q|] eqn:Hc; [reflexivity|].
  rewrite get_entity_info_run. simpl.
  destruct (entity_info_body _ _ _) as [info|e]; simpl.
  - exists [EvEntity lv (JStr key);
            EvSave (domain_of lv) (<[key := JObj info]> (cache (domain_of lv) s))].
    autorewrite with st. rewrite decide_True by done. rewrite <- app_assoc.
    split; [done|]. split.
    { simpl. rewrite !store_get_memory. repeat split; try done.
      by apply insert_subseteq. }
    split. { simpl. repeat split; try done. rewrite lookup_insert_eq. by eexists. }
    split; [done|]. by intros ->.
  - exists [EvEntity lv (JStr key); EvError "Error loading entity";
            EvSave (domain_of lv) (<[key := JObj ∅]> (cache (domain_of lv) s))].
    autorewrite with st. rewrite decide_True by done. rewrite <- !app_assoc.
    split; [done|]. split.
    { simpl. rewrite !store_get_memory. repeat split; try done.
      by apply insert_subseteq. }
    split. { simpl. repeat split; try done. by rewrite lookup_insert_eq. }
    split; [done|]. by intros ->.
Qed.

Lemma tracks_for_each (o : oracle) (total idx : nat)
    (to_process : list (gmap string json)) (s : state) :
  tracks s (for_each o total idx to_process s).2.
Proof.
  apply preserves_for_each; try apply _.
  - intros. apply (tracks_quiet [EvProgress idx0 total0 name]); try done.
    by repeat constructor.
  - apply tracks_resolve.
  - apply tracks_enrich.
  - apply tracks_parent.
  - intros. apply (tracks_quiet [EvAppend record; EvSleep 1]); try done.
    + autorewrite with st. by rewrite <- app_assoc.
    + by repeat constructor.
Qed.

Lemma load_json_ok (f : file (gmap string json)) (c : gmap string json) :
  load_json f = Ok c → c = file_content f.
Proof. destruct f; simpl; congruence. Qed.

(** One run keeps the caches, from what the files hold at its start. *)
Lemma process_entries_tracks (o : oracle) (d : disk) :
  ∃ evs,
    log (process_entries o d).2 = log d ++ evs ∧
    respects (stored d) evs ∧
    fetches_saved evs ∧
    stored (process_entries o d).2 = after evs (stored d).
Proof.
  destruct (process_entries_run o d) as [[e H]|H].
  - rewrite H. exists []. by rewrite app_nil_r.
  - destruct H as (cities & items & processed & to_process & qids & countries
                   & states & _ & Hq & Hc & Hs & _ & _ & _ & H).
    simpl in H. rewrite H. simpl.
    apply load_json_ok in Hq, Hc, Hs. subst qids countries states.
    match goal with |- context [for_each o ?t 1 ?tp ?s0] =>
      destruct (tracks_for_each o t 1 tp s0) as (evs & Hlog & Hr & Hf & Hm & Hsync) end.
    exists (EvProcessing (length to_process) :: evs).
    rewrite Hlog. simpl. rewrite <- app_assoc.
    split; [done|]. split; [exact Hr|]. split; [exact Hf|].
    rewrite Hsync by done. exact Hm.
Qed.

Lemma runs_tracks (sessions : list session) (d : disk) :
  ∃ evs,
    log (runs sessions d) = log d ++ evs ∧
    respects (stored d) evs ∧
    fetches_saved evs ∧
    stored (runs sessions d) = after evs (stored d).
Proof.
  revert d. induction sessions as [|ss rest IH]; intros d; simpl.
  - exists []. by rewrite app_nil_r.
  - destruct (process_entries_tracks (ses_oracle ss) (prepare ss d))
      as (e1 & L1 & R1 & F1 & S1).
    change (stored (prepare ss d)) with (stored d) in R1, S1.
    change (log (prepare ss d)) with (log d) in L1.
    destruct (IH (process_entries (ses_oracle ss) (prepare ss d)).2)
      as (e2 & L2 & R2 & F2 & S2).
    exists (e1 ++ e2). split; [by rewrite L2, L1, app_assoc|].
    split; [apply respects_app; split; [exact R1 | by rewrite <- S1]|].
    split; [by apply saved_from_app|].
    by rewrite after_app, S2, S1.
Qed.

(** C2. Cache immutability and fetch-once.  Over any number of runs, each
    with its own oracle, input and ledger, on the cache files the run before
    left: the events respect the caches, and so, once a key is in a cache
    (after the events [a]), its value stays what it is to the end, no search
    of that name and no fetch of that country or state identifier is issued
    later (in [b]), in the same run or in a later one. *)
Theorem C2_cache_fetch_once (sessions : list session) (d : disk) :
  ∃ evs,
    extends d (runs sessions d) evs ∧
    respects (stored d) evs ∧
    stored (runs sessions d) = after evs (stored d) ∧
    ∀ a b dm key v,
      evs = a ++ b →
      store_get dm (after a (stored d)) !! key = Some v →
      store_get dm (stored (runs sessions d)) !! key = Some v ∧
      (dm = Names → EvSearch key ∉ b) ∧
      (∀ lv, dm = domain_of lv → EvEntity lv (JStr key) ∉ b).
Proof.
  destruct (runs_tracks sessions d) as (evs & Hlog & Hr & _ & Hst).
  exists evs. repeat (split; [done|]).
  intros a b dm key v -> Hkey.
  apply respects_app in Hr as [Ha Hb]. rewrite Hst, after_app.
  split; [|split].
  - eapply lookup_weaken; [exact Hkey|]. by apply respects_grows.
  - intros ->. eapply respects_no_search; [exact Hb|]. by eexists.
  - intros lv ->. eapply respects_no_fetch; [exact Hb|]. by eexists.
Qed.

Lemma saved_from_failed (w : waiting) (a b : list event) (lv : level)
    (key what : string) :
  saved_from w (a ++ EvEntity lv (JStr key) :: EvError what :: b) →
  ∃ c b', b = EvSave (domain_of lv) c :: b' ∧ c !! key = Some (JObj ∅).
Proof.
  revert w. induction a as [|e a IH]; intros w H.
  - destruct w; try done. simpl in H.
    destruct b as [|[?|? ? ?|?|?|? ?|?|dm c|?|?] b']; try done.
    destruct H as (-> & Hc & _). eauto.
  - simpl in H.
    destruct w, e as [?|? ? ?|?|?|lv' [| | |key'| |]|?|? ?|?|?]; try done;
      try (by eapply IH); destruct H as (_ & _ & H); by eapply IH.
Qed.

(** C10. A failed fetch of a country's or a state's record is cached for
    good.  When the cache of the level lacks [key] and the fetch of its
    record fails, whatever the failure, the empty record is stored under
    [key], the cache is saved at once, and the empty record is what the
    caller gets.  And over any number of runs: when the fetch of the record
    of [key] fails (the fetch is followed by the error message), the next
    event is the save of the cache of that level holding the empty record
    under [key]; [key] is never fetched again, in that run or a later one,
    and the cache file still holds the empty record for it at the end. *)
Theorem C10_failed_parent_fetch_cached (o : oracle) (lv : level) (key : string)
    (s : state) (e : exn) :
  cache (domain_of lv) s !! key = None →
  entity_info_body (entity o (now s) (JStr key)) (JStr key) lv = Raise e →
  ((parent_record o lv (JStr key) s).1 = Next (JObj ∅) ∧
   cache (domain_of lv) (parent_record o lv (JStr key) s).2
     = <[key := JObj ∅]> (cache (domain_of lv) s) ∧
   cache_file (domain_of lv) (fs (parent_record o lv (JStr key) s).2)
     = Stored (<[key := JObj ∅]> (cache (domain_of lv) s)) ∧
   log (fs (parent_record o lv (JStr key) s).2)
     = log (fs s) ++ [EvEntity lv (JStr key); EvError "Error loading entity";
                      EvSave (domain_of lv) (<[key := JObj ∅]> (cache (domain_of lv) s))]) ∧
  ∀ (sessions : list session) (d : disk),
    ∃ evs,
      extends d (runs sessions d) evs ∧
      ∀ a b lv key what,
        evs = a ++ EvEntity lv (JStr key) :: EvError what :: b →
        ∃ c b',
          b = EvSave (domain_of lv) c :: b' ∧
          c !! key = Some (JObj ∅) ∧
          (EvEntity lv (JStr key) ∉ b') ∧
          store_get (domain_of lv) (stored (runs sessions d)) !! key = Some (JObj ∅).
Proof.
  intros Hmiss Hfail. split.
  { rewrite parent_record_str, Hmiss, get_entity_info_run, Hfail.
    cbn [fst snd caught]. autorewrite with st. rewrite !decide_True by done.
    by rewrite <- !app_assoc. }
  clear. intros sessions d.
  destruct (runs_tracks sessions d) as (evs & Hlog & Hr & Hf & Hst).
  exists evs. split; [done|].
  intros a b lv key what ->.
  destruct (saved_from_failed _ _ _ _ _ _ Hf) as (c & b' & -> & Hc).
  exists c, b'. split; [done|]. split; [done|].
  replace (a ++ EvEntity lv (JStr key) :: EvError what :: EvSave (domain_of lv) c :: b')
    with ((a ++ [EvEntity lv (JStr key); EvError what; EvSave (domain_of lv) c]) ++ b')
    in Hr, Hst by (by rewrite <- app_assoc).
  apply respects_app in Hr as [_ Hb]. rewrite after_app in Hb.
  rewrite !after_app in Hst. simpl in Hst, Hb.
  assert (store_get (domain_of lv) (store_set (domain_of lv) c (after a (stored d)))
            !! key = Some (JObj ∅)) as Hkey.
  { rewrite store_get_set, decide_True by done. exact Hc. }
  split.
  - eapply respects_no_fetch; [exact Hb|]. by eexists.
  - rewrite Hst. eapply lookup_weaken; [exact Hkey|]. by apply respects_grows.
Qed.

(** The country Q2 cannot be fetched: its empty record is what is cached. *)
Lemma C10_witness :
  (parent_record failing_oracle Country (JStr "Q2") (fresh_state demo_disk)).1
    = Next (JObj ∅) ∧
  cache Countries (parent_record failing_oracle Country (JStr "Q2")
                     (fresh_state demo_disk)).2 = {[ "Q2" := JObj ∅ ]}.
Proof.
  destruct (C10_failed_parent_fetch_cached failing_oracle Country "Q2"
              (fresh_state demo_disk) RequestError)
    as [(H1 & H2 & _) _]; [reflexivity | reflexivity |].
  split; [exact H1 | exact H2].
Defined.

(** *** A name that cannot be resolved *)

Lemma for_each_steps (R : relation state) `{!PreOrder R} (o : oracle)
    (total : nat) :
  (∀ idx city s, R s (process_city o idx total city s).2) →
  ∀ idx to_process s, R s (for_each o total idx to_process s).2.
Proof.
  intros Hstep idx to_process. revert idx.
  induction to_process as [|city rest IH]; intros idx s; simpl; [reflexivity|].
  specialize (Hstep idx city s).
  destruct (process_city o idx total city s) as [[[]| |e|] s1]; simpl in *;
    try done; (etrans; [exact Hstep | apply IH]).
Qed.

#[local] Instance still_unresolved_preorder (n : string) :
  PreOrder (still_unresolved n).
Proof.
  split.
  - intros s. split; [done|]. exists []. split; [by rewrite app_nil_r|].
    intros r. apply not_elem_of_nil.
  - intros s1 s2 s3 [U1 (e1 & L1 & A1)] [U2 (e2 & L2 & A2)].
    split; [auto|]. exists (e1 ++ e2). split; [by rewrite L2, L1, app_assoc|].
    intros r. rewrite elem_of_app. intros [?|?]; [by eapply A1 | by eapply A2].
Qed.

#[local] Instance never_emits_preorder (n : string) : PreOrder (never_emits n).
Proof.
  split.
  - intros s U. split; [done|]. exists []. split; [by rewrite app_nil_r|].
    intros r Hr. by apply elem_of_nil in Hr.
  - intros s1 s2 s3 H1 H2 U1.
    destruct (H1 U1) as [U2 (e1 & L1 & A1)].
    destruct (H2 U2) as [U3 (e2 & L2 & A2)].
    split; [done|]. exists (e1 ++ e2). split; [by rewrite L2, L1, app_assoc|].
    intros r. rewrite elem_of_app. intros [?|?]; [by eapply A1 | by eapply A2].
Qed.

Lemma still_unresolved_quiet (n : string) (evs : list event) (s s' : state) :
  log (fs s') = log (fs s) ++ evs →
  cache Names s' = cache Names s →
  cache_file Names (fs s') = cache_file Names (fs s) →
  (∀ r, EvAppend r ∉ evs) →
  still_unresolved n s s'.
Proof.
  intros Hlog Hc Hf Ha. split; [|by exists evs].
  unfold unresolved. by rewrite Hc, Hf.
Qed.

Ltac no_append :=
  let r := fresh "r" in
  intros r; rewrite ?not_elem_of_cons; repeat split; try done;
  apply not_elem_of_nil.

Lemma still_unresolved_resolve (o : oracle) (n key : string) (s : state) :
  (∀ t, no_match (search o t n) = true) →
  still_unresolved n s (get_wikidata_id o (JStr key) s).2.
Proof.
  intros Hn. rewrite get_wikidata_id_str.
  destruct (cache Names s !! key) as [q|] eqn:Hc; [reflexivity|].
  pose proof (Hn (now s)) as Hm. unfold no_match in Hm.
  destruct (search_hit (search o (now s) key)) as [[q|]|e] eqn:Hs; simpl.
  - split.
    + assert (key ≠ n) as Hne by (intros ->; by rewrite Hs in Hm).
      unfold unresolved. autorewrite with st. rewrite !decide_True by done.
      simpl. rewrite !lookup_insert_ne by done. by intros [? _].
    + exists [EvSearch key; EvSave Names (<[key := q]> (cache Names s))].
      autorewrite with st. rewrite decide_True by done. rewrite <- app_assoc.
      split; [done|]. no_append.
  - apply (still_unresolved_quiet n [EvSearch key]); by autorewrite with st || no_append.
  - apply (still_unresolved_quiet n [EvSearch key; EvError "Error finding QID"]);
      try by autorewrite with st.
    + autorewrite with st. by rewrite <- app_assoc.
    + no_append.
Qed.

Lemma still_unresolved_enrich (o : oracle) (n : string) (qid : json) (s : state) :
  still_unresolved n s (enrich_city o qid s).2.
Proof.
  rewrite enrich_city_run. simpl. destruct (enrich_city_body _ _).
  - apply (still_unresolved_quiet n [EvCity qid]); by autorewrite with st || no_append.
  - apply (still_unresolved_quiet n [EvCity qid; EvError "Error enriching city"]);
      try by autorewrite with st.
    + autorewrite with st. by rewrite <- app_assoc.
    + no_append.
Qed.

Lemma still_unresolved_parent (o : oracle) (n : string) (lv : level)
    (key : string) (s : state) :
  still_unresolved n s (parent_record o lv (JStr key) s).2.
Proof.
  rewrite parent_record_str.
  destruct (cache (domain_of lv) s !! key) as [q|] eqn:Hc; [reflexivity|].
  rewrite get_entity_info_run. cbn [fst snd].
  assert (Names ≠ domain_of lv) as Hne by by destruct lv.
  destruct (entity_info_body _ _ _) as [info|e]; cbn [caught].
  - split.
    + unfold unresolved. autorewrite with st. by rewrite !decide_False.
    + exists [EvEntity lv (JStr key);
              EvSave (domain_of lv) (<[key := JObj info]> (cache (domain_of lv) s))].
      autorewrite with st. rewrite decide_True by done. rewrite <- !app_assoc.
      split; [done|]. no_append.
  - split.
    + unfold unresolved. autorewrite with st. by rewrite !decide_False.
    + exists [EvEntity lv (JStr key); EvError "Error loading entity";
              EvSave (domain_of lv) (<[key := JObj ∅]> (cache (domain_of lv) s))].
      autorewrite with st. rewrite decide_True by done. rewrite <- !app_assoc.
      split; [done|]. no_append.
Qed.

(** The resolver answers not-found, and raises nothing. *)
Lemma get_wikidata_id_no_match (o : oracle) (n : string) (s : state) :
  cache Names s !! n = None →
  no_match (search o (now s) n) = true →
  (get_wikidata_id o (JStr n) s).1 = Next JNull ∧
  cache Names (get_wikidata_id o (JStr n) s).2 = cache Names s ∧
  cache_file Names (fs (get_wikidata_id o (JStr n) s).2) = cache_file Names (fs s) ∧
  output_file (fs (get_wikidata_id o (JStr n) s).2) = output_file (fs s) ∧
  EvSearch n ∈ log (fs (get_wikidata_id o (JStr n) s).2).
Proof.
  intros Hc Hm. rewrite get_wikidata_id_str, Hc. unfold no_match in Hm.
  destruct (search_hit _) as [[q|]|e]; try done; simpl; autorewrite with st;
    repeat split; try done; rewrite !elem_of_app, !list_elem_of_singleton; auto.
Qed.

(** The name of the record the loop body appends is that of the input
    record. *)
Lemma emitted_name (o : oracle) (qid : json) (info city city1 city2 : gmap string json)
    (r : option json) (s2 s3 s4 : state) :
  truthy qid = true →
  info = caught (enrich_city_body r qid) →
  country_enrichment o qid info (info ∪ city) s2 = (Next city1, s3) →
  state_enrichment o info city1 s3 = (Next city2, s4) →
  city2 !! "CityNameEn" = city !! "CityNameEn".
Proof.
  intros Hq -> Hco Hst.
  apply country_enrichment_next in Hco as (Hk1 & _); [|done].
  apply state_enrichment_next in Hst as (Hk2 & _).
  rewrite Hk2, Hk1 by done. apply lookup_union_r.
  apply caught_enrich_city_body. set_solver.
Qed.

Lemma still_unresolved_progress (n : string) (idx total : nat) (name : json)
    (s : state) :
  still_unresolved n s (note (EvProgress idx total name) s).
Proof.
  apply (still_unresolved_quiet n [EvProgress idx total name]);
    by autorewrite with st || no_append.
Qed.

Lemma never_emits_process_city (o : oracle) (n : string) (idx total : nat)
    (city : gmap string json) (s : state) :
  (∀ t, no_match (search o t n) = true) →
  never_emits n s (process_city o idx total city s).2.
Proof.
  intros Hn.
  pose proof (process_city_cases (still_unresolved n) o
                (still_unresolved_progress n)
                (λ key s0, still_unresolved_resolve o n key s0 Hn)
                (still_unresolved_enrich o n)
                (still_unresolved_parent o n) idx total city s) as Hc.
  assert (∀ s', still_unresolved n s s' → never_emits n s s') as Hweak.
  { intros s' [U (evs & L & A)] Hu. split; [auto|]. exists evs. split; [done|].
    intros r Hr. by apply A in Hr. }
  destruct (process_city o idx total city s) as [[[]| |e|] s'] eqn:Hp; simpl;
    try by apply Hweak.
  - destruct Hc as (name & qid & s1 & info & s2 & city1 & s3 & city2 & s4 & Hname
                    & Hres & Hq & Hen & Hinfo & Hco & Hst & -> & R1 & R2).
    intros Hu.
    assert (still_unresolved n s s4) as [U (evs & L & A)] by (by etrans).
    specialize (U Hu). split.
    { unfold unresolved. by autorewrite with st. }
    exists (evs ++ [EvAppend city2; EvSleep 1]). autorewrite with st.
    rewrite L, <- !app_assoc. split; [done|].
    intros r. rewrite elem_of_app. intros [Hr|Hr]; [by apply A in Hr|].
    apply elem_of_cons in Hr as [[= ->]|Hr];
      [|by apply list_elem_of_singleton in Hr].
    rewrite (emitted_name _ _ _ _ _ _ _ _ _ _ Hq Hinfo Hco Hst), Hname.
    intros [= ->].
    destruct (get_wikidata_id_no_match o n (note (EvProgress idx total (JStr n)) s))
      as (Hflow & _); [by destruct Hu | apply Hn |].
    rewrite Hres in Hflow. simpl in Hflow. injection Hflow as ->. done.
  - destruct Hc as (name & qid & _ & _ & _ & Hr). by apply Hweak.
Qed.

#[local] Instance retries_preorder (n : string) : PreOrder (retries n).
Proof.
  split.
  - intros s. exists []. split; [by rewrite app_nil_r | auto].
  - intros s1 s2 s3 (e1 & L1 & H1) (e2 & L2 & H2). exists (e1 ++ e2).
    split; [by rewrite L2, L1, app_assoc|].
    intros Hc. rewrite elem_of_app.
    destruct (H1 Hc) as [Hc2|?]; [|auto].
    destruct (H2 Hc2) as [?|?]; auto.
Qed.

Lemma retries_quiet (n : string) (evs : list event) (s s' : state) :
  log (fs s') = log (fs s) ++ evs →
  cache Names s' = cache Names s →
  retries n s s'.
Proof. intros Hlog Hc. exists evs. split; [done|]. rewrite Hc. auto. Qed.

Lemma get_wikidata_id_miss (o : oracle) (n : string) (s : state) :
  cache Names s !! n = None →
  ∃ evs, log (fs (get_wikidata_id o (JStr n) s).2) = log (fs s) ++ EvSearch n :: evs.
Proof.
  intros Hc. rewrite get_wikidata_id_str, Hc.
  destruct (search_hit _) as [[q|]|e]; simpl; autorewrite with st;
    rewrite <- ?app_assoc; by eexists.
Qed.

Lemma retries_resolve (o : oracle) (n key : string) (s : state) :
  retries n s (get_wikidata_id o (JStr key) s).2.
Proof.
  destruct (cache Names s !! key) as [q|] eqn:Hc.
  { rewrite get_wikidata_id_str, Hc. reflexivity. }
  destruct (get_wikidata_id_miss o key s Hc) as (evs & Hlog).
  exists (EvSearch key :: evs). split; [done|]. intros Hn.
  destruct (decide (key = n)) as [->|Hne]; [right; left|left].
  rewrite get_wikidata_id_str, Hc.
  destruct (search_hit _) as [[q|]|e]; simpl; autorewrite with st; try done.
  rewrite decide_True by done. by rewrite lookup_insert_ne.
Qed.

Lemma retries_enrich (o : oracle) (n : string) (qid : json) (s : state) :
  retries n s (enrich_city o qid s).2.
Proof.
  rewrite enrich_city_run. simpl. destruct (enrich_city_body _ _).
  - by apply (retries_quiet n [EvCity qid]).
  - apply (retries_quiet n [EvCity qid; EvError "Error enriching city"]); [|done].
    autorewrite with st. by rewrite <- app_assoc.
Qed.

Lemma retries_parent (o : oracle) (n : string) (lv : level) (key : string)
    (s : state) :
  retries n s (parent_record o lv (JStr key) s).2.
Proof.
  rewrite parent_record_str.
  destruct (cache (domain_of lv) s !! key) as [q|] eqn:Hc; [reflexivity|].
  rewrite get_entity_info_run. cbn [fst snd].
  assert (Names ≠ domain_of lv) as Hne by by destruct lv.
  destruct (entity_info_body _ _ _) as [info|e]; cbn [caught].
  - eapply retries_quiet.
    + autorewrite with st. rewrite <- !app_assoc. reflexivity.
    + autorewrite with st. by rewrite decide_False.
  - eapply retries_quiet.
    + autorewrite with st. rewrite <- !app_assoc. reflexivity.
    + autorewrite with st. by rewrite decide_False.
Qed.

Lemma retries_progress (n : string) (idx total : nat) (name : json) (s : state) :
  retries n s (note (EvProgress idx total name) s).
Proof. by apply (retries_quiet n [EvProgress idx total name]). Qed.

Lemma retries_emit (n : string) (record : gmap string json) (s : state) :
  retries n s (note (EvSleep 1) (appended record s)).
Proof.
  apply (retries_quiet n [EvAppend record; EvSleep 1]); autorewrite with st;
    [by rewrite <- app_assoc | done].
Qed.

Lemma retries_for_each (o : oracle) (n : string) (total idx : nat)
    (to_process : list (gmap string json)) (s : state) :
  retries n s (for_each o total idx to_process s).2.
Proof.
  apply preserves_for_each; try apply _.
  - apply retries_progress.
  - apply retries_resolve.
  - apply retries_enrich.
  - apply retries_parent.
  - apply retries_emit.
Qed.

(** A record whose name is not in the cache is searched when its turn
    comes. *)
Lemma process_city_searches (o : oracle) (n : string) (idx total : nat)
    (city : gmap string json) (s : state) :
  city !! "CityNameEn" = Some (JStr n) →
  cache Names s !! n = None →
  match (process_city o idx total city s).1 with
  | Next _ | Continue =>
      ∃ evs, log (fs (process_city o idx total city s).2) = log (fs s) ++ evs ∧
             EvSearch n ∈ evs
  | _ => True
  end.
Proof.
  intros Hname Hc.
  pose proof (process_city_cases (retries n) o (retries_progress n)
                (retries_resolve o n) (retries_enrich o n) (retries_parent o n)
                idx total city s) as Hcases.
  destruct (get_wikidata_id_miss o n (note (EvProgress idx total (JStr n)) s))
    as (e0 & L0); [by autorewrite with st|].
  autorewrite with st in L0. rewrite <- app_assoc in L0.
  destruct (process_city o idx total city s) as [[[]| |e|] s'] eqn:Hp; simpl; [| |done..].
  - destruct Hcases as (name & qid & s1 & info & s2 & city1 & s3 & city2 & s4
                        & Hname' & Hres & _ & _ & _ & _ & _ & -> & _ & (e2 & L2 & _)).
    rewrite Hname in Hname'. injection Hname' as <-.
    rewrite Hres in L0. simpl in L0.
    eexists. autorewrite with st. rewrite L2, L0, <- !app_assoc.
    split; [reflexivity|]. set_solver.
  - destruct Hcases as (name & qid & Hname' & Hres & _).
    rewrite Hname in Hname'. injection Hname' as <-.
    rewrite Hres in L0. simpl in L0.
    eexists. split; [exact L0|]. set_solver.
Qed.

Lemma searched_for_each (o : oracle) (n : string) (total : nat)
    (to_process : list (gmap string json)) (idx : nat) (s s' : state) :
  for_each o total idx to_process s = (Done, s') →
  (∃ city, city ∈ to_process ∧ city !! "CityNameEn" = Some (JStr n)) →
  cache Names s !! n = None →
  ∃ evs, log (fs s') = log (fs s) ++ evs ∧ EvSearch n ∈ evs.
Proof.
  revert idx s. induction to_process as [|c rest IH]; intros idx s Hrun Hin Hc.
  { destruct Hin as (city & Hin & _). by apply elem_of_nil in Hin. }
  simpl in Hrun.
  assert (∃ s1, (process_city o idx total c s).2 = s1 ∧
                for_each o total (S idx) rest s1 = (Done, s') ∧
                match (process_city o idx total c s).1 with
                | Next _ | Continue => True | _ => False end)
    as (s1 & Hs1 & Hrest & Hflow).
  { destruct (process_city o idx total c s) as [[[]| |e|] s1]; try done;
      by exists s1. }
  destruct (retries_for_each o n total (S idx) rest s1) as (e2 & L2 & _).
  rewrite Hrest in L2. simpl in L2.
  assert (retries n s s1) as (e1 & L1 & H1).
  { rewrite <- Hs1.
    apply (preserves_process_city (retries n) o (retries_progress n)
             (retries_resolve o n) (retries_enrich o n) (retries_parent o n)
             (retries_emit n)). }
  destruct Hin as (city & Hin & Hname).
  apply elem_of_cons in Hin as [->|Hin].
  - pose proof (process_city_searches o n idx total c s Hname Hc) as Hs.
    rewrite Hs1 in Hs.
    destruct ((process_city o idx total c s).1) as [[]| | |]; try done;
      destruct Hs as (e1' & L1' & Hin1); exists (e1' ++ e2);
      (split; [by rewrite L2, L1', app_assoc | set_solver]).
  - destruct (H1 Hc) as [Hc1|Hin1].
    + destruct (IH (S idx) s1 Hrest (ex_intro _ city (conj Hin Hname)) Hc1)
        as (e3 & L3 & Hin3).
      exists (e1 ++ e3). split; [by rewrite L3, L1, app_assoc | set_solver].
    + exists (e1 ++ e2). split; [by rewrite L2, L1, app_assoc | set_solver].
Qed.

(** What the processed set holds comes from a line of the ledger. *)
Lemma scan_ledger_mem (n : string) (lines : list line) (acc processed : list json) :
  scan_ledger lines acc = Ok processed →
  existsb (py_eqb (JStr n)) processed = true →
  existsb (py_eqb (JStr n)) acc = true ∨ ∃ l, l ∈ lines ∧ line_name l = Some n.
Proof.
  revert acc. induction lines as [|l lines IH]; intros acc Hscan Hin.
  - simpl in Hscan. injection Hscan as <-. auto.
  - destruct l as [|record]; simpl in Hscan.
    + destruct (IH _ Hscan Hin) as [?|(l & Hl & Hn)]; [auto|].
      right. exists l. split; [by right | done].
    + apply rbind_ok in Hscan as (name & Hname & Hscan).
      apply rbind_ok in Hscan as (acc' & Hadd & Hscan).
      destruct (IH _ Hscan Hin) as [Hacc|(l & Hl & Hn)].
      * unfold set_add, set_mem in Hadd.
        destruct (hashable name); [|done]. simpl in Hadd. injection Hadd as <-.
        destruct (existsb (py_eqb name) acc); [auto|].
        rewrite existsb_app in Hacc. apply orb_true_iff in Hacc as [?|Hn]; [auto|].
        right. exists (Parsed record). split; [left|].
        simpl in Hn. rewrite orb_false_r in Hn.
        destruct record as [| | | | |r]; try done. simpl in Hname.
        injection Hname as <-. simpl.
        destruct (r !! "CityNameEn") as [[| | |m| |]|]; try done.
        simpl in Hn. by apply String.eqb_eq in Hn as ->.
      * right. exists l. split; [by right | done].
Qed.

Lemma load_processed_lines (out : option (list line)) :
  load_processed_city_names out = scan_ledger (lines_of out) [].
Proof. by destruct out. Qed.

(** A record whose name is not in the processed set is kept. *)
Lemma select_keeps (n : string) (items processed : list json)
    (to_process : list (gmap string json)) (city : gmap string json) :
  select items processed = Ok to_process →
  JObj city ∈ items →
  city !! "CityNameEn" = Some (JStr n) →
  existsb (py_eqb (JStr n)) processed = false →
  city ∈ to_process.
Proof.
  revert to_process. induction items as [|c items IH]; intros tp Hsel Hin Hname Hmem.
  { by apply elem_of_nil in Hin. }
  simpl in Hsel.
  apply rbind_ok in Hsel as (name & Hn & Hsel).
  apply rbind_ok in Hsel as (seen & Hseen & Hsel).
  apply rbind_ok in Hsel as (others & Hothers & Hsel).
  apply elem_of_cons in Hin as [<-|Hin].
  - simpl in Hn. rewrite Hname in Hn. injection Hn as <-.
    unfold set_mem in Hseen. cbn [hashable] in Hseen. rewrite Hmem in Hseen.
    injection Hseen as <-. injection Hsel as <-. left.
  - specialize (IH _ Hothers Hin Hname Hmem).
    destruct c; try done. injection Hsel as <-.
    destruct seen; [done | by right].
Qed.

Lemma input_kept_for_each (o : oracle) (total idx : nat)
    (to_process : list (gmap string json)) (s : state) :
  input_file (fs (for_each o total idx to_process s).2) = input_file (fs s).
Proof.
  set (R := λ s s' : state, input_file (fs s') = input_file (fs s)).
  assert (PreOrder R) by (split; [done | intros ???; unfold R; congruence]).
  apply (preserves_for_each R); try done.
  - intros. apply background_resolve.
  - intros. apply background_enrich.
  - intros. apply background_parent.
Qed.

Lemma process_entries_input (o : oracle) (d : disk) :
  input_file (process_entries o d).2 = input_file d.
Proof.
  destruct (process_entries_run o d) as [[e H]|H].
  - by rewrite H.
  - destruct H as (cities & items & processed & to_process & qids & countries
                   & states & _ & _ & _ & _ & _ & _ & _ & H).
    simpl in H. rewrite H. simpl. by rewrite input_kept_for_each.
Qed.

(** A run in which resolving [n] always fails leaves [n] out of the cache
    of names and appends no record named [n]. *)
Lemma process_entries_never_emits (o : oracle) (d : disk) (n : string) :
  (∀ t, no_match (search o t n) = true) →
  store_get Names (stored d) !! n = None →
  store_get Names (stored (process_entries o d).2) !! n = None ∧
  ∃ evs, log (process_entries o d).2 = log d ++ evs ∧
         ∀ r, EvAppend r ∈ evs → r !! "CityNameEn" ≠ Some (JStr n).
Proof.
  intros Hn Hd.
  destruct (process_entries_run o d) as [[e H]|H].
  - rewrite H. split; [done|]. exists []. split; [by rewrite app_nil_r|].
    intros r Hr. by apply elem_of_nil in Hr.
  - destruct H as (cities & items & processed & to_process & qids & countries
                   & states & _ & Hq & _ & _ & _ & _ & _ & H).
    simpl in H. rewrite H. simpl. apply load_json_ok in Hq. subst qids.
    match goal with |- context [for_each o ?t 1 ?tp ?s0] =>
      destruct (for_each_steps (never_emits n) o t
                  (λ idx city s, never_emits_process_city o n idx t city s Hn)
                  1 tp s0) as [[_ Hfile] (evs & Hlog & Ha)] end.
    { split; exact Hd. }
    split; [exact Hfile|].
    exists (EvProcessing (length to_process) :: evs). rewrite Hlog. simpl.
    rewrite <- app_assoc. split; [done|].
    intros r Hr. apply elem_of_cons in Hr as [?|Hr]; [done | by apply Ha].
Qed.

(** C4. Resolver-miss retry eligibility.  Let resolving [n] fail whenever
    it is tried (no answer, an answer that cannot be read, or no match), and
    let the cache of names not have [n].  Then the resolver answers
    not-found without raising and changes neither the cache, its file nor
    the ledger; after the run the cache file still lacks [n] and no record
    named [n] was appended; and a later run on what this one left, whatever
    its oracle, searches for [n] again if it gets through, provided the
    input has a record named [n] that the ledger did not have. *)
Theorem C4_resolver_miss_retry (o : oracle) (d : disk) (n : string) :
  (∀ t, no_match (search o t n) = true) →
  store_get Names (stored d) !! n = None →
  (∀ s, cache Names s !! n = None →
        (get_wikidata_id o (JStr n) s).1 = Next JNull ∧
        cache Names (get_wikidata_id o (JStr n) s).2 = cache Names s ∧
        cache_file Names (fs (get_wikidata_id o (JStr n) s).2)
          = cache_file Names (fs s) ∧
        output_file (fs (get_wikidata_id o (JStr n) s).2) = output_file (fs s)) ∧
  store_get Names (stored (process_entries o d).2) !! n = None ∧
  (∃ evs, extends d (process_entries o d).2 evs ∧
          ∀ r, EvAppend r ∈ evs → r !! "CityNameEn" ≠ Some (JStr n)) ∧
  (∀ cities city o2 d2,
     input_file d = Stored (JArr cities) →
     JObj city ∈ cities →
     city !! "CityNameEn" = Some (JStr n) →
     (∀ l, l ∈ lines_of (output_file d) → line_name l ≠ Some n) →
     process_entries o2 (process_entries o d).2 = (Done, d2) →
     ∃ evs2, extends (process_entries o d).2 d2 evs2 ∧ EvSearch n ∈ evs2).
Proof.
  intros Hn Hd.
  destruct (process_entries_never_emits o d n Hn Hd) as (Hfile & evs & Hlog & Hno).
  split; [|split; [exact Hfile|split; [by exists evs|]]].
  { intros s Hc.
    destruct (get_wikidata_id_no_match o n s Hc (Hn _)) as (?&?&?&?&_). done. }
  intros cities city o2 d2 Hinput Hin Hname Hledger Hrun2.
  set (d1 := (process_entries o d).2) in *.
  destruct (process_entries_run o2 d1) as [[e H]|H]; [congruence|].
  destruct H as (cities' & items & processed & to_process & qids & countries
                 & states & Hload & Hq & _ & _ & Hproc & Hiter & Hsel & H).
  simpl in H. rewrite Hrun2 in H. injection H as Hflow Hd2.
  (* the input is the one of the first run *)
  unfold d1 in Hload. rewrite process_entries_input, Hinput in Hload.
  injection Hload as <-. simpl in Hiter. injection Hiter as <-.
  (* the name is not in the processed set *)
  assert (existsb (py_eqb (JStr n)) processed = false) as Hmem.
  { destruct (existsb (py_eqb (JStr n)) processed) eqn:Hex; [|done]. exfalso.
    rewrite load_processed_lines in Hproc.
    destruct (scan_ledger_mem n _ _ _ Hproc Hex) as [?|(l & Hl & Hline)]; [done|].
    destruct (process_entries_paced o d) as (evs' & Hlog' & _ & Hlines).
    fold d1 in Hlog', Hlines. rewrite Hlog in Hlog'.
    apply app_inv_head in Hlog' as <-.
    rewrite Hlines in Hl. apply elem_of_app in Hl as [Hl|Hl].
    - by apply (Hledger l).
    - apply list_elem_of_omap in Hl as (ev & Hev & Happ).
      destruct ev; try done. simpl in Happ. injection Happ as <-.
      apply (Hno _ Hev). simpl in Hline.
      by destruct (record !! "CityNameEn") as [[| | |m| |]|]; simplify_eq. }
  pose proof (select_keeps n _ _ _ _ Hsel Hin Hname Hmem) as Hkeep.
  apply load_json_ok in Hq. symmetry in Hflow.
  match type of Hflow with (for_each o2 ?t 1 ?tp ?s0).1 = Done =>
    destruct (searched_for_each o2 n t tp 1 s0 (for_each o2 t 1 tp s0).2)
      as (evs2 & Hlog2 & Hs2) end.
  - rewrite <- Hflow. by destruct (for_each _ _ _ _ _).
  - by exists city.
  - change (qids !! n = None). by rewrite Hq.
  - exists (EvProcessing (length to_process) :: evs2). unfold extends.
    rewrite Hd2, Hlog2. simpl. rewrite <- app_assoc. split; [done|]. by right.
Qed.

(** Nobody knows Nowhere: after a run its name is in no cache, and the next
    run searches for it again. *)
Lemma C4_witness :
  store_get Names (stored (process_entries demo_oracle nowhere_disk).2)
    !! "Nowhere" = None ∧
  ∃ evs2,
    extends (process_entries demo_oracle nowhere_disk).2
      (process_entries demo_oracle (process_entries demo_oracle nowhere_disk).2).2
      evs2 ∧
    EvSearch "Nowhere" ∈ evs2.
Proof.
  destruct (C4_resolver_miss_retry demo_oracle nowhere_disk "Nowhere")
    as (_ & Hfile & _ & Hretry); [intros t; reflexivity | reflexivity |].
  split; [exact Hfile|].
  apply (Hretry [obj [("CityNameEn", JStr "Nowhere")]]
           (list_to_map [("CityNameEn", JStr "Nowhere")]) demo_oracle
           (process_entries demo_oracle
              (process_entries demo_oracle nowhere_disk).2).2).
  - reflexivity.
  - left.
  - reflexivity.
  - intros l Hl. by apply elem_of_nil in Hl.
  - vm_compute. reflexivity.
Defined.

(** *** Runs that end well *)

Lemma key_like_truthy (v : json) :
  key_like v = true → truthy v = true → ∃ k, v = JStr k.
Proof.
  destruct v; cbn [key_like]; intros H1 H2;
    try (rewrite H2 in H1; discriminate). by eexists.
Qed.

(** The parent's record is found or fetched; what is fetched is an object. *)
Lemma parent_record_ok (o : oracle) (lv : level) (key : string) (s : state) :
  ∃ record,
    parent_record o lv (JStr key) s = (Next record, (parent_record o lv (JStr key) s).2) ∧
    (cache (domain_of lv) s !! key = Some record ∨ is_dict record = true) ∧
    (∀ dm, records (cache dm s) → records (cache dm (parent_record o lv (JStr key) s).2)).
Proof.
  rewrite parent_record_str.
  destruct (cache (domain_of lv) s !! key) as [record|] eqn:Hc.
  - exists record. repeat split; auto.
  - eexists. split; [done|]. split; [by right|].
    intros dm Hrec. rewrite get_entity_info_run. cbn [fst snd].
    autorewrite with st. case_decide as Hd.
    + subst dm. intros k v. rewrite lookup_insert. case_decide.
      * by intros [= <-].
      * destruct (entity_info_body _ _ _); autorewrite with st; apply Hrec.
    + destruct (entity_info_body _ _ _); by autorewrite with st.
Qed.

(** On well-formed data the loop body emits the record or skips it. *)
Lemma process_city_ends_well (o : oracle) (idx total : nat)
    (city : gmap string json) (s : state) :
  well_typed o →
  named (JObj city) →
  records (cache Countries s) →
  ((process_city o idx total city s).1 = Next () ∨
   (process_city o idx total city s).1 = Continue) ∧
  records (cache Countries (process_city o idx total city s).2).
Proof.
  intros Ho (city' & n & [= <-] & Hname) Hrec.
  unfold process_city, bind. simpl. rewrite Hname. simpl. unfold emit.
  rewrite get_wikidata_id_str.
  set (s0 := note (EvProgress idx total (JStr n)) s).
  assert (∃ qid s1, (match cache Names s0 !! n with
                     | Some qid => (Next qid, s0)
                     | None => match search_hit (search o (now s0) n) with
                               | Ok (Some qid) =>
                                   (Next qid, saved Names (put Names n qid (note (EvSearch n) s0)))
                               | Ok None => (Next JNull, note (EvSearch n) s0)
                               | Raise _ =>
                                   (Next JNull, note (EvError "Error finding QID")
                                                  (note (EvSearch n) s0))
                               end
                     end) = (Next qid, s1) ∧ records (cache Countries s1))
    as (qid & s1 & -> & Hrec1).
  { destruct (cache Names s0 !! n) as [q|]; [by exists q, s0|].
    destruct (search_hit _) as [[q|]|e]; eexists _, _; (split; [done|]);
      autorewrite with st; try done; try (by rewrite decide_False). }
  destruct (truthy qid) eqn:Hq; simpl; [|auto].
  rewrite enrich_city_run. cbn [fst snd].
  set (info := caught _).
  set (s2 := match enrich_city_body _ _ with Ok _ => _ | Raise _ => _ end).
  assert (records (cache Countries s2)) as Hrec2.
  { unfold s2. destruct (enrich_city_body _ _); by autorewrite with st. }
  destruct (Ho (now s1) qid) as [Hck Hsk]. fold info in Hck, Hsk.
  (* the country *)
  assert (∃ city1 s3, country_enrichment o qid info (info ∪ city) s2 = (Next city1, s3) ∧
                      records (cache Countries s3)) as (city1 & s3 & -> & Hrec3).
  { unfold country_enrichment, bind.
    destruct (truthy (field info "CountryQID")) eqn:Hc; [|by eexists _, _].
    destruct (key_like_truthy _ Hck Hc) as [key ->].
    destruct (parent_record_ok o Country key s2) as (record & -> & Hfrom & Hkeep).
    specialize (Hkeep Countries Hrec2).
    assert (is_dict record = true) as Hd.
    { destruct Hfrom as [Hfrom|?]; [|done]. by apply (Hrec2 key). }
    destruct record; try done. simpl. by eexists _, _. }
  (* the state *)
  assert (∃ city2 s4, state_enrichment o info city1 s3 = (Next city2, s4) ∧
                      records (cache Countries s4)) as (city2 & s4 & -> & Hrec4).
  { unfold state_enrichment, bind.
    destruct (truthy (field info "StateQID")) eqn:Hc; [|by eexists _, _].
    destruct (key_like_truthy _ Hsk Hc) as [key ->].
    destruct (parent_record_ok o State key s3) as (record & -> & _ & Hkeep).
    specialize (Hkeep Countries Hrec3). by eexists _, _. }
  simpl. split; [by left|]. by autorewrite with st.
Qed.

Lemma for_each_ends_well (o : oracle) (total : nat)
    (to_process : list (gmap string json)) (idx : nat) (s : state) :
  well_typed o →
  Forall (λ city, named (JObj city)) to_process →
  records (cache Countries s) →
  (for_each o total idx to_process s).1 = Done.
Proof.
  intros Ho Hall. revert idx s.
  induction Hall as [|city rest Hcity _ IH]; intros idx s Hrec; [done|].
  simpl.
  destruct (process_city_ends_well o idx total city s Ho Hcity Hrec) as [Hflow Hrec'].
  destruct (process_city o idx total city s) as [[[]| |e|] s'];
    simpl in *; try (by destruct Hflow); by apply IH.
Qed.

Lemma scan_ledger_ends_well (lines : list line) (acc : list json) :
  Forall ledger_line lines → ∃ processed, scan_ledger lines acc = Ok processed.
Proof.
  intros Hall. revert acc. induction Hall as [|l lines Hl _ IH]; intros acc.
  - by eexists.
  - destruct l as [|[| | | | |r]]; try done; simpl; [apply IH|].
    unfold set_add, set_mem. fold (field r "CityNameEn").
    simpl in Hl. rewrite Hl. simpl. apply IH.
Qed.

Lemma select_ends_well (cities processed : list json) :
  Forall named cities →
  ∃ to_process,
    select cities processed = Ok to_process ∧
    Forall (λ city, named (JObj city)) to_process.
Proof.
  induction 1 as [|c cities (city & n & -> & Hname) _ (tp & IH & Hall)].
  - by exists [].
  - simpl. rewrite Hname, IH. simpl.
    destruct (existsb _ processed); eexists; split; try done.
    constructor; [|done]. by exists city, n.
Qed.

(** C6, as the code has it.  An absent cache file is an empty cache.  A
    missing or unparseable input file ends the process at startup with
    nothing done, and so does a cache file that is there and does not
    parse.  And the run ends normally, whatever requests fail and whatever
    the documents lack, when the data directory is well formed and the
    documents are well typed: the input file holds a list of objects that
    each have a string [CityNameEn]; every line of the ledger is unparseable
    or an object whose [CityNameEn], if any, can be hashed; each cache file
    is absent or holds an object; every record in the cache file of
    countries is an object ([well_formed]); and the identifiers of the
    country and of the state read from the document of a city are strings
    or false values ([well_typed]). *)
Theorem C6_termination_only_at_startup (o : oracle) (d : disk) :
  load_json Absent = Ok ∅ ∧
  (input_file d = Absent → process_entries o d = (Crashed FileNotFoundError, d)) ∧
  (input_file d = Corrupt → process_entries o d = (Crashed JSONDecodeError, d)) ∧
  (∀ v, input_file d = Stored v →
        qid_file d = Corrupt ∨ countries_file d = Corrupt ∨ states_file d = Corrupt →
        process_entries o d = (Crashed JSONDecodeError, d)) ∧
  (well_formed d → well_typed o → (process_entries o d).1 = Done).
Proof.
  split; [done|]. split; [|split; [|split]].
  - intros H. unfold process_entries. by rewrite H.
  - intros H. unfold process_entries. by rewrite H.
  - intros v H Hc. unfold process_entries. rewrite H. cbn [load_input rbind].
    destruct (qid_file d) as [| |qids]; [|done|];
      (destruct (countries_file d) as [| |countries]; [|done|]);
      (destruct (states_file d) as [| |states]; [|done|]);
      by destruct Hc as [?|[?|?]].
  - intros ((cities & Hinput & Hnamed) & Hlines & Hq & Hc & Hs & Hrec) Ho.
    destruct (scan_ledger_ends_well _ [] Hlines) as (processed & Hscan).
    destruct (select_ends_well cities processed Hnamed) as (tp & Hsel & Hall).
    unfold process_entries. rewrite Hinput, load_processed_lines, Hscan.
    destruct (qid_file d) as [| |qids] eqn:Eq; [|done|];
      destruct (countries_file d) as [| |countries] eqn:Ec; try done;
      destruct (states_file d) as [| |states] eqn:Es; try done;
      simpl; rewrite Hsel; simpl;
      match goal with |- context [for_each o ?t 1 ?tp ?s0] =>
        pose proof (for_each_ends_well o t tp 1 s0 Ho Hall) as Hdone;
        destruct (for_each o t 1 tp s0) as [r s'] end;
      simpl in *; apply Hdone; try done; intros k v; by rewrite lookup_empty.
Qed.

(** Testville is resolved but no document can be fetched: the run ends
    normally all the same. *)
Lemma C6_witness : (process_entries offline_oracle demo_disk).1 = Done.
Proof.
  apply (C6_termination_only_at_startup offline_oracle demo_disk).
  - split; [|split; [|split; [|split; [|split]]]]; try done.
    eexists. split; [reflexivity|].
    constructor; [|constructor].
    exists (list_to_map [("CityNameEn", JStr "Testville")]), "Testville".
    split; reflexivity.
  - intros t qid. split; reflexivity.
Defined.

(** C6, as it is stated, fails: a cache file that exists and does not parse
    ends the process at startup.  And each of the other conditions on the
    data is needed, the run of the scenario ends with an exception when
    one fails: a record of the cache of countries that is no object
    ([AttributeError], line 166), a line of the ledger that parses to a
    value that is no object ([AttributeError], line 39) or to a record whose
    name cannot be hashed ([TypeError], line 39), an input record without
    [CityNameEn] ([KeyError], line 142), and a document whose identifier of
    the country is a list ([TypeError], line 159). *)
Lemma C6_counterexample :
  process_entries demo_oracle corrupt_disk = (Crashed JSONDecodeError, corrupt_disk) ∧
  (process_entries demo_oracle stale_disk).1 = Crashed AttributeError ∧
  process_entries demo_oracle odd_ledger_disk = (Crashed AttributeError, odd_ledger_disk) ∧
  process_entries demo_oracle listed_disk = (Crashed TypeError, listed_disk) ∧
  process_entries demo_oracle nameless_disk = (Crashed KeyError, nameless_disk) ∧
  (process_entries odd_oracle odd_disk).1 = Crashed TypeError.
Proof. repeat split; vm_compute; reflexivity. Qed.

(** *** Running twice *)

#[local] Instance agree_equivalence (o : oracle) : Equivalence (agree o).
Proof.
  split.
  - by intros s.
  - intros s1 s2 [A P]. split; [intros n; by rewrite A | intros lv k; by rewrite P].
  - intros s1 s2 s3 [A1 P1] [A2 P2]. split.
    + intros n. by rewrite A2, A1.
    + intros lv k. by rewrite P2, P1.
Qed.

#[local] Instance steady_preorder (o : oracle) : PreOrder (steady o).
Proof.
  split.
  - by intros s.
  - intros s1 s2 s3 (A1 & S1 & C1 & I1) (A2 & S2 & C2 & I2).
    split; [|split; [|split]]; [by etrans | auto | auto | congruence].
Qed.

#[local] Instance calm_preorder (o : oracle) : PreOrder (calm o).
Proof.
  split.
  - by intros s.
  - intros s1 s2 s3 [A1 B1] [A2 B2]. split; by etrans.
Qed.

(** The answers depend on the caches only. *)
Lemma agree_memory (o : oracle) (s s' : state) :
  memory s' = memory s → agree o s s'.
Proof.
  intros Hm.
  assert (∀ dm, cache dm s' = cache dm s) as Hc
    by (intros dm; by rewrite <- !store_get_memory, Hm).
  split; [intros n | intros lv k]; by rewrite Hc.
Qed.

Lemma steady_quiet (o : oracle) (s s' : state) :
  memory s' = memory s →
  fs s' = with_log (λ _, log (fs s')) (fs s) →
  steady o s s'.
Proof.
  intros Hm Hf. split; [by apply agree_memory|]. split; [|split].
  - intros Hs. by rewrite Hm, <- Hs, Hf.
  - intros dm. rewrite Hf. by destruct dm.
  - by rewrite Hf.
Qed.

(** With a fixed oracle the resolver gives the answer, whenever asked. *)
Lemma get_wikidata_id_answer (o : oracle) (n : string) (s : state) :
  fixed o →
  (get_wikidata_id o (JStr n) s).1 = Next (answer o (cache Names s) n).
Proof.
  intros [Hfix _]. rewrite get_wikidata_id_str. unfold answer.
  destruct (cache Names s !! n); [done|].
  rewrite (Hfix (now s) 0 n). by destruct (search_hit _) as [[q|]|e].
Qed.

(** And the orchestrator finds the parent's answer. *)
Lemma parent_record_answer (o : oracle) (lv : level) (key : string) (s : state) :
  fixed o →
  (parent_record o lv (JStr key) s).1 =
    Next (parent_answer o lv (cache (domain_of lv) s) key).
Proof.
  intros [_ Hfix]. rewrite parent_record_str. unfold parent_answer.
  destruct (cache (domain_of lv) s !! key); [done|].
  cbv zeta. cbn [fst]. by rewrite (Hfix (now s) 0 (JStr key)).
Qed.

Lemma steady_resolve (o : oracle) (key : string) (s : state) :
  fixed o → steady o s (get_wikidata_id o (JStr key) s).2.
Proof.
  intros [Hfix _]. rewrite get_wikidata_id_str.
  destruct (cache Names s !! key) as [q|] eqn:Hc; [reflexivity|].
  destruct (search_hit (search o (now s) key)) as [[q|]|e] eqn:Hs; simpl;
    try by apply steady_quiet.
  split; [split|split; [|split]].
  - intros n. autorewrite with st. rewrite decide_True by done.
    unfold answer. rewrite lookup_insert. case_decide as Hn; [|done].
    subst n. rewrite Hc. by rewrite <- (Hfix (now s) 0 key), Hs.
  - intros lv k. autorewrite with st. rewrite decide_False; [done|by destruct lv].
  - intros Hsync. autorewrite with st. rewrite decide_True by done.
    by rewrite Hsync.
  - intros dm Hd. autorewrite with st. by case_decide.
  - by autorewrite with st.
Qed.

Lemma steady_enrich (o : oracle) (qid : json) (s : state) :
  steady o s (enrich_city o qid s).2.
Proof.
  rewrite enrich_city_run. simpl.
  destruct (enrich_city_body _ _); by apply steady_quiet.
Qed.

Lemma steady_parent (o : oracle) (lv : level) (key : string) (s : state) :
  fixed o → steady o s (parent_record o lv (JStr key) s).2.
Proof.
  intros [_ Hfix]. rewrite parent_record_str.
  destruct (cache (domain_of lv) s !! key) as [q|] eqn:Hc; [reflexivity|].
  rewrite get_entity_info_run. cbn [fst snd].
  assert (Names ≠ domain_of lv) as Hne by by destruct lv.
  set (record := JObj _).
  set (s1 := match entity_info_body _ _ _ with Ok _ => _ | Raise _ => _ end).
  assert (memory s1 = memory s ∧ stored (fs s1) = stored (fs s) ∧
          (∀ dm, cache_file dm (fs s1) = cache_file dm (fs s)) ∧
          input_file (fs s1) = input_file (fs s)) as (Hm & Hst & Hcf & Hin).
  { unfold s1. destruct (entity_info_body _ _ _); repeat split; try done;
      intros dm; by autorewrite with st. }
  assert (∀ dm, cache dm s1 = cache dm s) as Hc1
    by (intros dm; by rewrite <- !store_get_memory, Hm).
  split; [split|split; [|split]].
  - intros n. autorewrite with st. by rewrite decide_False, Hc1.
  - intros lv' k. autorewrite with st. rewrite !Hc1.
    case_decide as Hlv; [|done].
    assert (lv' = lv) as -> by (by destruct lv', lv).
    unfold parent_answer. rewrite lookup_insert. case_decide as Hk; [|done].
    subst k. rewrite Hc. unfold record. by rewrite (Hfix (now s) 0 (JStr key)).
  - intros Hsync. autorewrite with st. rewrite decide_True by done.
    by rewrite Hst, Hm, Hc1, Hsync.
  - intros dm Hd. autorewrite with st. case_decide; [done|]. by rewrite Hcf.
  - by autorewrite with st.
Qed.

Lemma steady_progress (o : oracle) (idx total : nat) (name : json) (s : state) :
  steady o s (note (EvProgress idx total name) s).
Proof. by apply steady_quiet. Qed.

Lemma steady_emit (o : oracle) (record : gmap string json) (s : state) :
  steady o s (note (EvSleep 1) (appended record s)).
Proof.
  split; [by apply agree_memory|].
  split; [|split]; try done; intros; by autorewrite with st.
Qed.

(** Every step of the loop body is steady. *)
Lemma steady_process_city (o : oracle) (idx total : nat)
    (city : gmap string json) :
  fixed o → preserves (steady o) (process_city o idx total city).
Proof.
  intros Hfix. apply preserves_process_city; try apply _.
  - apply steady_progress.
  - intros key s. by apply steady_resolve.
  - apply steady_enrich.
  - intros lv key s. by apply steady_parent.
  - apply steady_emit.
Qed.

(** **** Passes that go the same way *)

Lemma alike_bind {A A' B B' : Type} (o : oracle) (P : A → A' → Prop)
    (Q : B → B' → Prop) (m : M A) (m' : M A') (k : A → M B) (k' : A' → M B') :
  alike o P m m' →
  preserves (agree o) m → preserves (agree o) m' →
  (∀ a a', P a a' → alike o Q (k a) (k' a')) →
  alike o Q (bind m k) (bind m' k').
Proof.
  intros Hm Hp Hp' Hk s s' Hs. unfold bind.
  specialize (Hm s s' Hs). specialize (Hp s). specialize (Hp' s').
  destruct (m s) as [[a| |e|] s1], (m' s') as [[a'| |e'|] s1']; simpl in *;
    try done.
  apply Hk; [done|]. etrans; [symmetry; exact Hp|]. by etrans.
Qed.

Lemma alike_ret {A B : Type} (o : oracle) (P : A → B → Prop) (a : A) (b : B) :
  P a b → alike o P (ret a) (ret b).
Proof. by intros H s s' _. Qed.

Lemma alike_uncaught {A : Type} (o : oracle) (r : result A) :
  alike o eq (uncaught r) (uncaught r).
Proof. intros s s' _. by destruct r. Qed.

Lemma alike_get_wikidata_id (o : oracle) (name : json) :
  fixed o → alike o eq (get_wikidata_id o name) (get_wikidata_id o name).
Proof.
  intros Hfix s s' [Ha _].
  destruct name as [| | |n| |]; try done.
  rewrite !get_wikidata_id_answer by done. simpl. by rewrite Ha.
Qed.

Lemma alike_enrich_city (o : oracle) (qid : json) :
  fixed o → alike o eq (enrich_city o qid) (enrich_city o qid).
Proof.
  intros [_ Hfix] s s' _. rewrite !enrich_city_run. simpl.
  by rewrite (Hfix (now s) (now s') qid).
Qed.

Lemma alike_parent_record (o : oracle) (lv : level) (pqid : json) :
  fixed o → alike o eq (parent_record o lv pqid) (parent_record o lv pqid).
Proof.
  intros Hfix s s' [_ Hp].
  destruct pqid as [| | |key| |]; try done.
  rewrite !parent_record_answer by done. simpl. by rewrite Hp.
Qed.

Lemma agree_steady (o : oracle) (s s' : state) : steady o s s' → agree o s s'.
Proof. by intros [H _]. Qed.

Lemma agree_parent_record (o : oracle) (lv : level) (pqid : json) :
  fixed o → preserves (agree o) (parent_record o lv pqid).
Proof.
  intros Hfix s. apply agree_steady.
  destruct pqid as [| | |key| |];
    try (rewrite parent_record_other by done; reflexivity).
  by apply steady_parent.
Qed.

Lemma agree_get_wikidata_id (o : oracle) (name : json) :
  fixed o → preserves (agree o) (get_wikidata_id o name).
Proof.
  intros Hfix s. apply agree_steady.
  destruct name as [| | |key| |];
    try (rewrite get_wikidata_id_other by done; reflexivity).
  by apply steady_resolve.
Qed.

Lemma alike_country_enrichment (o : oracle) (qid : json)
    (info city city' : gmap string json) :
  fixed o →
  alike o (λ _ _, True) (country_enrichment o qid info city)
    (country_enrichment o qid info city').
Proof.
  intros Hfix. unfold country_enrichment.
  destruct (truthy _); [|by apply alike_ret].
  eapply alike_bind;
    [by apply alike_parent_record | by apply agree_parent_record
     | by apply agree_parent_record |].
  intros record ? <-.
  eapply alike_bind;
    [apply alike_uncaught | apply preserves_uncaught; apply _
     | apply preserves_uncaught; apply _ |].
  intros capital ? <-. by apply alike_ret.
Qed.

Lemma agree_country_enrichment (o : oracle) (qid : json)
    (info city : gmap string json) :
  fixed o → preserves (agree o) (country_enrichment o qid info city).
Proof.
  intros Hfix. apply preserves_country_enrichment; [apply _|].
  intros lv key s. apply agree_steady. by apply steady_parent.
Qed.

Lemma alike_state_enrichment (o : oracle) (info city city' : gmap string json) :
  fixed o →
  alike o (λ _ _, True) (state_enrichment o info city)
    (state_enrichment o info city').
Proof.
  intros Hfix. unfold state_enrichment.
  destruct (truthy _); [|by apply alike_ret].
  eapply alike_bind;
    [by apply alike_parent_record | by apply agree_parent_record
     | by apply agree_parent_record |].
  intros record ? <-. by apply alike_ret.
Qed.

Lemma agree_note (o : oracle) (e : event) : preserves (agree o) (emit e).
Proof. intros s. by apply agree_memory. Qed.

Lemma agree_enrich_city (o : oracle) (qid : json) :
  preserves (agree o) (enrich_city o qid).
Proof. intros s. apply agree_steady, steady_enrich. Qed.

(** With a fixed oracle, how a record goes through the loop body depends
    on its name and on the answers only. *)
Lemma alike_process_city (o : oracle) (idx total idx' total' : nat)
    (city city' : gmap string json) :
  fixed o →
  city !! "CityNameEn" = city' !! "CityNameEn" →
  alike o (λ _ _, True) (process_city o idx total city)
    (process_city o idx' total' city').
Proof.
  intros Hfix Hname. unfold process_city. cbn [py_item]. rewrite Hname.
  eapply alike_bind;
    [apply alike_uncaught | apply preserves_uncaught; apply _
     | apply preserves_uncaught; apply _ |].
  intros name ? <-.
  eapply (alike_bind o (λ _ _, True));
    [by intros s s' _ | apply agree_note | apply agree_note |].
  intros _ _ _.
  eapply alike_bind;
    [by apply alike_get_wikidata_id | by apply agree_get_wikidata_id
     | by apply agree_get_wikidata_id |].
  intros qid ? <-.
  destruct (negb (truthy qid)); [by intros s s' _|].
  eapply alike_bind;
    [by apply alike_enrich_city | apply agree_enrich_city
     | apply agree_enrich_city |].
  intros info ? <-.
  eapply alike_bind;
    [by apply alike_country_enrichment | by apply agree_country_enrichment
     | by apply agree_country_enrichment |].
  intros city1 city1' _.
  eapply alike_bind;
    [by apply alike_state_enrichment | | |].
  - apply preserves_state_enrichment; [apply _|].
    intros lv key s. apply agree_steady. by apply steady_parent.
  - apply preserves_state_enrichment; [apply _|].
    intros lv key s. apply agree_steady. by apply steady_parent.
  - intros city2 city2' _. by intros s s' _.
Qed.

Lemma get_wikidata_id_next (o : oracle) (name qid : json) (s s' : state) :
  get_wikidata_id o name s = (Next qid, s') → ∃ n, name = JStr n.
Proof. destruct name; try done. by eexists. Qed.

(** What one pass through the loop body leaves, with a fixed oracle: a
    record emitted under the name of the input record, or a calm step. *)
Lemma process_city_fixed (o : oracle) (idx total : nat)
    (city : gmap string json) (s : state) :
  fixed o →
  match process_city o idx total city s with
  | (Next _, s') =>
      ∃ n record,
        city !! "CityNameEn" = Some (JStr n) ∧
        steady o s s' ∧
        output_file (fs s') =
          Some (lines_of (output_file (fs s)) ++ [Parsed (JObj record)]) ∧
        record !! "CityNameEn" = Some (JStr n)
  | (_, s') => calm o s s'
  end.
Proof.
  intros Hfix.
  pose proof (process_city_cases (calm o) o
                (λ i t nm s0, conj (steady_progress o i t nm s0) (background_note _ s0))
                (λ key s0, conj (steady_resolve o key s0 Hfix) (background_resolve o key s0))
                (λ qid s0, conj (steady_enrich o qid s0) (background_enrich o qid s0))
                (λ lv key s0, conj (steady_parent o lv key s0 Hfix) (background_parent o lv key s0))
                idx total city s) as Hc.
  destruct (process_city o idx total city s) as [[[]| |e|] s'] eqn:Hp;
    [| |done..].
  - destruct Hc as (name & qid & s1 & info & s2 & city1 & s3 & city2 & s4 & Hname
                    & Hres & Hq & Hen & Hinfo & Hco & Hst & -> & R1 & R2).
    destruct (get_wikidata_id_next _ _ _ _ _ Hres) as [n ->].
    assert (calm o s s4) as [Hsteady [Hout _]] by (by etrans).
    exists n, city2. split; [done|]. split; [|split].
    + etrans; [exact Hsteady | apply steady_emit].
    + autorewrite with st. by rewrite Hout.
    + by rewrite (emitted_name _ _ _ _ _ _ _ _ _ _ Hq Hinfo Hco Hst).
  - by destruct Hc as (name & qid & _ & _ & _ & Hcalm).
Qed.

Lemma py_eqb_str_r (x : json) (n : string) :
  py_eqb x (JStr n) = true → x = JStr n.
Proof.
  destruct x; try done. intros H. f_equal. by apply py_eqb_str.
Qed.

Lemma emitted_before_name (names : list string) (city : gmap string json) :
  emitted_before names city = true ↔
  ∃ n, city !! "CityNameEn" = Some (JStr n) ∧ n ∈ names.
Proof.
  unfold emitted_before, field. split.
  - intros H. apply existsb_exists in H as (y & Hy & Heq).
    apply list_elem_of_In, list_elem_of_fmap in Hy as (n & -> & Hn).
    apply py_eqb_str_r in Heq. exists n. split; [|done].
    by destruct (city !! "CityNameEn") as [v|]; simpl in Heq; subst.
  - intros (n & Hname & Hn). rewrite Hname. cbn [from_option id].
    rewrite existsb_py_eqb_str. by apply bool_decide_eq_true.
Qed.

Lemma emittable_agree (o : oracle) (s s' : state) (n : string) :
  agree o s s' → emittable o s' n → emittable o s n.
Proof.
  intros Hs He t city idx total Ht. apply He. etrans; [symmetry; exact Hs | exact Ht].
Qed.

(** A first run: the ledger grows by records whose names are emittable. *)
Lemma for_each_emits (o : oracle) (total : nat)
    (to_process : list (gmap string json)) (idx : nat) (s : state) :
  fixed o →
  steady o s (for_each o total idx to_process s).2 ∧
  ∃ new,
    lines_of (output_file (fs (for_each o total idx to_process s).2)) =
      lines_of (output_file (fs s)) ++ new ∧
    Forall (λ l, ∃ n, line_name l = Some n ∧ emittable o s n) new.
Proof.
  intros Hfix. revert idx s.
  induction to_process as [|c rest IH]; intros idx s.
  { split; [reflexivity|]. exists []. by rewrite app_nil_r. }
  simpl. pose proof (process_city_fixed o idx total c s Hfix) as Hstep.
  pose proof (alike_process_city o idx total) as Hlike.
  destruct (process_city o idx total c s) as [[[]| |e|] s1] eqn:Hrun.
  - destruct Hstep as (n & record & Hname & Hsteady & Hout & Hrec).
    destruct (IH (S idx) s1) as (Hsteady' & new & Hlines & Hall).
    split; [by etrans|].
    exists (Parsed (JObj record) :: new).
    rewrite Hlines, Hout. simpl. rewrite <- app_assoc.
    split; [done|]. constructor.
    + exists n. split; [simpl; by rewrite Hrec|].
      intros t city idx' total' Ht Hcity.
      specialize (Hlike idx' total' c city Hfix (eq_trans Hname (eq_sym Hcity)) s t Ht).
      rewrite Hrun in Hlike. simpl in Hlike.
      by destruct (process_city o idx' total' city t) as [[[]| | |] ?].
    + eapply Forall_impl; [exact Hall|]. intros l (m & Hm & He).
      exists m. split; [done|]. eapply emittable_agree; [|exact He].
      by apply agree_steady.
  - destruct Hstep as [Hsteady [Hout _]].
    destruct (IH (S idx) s1) as (Hsteady' & new & Hlines & Hall).
    split; [by etrans|]. exists new. rewrite Hlines, Hout. split; [done|].
    eapply Forall_impl; [exact Hall|]. intros l (m & Hm & He).
    exists m. split; [done|]. eapply emittable_agree; [|exact He].
    by apply agree_steady.
  - destruct Hstep as [Hsteady [Hout _]]. simpl. split; [done|].
    exists []. by rewrite app_nil_r, Hout.
  - destruct Hstep as [Hsteady [Hout _]]. simpl. split; [done|].
    exists []. by rewrite app_nil_r, Hout.
Qed.

(** The second run: from a state that agrees, the records left over go the
    way they went, none is emitted, and the run ends as the first did. *)
Lemma for_each_rerun (o : oracle) (names : list string) (total total' : nat)
    (to_process : list (gmap string json)) (idx idx' : nat) (s t : state)
    (new : list line) :
  fixed o →
  agree o s t →
  (∀ n, n ∈ names → emittable o s n) →
  lines_of (output_file (fs (for_each o total idx to_process s).2)) =
    lines_of (output_file (fs s)) ++ new →
  (∀ l n, l ∈ new → line_name l = Some n → n ∈ names) →
  (for_each o total' idx' (left_over names to_process) t).1 =
    (for_each o total idx to_process s).1 ∧
  calm o t (for_each o total' idx' (left_over names to_process) t).2.
Proof.
  intros Hfix. revert idx idx' s t new.
  induction to_process as [|c rest IH]; intros idx idx' s t new Hst Hem Hlines Hnew.
  { split; [done | reflexivity]. }
  simpl in Hlines |- *.
  pose proof (process_city_fixed o idx total c s Hfix) as Hstep.
  pose proof (alike_process_city o idx total idx' total' c c Hfix eq_refl s t Hst)
    as Hlike.
  pose proof (process_city_fixed o idx' total' c t Hfix) as Hstep'.
  destruct (process_city o idx total c s) as [[[]| |e|] s1] eqn:Hrun.
  - (* emitted by the first run: not left over *)
    destruct Hstep as (n & record & Hname & Hsteady & Hout & Hrec).
    destruct (for_each_emits o total rest (S idx) s1 Hfix) as (_ & new' & Hlines' & _).
    rewrite Hlines', Hout in Hlines. simpl in Hlines.
    rewrite <- app_assoc in Hlines. apply app_inv_head in Hlines. subst new.
    assert (emitted_before names c = true) as ->.
    { apply emitted_before_name. exists n. split; [done|].
      apply (Hnew (Parsed (JObj record))); [left|]. simpl. by rewrite Hrec. }
    simpl. apply (IH (S idx) idx' s1 t new'); try done.
    + etrans; [symmetry; by apply agree_steady | done].
    + intros m Hm. eapply emittable_agree; [symmetry; by apply agree_steady|].
      by apply Hem.
    + intros l m Hl. apply Hnew. by right.
  - (* skipped by the first run: skipped again *)
    destruct Hstep as [Hsteady [Hout _]].
    assert (emitted_before names c = false) as ->.
    { apply not_true_is_false. intros (n & Hname & Hn)%emitted_before_name.
      specialize (Hem n Hn s c idx total (reflexivity _) Hname).
      by rewrite Hrun in Hem. }
    simpl. destruct (process_city o idx' total' c t) as [[[]| |e|] t1];
      try done.
    rewrite <- Hout in Hlines.
    destruct (IH (S idx) (S idx') s1 t1 new) as [Hflow Hcalm]; try done.
    + etrans; [symmetry; by apply agree_steady|].
      etrans; [exact Hst|]. by apply agree_steady, Hstep'.
    + intros m Hm. eapply emittable_agree; [symmetry; by apply agree_steady|].
      by apply Hem.
    + split; [done|]. by etrans.
  - (* the first run ended here: so does the second *)
    destruct Hstep as [Hsteady [Hout _]].
    assert (emitted_before names c = false) as ->.
    { apply not_true_is_false. intros (n & Hname & Hn)%emitted_before_name.
      specialize (Hem n Hn s c idx total (reflexivity _) Hname).
      by rewrite Hrun in Hem. }
    simpl. destruct (process_city o idx' total' c t) as [[[]| |e'|] t1];
      try done.
    simpl in Hlike. by subst e'.
  - destruct Hstep as [Hsteady [Hout _]].
    assert (emitted_before names c = false) as ->.
    { apply not_true_is_false. intros (n & Hname & Hn)%emitted_before_name.
      specialize (Hem n Hn s c idx total (reflexivity _) Hname).
      by rewrite Hrun in Hem. }
    simpl. by destruct (process_city o idx' total' c t) as [[[]| |e'|] t1].
Qed.

Lemma scan_ledger_app (before after : list line) (acc : list json) :
  scan_ledger (before ++ after) acc =
    rbind (scan_ledger before acc) (scan_ledger after).
Proof.
  revert acc. induction before as [|l before IH]; intros acc; [done|].
  destruct l as [|record]; simpl; [apply IH|].
  destruct (py_get record "CityNameEn" JNull) as [name|]; [|done]. simpl.
  destruct (set_add name acc) as [acc'|]; [|done]. simpl. apply IH.
Qed.

(** Named records load, and add their names to the processed set. *)
Lemma scan_ledger_new (new : list line) (acc : list json) :
  Forall (λ l, is_Some (line_name l)) new →
  ∃ processed,
    scan_ledger new acc = Ok processed ∧
    ∀ x, existsb (py_eqb x) processed =
           existsb (py_eqb x) acc || existsb (py_eqb x) (JStr <$> omap line_name new).
Proof.
  intros Hall. revert acc. induction Hall as [|l new [n Hn] _ IH]; intros acc.
  { exists acc. split; [done|]. intros x. by rewrite orb_false_r. }
  pose proof Hn as Hl. apply line_name_some in Hl as (r & -> & Hr).
  cbn [scan_ledger py_get rbind]. rewrite Hr. cbn [from_option id].
  unfold set_add, set_mem. cbn [hashable rbind].
  set (acc' := if existsb (py_eqb (JStr n)) acc then acc else acc ++ [JStr n]).
  destruct (IH acc') as (processed & Hscan & Hmem).
  exists processed. split; [done|]. intros x. rewrite Hmem.
  cbn [omap list_omap]. rewrite Hn. cbn [fmap list_fmap existsb].
  rewrite orb_assoc. f_equal. unfold acc'.
  destruct (existsb (py_eqb (JStr n)) acc) eqn:He.
  - destruct (py_eqb x (JStr n)) eqn:Hx; [|by rewrite orb_false_r].
    apply py_eqb_str_r in Hx as ->. by rewrite He.
  - rewrite existsb_app. cbn [existsb]. by rewrite orb_false_r.
Qed.

(** With these names in the processed set, the selection is what is left
    over. *)
Lemma select_left_over (items p1 p2 : list json) (names : list string)
    (tp1 : list (gmap string json)) :
  select items p1 = Ok tp1 →
  (∀ x, existsb (py_eqb x) p2 =
          existsb (py_eqb x) p1 || existsb (py_eqb x) (JStr <$> names)) →
  select items p2 = Ok (left_over names tp1).
Proof.
  intros Hsel Hmem. revert tp1 Hsel.
  induction items as [|c items IH]; intros tp1 Hsel.
  { by injection Hsel as <-. }
  simpl in Hsel.
  apply rbind_ok in Hsel as (name & Hname & Hsel).
  apply rbind_ok in Hsel as (seen & Hseen & Hsel).
  apply rbind_ok in Hsel as (others & Hothers & Hsel).
  specialize (IH _ Hothers).
  destruct c as [| | | | |m]; try done. injection Hsel as <-.
  unfold set_mem in Hseen. destruct (hashable name) eqn:Hh; [|done].
  injection Hseen as <-.
  cbn [select]. rewrite Hname. cbn [rbind]. unfold set_mem. rewrite Hh.
  cbn [rbind]. rewrite IH. cbn [rbind]. f_equal. rewrite Hmem.
  simpl in Hname. destruct (m !! "CityNameEn") as [v|] eqn:Hv; [|done].
  injection Hname as ->.
  destruct (existsb (py_eqb name) p1); [done|]. simpl.
  unfold emitted_before, field. rewrite Hv. simpl.
  by destruct (existsb (py_eqb name) (JStr <$> names)).
Qed.

Lemma load_json_parses (f : file (gmap string json)) :
  f ≠ Corrupt → load_json f = Ok (file_content f).
Proof. by destruct f. Qed.

Lemma load_json_not_corrupt (f : file (gmap string json)) (c : gmap string json) :
  load_json f = Ok c → f ≠ Corrupt.
Proof. by destruct f. Qed.

(** C1. Idempotent resumability.  With an oracle whose answers do not
    change, a second run on the ledger and the caches the first run left
    ends as the first run did, appends nothing, and leaves the ledger as
    the first run left it. *)
Theorem C1_idempotent_resumability (o : oracle) (d : disk) :
  fixed o →
  let d1 := (process_entries o d).2 in
  let d2 := (process_entries o d1).2 in
  (process_entries o d1).1 = (process_entries o d).1 ∧
  output_file d2 = output_file d1 ∧
  ∃ evs, extends d1 d2 evs ∧ ∀ r, EvAppend r ∉ evs.
Proof.
  intros Hfix d1 d2.
  assert ((process_entries o d1).1 = (process_entries o d).1 ∧
          output_file d2 = output_file d1) as [Hend Hout2].
  { unfold d2, d1. destruct (process_entries_run o d) as [[e H]|H].
    { rewrite H. simpl. by rewrite H. }
    destruct H as (cities & items & processed & to_process & qids & countries
                   & states & Hload & Hq & Hc & Hs & Hproc & Hiter & Hsel & H).
    simpl in H. rewrite H. cbn [fst snd]. clear H.
    set (s0 := {| fs := with_log (λ l, l ++ [EvProcessing (length to_process)]) d;
                  qid_lookup := qids; country_cache := countries;
                  state_cache := states |}) in *.
    destruct (for_each_emits o (length to_process) to_process 1 s0 Hfix)
      as ((Hagree & Hsync & Hparse & Hinput) & new & Hlines & Hall).
    pose proof (for_each_rerun o (omap line_name new) (length to_process)) as Hrerun.
    destruct (for_each o (length to_process) 1 to_process s0) as [r s1] eqn:Hloop.
    cbn [fst snd] in *.
    (* what the second run loads *)
    assert (stored (fs s0) = memory s0) as Hsync0.
    { apply load_json_ok in Hq, Hc, Hs. by subst qids countries states. }
    specialize (Hsync Hsync0).
    assert (∀ dm, cache_file dm (fs s1) ≠ Corrupt) as Hparse1.
    { intros dm. apply Hparse.
      destruct dm; simpl; by eapply load_json_not_corrupt. }
    assert (∀ dm, load_json (cache_file dm (fs s1)) = Ok (cache dm s1)) as Hcaches.
    { intros dm. rewrite load_json_parses by done.
      by rewrite <- store_get_stored, Hsync, store_get_memory. }
    assert (load_input (input_file (fs s1)) = Ok cities) as Hload1.
    { by rewrite Hinput. }
    assert (Forall (λ l, is_Some (line_name l)) new) as Hnamed.
    { eapply Forall_impl; [exact Hall|]. intros l (n & Hn & _). by exists n. }
    destruct (scan_ledger_new new processed Hnamed) as (processed2 & Hscan & Hmem).
    assert (load_processed_city_names (output_file (fs s1)) = Ok processed2)
      as Hproc1.
    { rewrite load_processed_lines, Hlines, scan_ledger_app.
      change (output_file (fs s0)) with (output_file d).
      rewrite load_processed_lines in Hproc. by rewrite Hproc. }
    pose proof (select_left_over items processed processed2 (omap line_name new)
                  to_process Hsel Hmem) as Hsel2.
    (* the second run *)
    unfold process_entries.
    rewrite Hload1.
    change (qid_file (fs s1)) with (cache_file Names (fs s1)).
    change (countries_file (fs s1)) with (cache_file Countries (fs s1)).
    change (states_file (fs s1)) with (cache_file States (fs s1)).
    rewrite !Hcaches, Hproc1. cbn [rbind]. rewrite Hiter. cbn [rbind].
    rewrite Hsel2. cbn [rbind].
    match goal with |- context [for_each o ?t 1 _ ?t0] =>
      destruct (Hrerun t to_process 1 1 s0 t0 new Hfix)
        as [Hflow [_ [Hout _]]];
      [ | | | | destruct (for_each o t 1 (left_over (omap line_name new) to_process) t0)
               as [r2 s2] ]
    end.
    - etrans; [exact Hagree|]. by apply agree_memory.
    - intros n (l & Hl & Hn)%list_elem_of_omap.
      rewrite Forall_forall in Hall. destruct (Hall l Hl) as (m & Hm & He).
      rewrite Hn in Hm. by injection Hm as <-.
    - by rewrite Hloop.
    - intros l n Hl Hn. apply list_elem_of_omap. by exists l.
    - rewrite Hloop in Hflow. simpl in *. by split. }
  split; [done|]. split; [done|].
  destruct (process_entries_paced o d1) as (evs & Hlog & _ & Hlines).
  fold d2 in Hlog, Hlines.
  exists evs. split; [done|].
  intros r Hr. rewrite Hout2 in Hlines.
  assert (omap appended_line evs = []) as Hnone.
  { apply (app_inv_head (lines_of (output_file d1))). by rewrite app_nil_r. }
  assert (Parsed (JObj r) ∈ omap appended_line evs) as Hin.
  { apply list_elem_of_omap. by exists (EvAppend r). }
  rewrite Hnone in Hin. by apply elem_of_nil in Hin.
Qed.

(** The scenario, run twice. *)
Lemma C1_witness :
  output_file (process_entries demo_oracle
                 (process_entries demo_oracle demo_disk).2).2 =
    output_file (process_entries demo_oracle demo_disk).2.
Proof.
  destruct (C1_idempotent_resumability demo_oracle demo_disk) as (_ & H & _).
  - split; intros; reflexivity.
  - exact H.
Defined.

(** A first run that is cut short: the first record is emitted, the second
    raises [TypeError].  The second run skips the first record, raises at
    the second again and leaves the ledger with its one line. *)
Example rerun_after_crash :
  let r1 := process_entries odd_oracle odd_disk in
  let r2 := process_entries odd_oracle r1.2 in
  r1.1 = Crashed TypeError ∧ r2.1 = Crashed TypeError ∧
  length (lines_of (output_file r1.2)) = 1 ∧
  output_file r2.2 = output_file r1.2.
Proof. vm_compute. repeat split. Qed.

(** *** More on the ledger at startup *)

Lemma py_eqb_number (a b : json) (p q : Q) :
  number a = Some p → number b = Some q → py_eqb a b = Qeq_bool p q.
Proof.
  destruct a as [|x|x| | |], b as [|y|y| | |]; simpl; try done;
    intros [= <-] [= <-]; try done.
  by destruct x, y.
Qed.

Lemma py_eqb_number_l (a b : json) (p : Q) :
  number a = Some p → py_eqb a b = true → is_Some (number b).
Proof. destruct a, b; simpl; try done; by eexists. Qed.

Lemma py_eqb_number_r (a b : json) (q : Q) :
  number b = Some q → py_eqb a b = true → is_Some (number a).
Proof. destruct a, b; simpl; try done; by eexists. Qed.

Lemma py_eqb_null_r (x : json) : py_eqb x JNull = true → x = JNull.
Proof. by destruct x. Qed.

(** On values that can be hashed, [==] is symmetric and transitive. *)
Lemma py_eqb_sym (x y : json) :
  hashable x = true → py_eqb x y = py_eqb y x.
Proof.
  destruct x as [|a|a|a| |], y as [|b|b|b| |]; simpl; try done; intros _.
  - by destruct a, b.
  - unfold Qeq_bool. apply Z.eqb_sym.
  - unfold Qeq_bool. apply Z.eqb_sym.
  - unfold Qeq_bool. apply Z.eqb_sym.
  - apply String.eqb_sym.
Qed.

Lemma py_eqb_trans (x y z : json) :
  hashable y = true →
  py_eqb x y = true → py_eqb y z = true → py_eqb x z = true.
Proof.
  intros Hy Hxy Hyz.
  destruct (number y) as [q|] eqn:Hq.
  - destruct (py_eqb_number_r x y q Hq Hxy) as [p Hp].
    destruct (py_eqb_number_l y z q Hq Hyz) as [r Hr].
    rewrite (py_eqb_number x y p q) in Hxy by done.
    rewrite (py_eqb_number y z q r) in Hyz by done.
    rewrite (py_eqb_number x z p r) by done.
    apply Qeq_bool_iff in Hxy, Hyz. apply Qeq_bool_iff. by etrans.
  - destruct y as [| | |s| |]; try done.
    + apply py_eqb_null_r in Hxy as ->. done.
    + apply py_eqb_str_r in Hxy as ->. done.
Qed.

(** X1. Lines that do not parse are skipped, however many there are and
    wherever they stand: the ledger loads as it does without them. *)
Theorem X1_unparseable_lines_skipped (lines : list line) :
  load_processed_city_names (Some lines) =
    load_processed_city_names (Some (List.filter is_parsed lines)).
Proof.
  simpl. generalize (@nil json).
  induction lines as [|l lines IH]; intros acc; [done|].
  destruct l as [|record]; simpl; [apply IH|].
  destruct (py_get record "CityNameEn" JNull) as [name|]; [|done]. simpl.
  destruct (set_add name acc) as [acc'|]; [|done]. simpl. apply IH.
Qed.

Lemma distinct_snoc (acc : list json) (x : json) :
  hashable x = true →
  distinct acc = true →
  existsb (py_eqb x) acc = false →
  distinct (acc ++ [x]) = true.
Proof.
  intros Hx. induction acc as [|y acc IH]; [done|]. simpl.
  intros [Hy Hd]%andb_true_iff [Hxy Hn]%orb_false_iff.
  apply andb_true_iff. split; [|by apply IH].
  rewrite existsb_app. simpl. rewrite <- (py_eqb_sym x y Hx), Hxy.
  by rewrite !orb_false_r.
Qed.

(** [processed.add(x)] keeps a set a set, and adds [x] to it. *)
Lemma set_add_spec (x : json) (acc : list json) :
  hashable x = true →
  ∃ acc',
    set_add x acc = Ok acc' ∧
    (∀ y, existsb (py_eqb y) acc' = existsb (py_eqb y) acc || py_eqb y x) ∧
    (distinct acc = true → distinct acc' = true) ∧
    length acc' ≤ S (length acc).
Proof.
  intros Hx. unfold set_add, set_mem. rewrite Hx. cbn [rbind].
  eexists. split; [done|].
  destruct (existsb (py_eqb x) acc) eqn:He.
  - split; [|split; [done | lia]]. intros y.
    destruct (py_eqb y x) eqn:Hyx; [|by rewrite orb_false_r].
    rewrite orb_true_r. apply existsb_exists in He as (z & Hz & Hxz).
    apply existsb_exists. exists z. split; [done|].
    by apply (py_eqb_trans y x z).
  - split; [|split].
    + intros y. rewrite existsb_app. simpl. by rewrite orb_false_r.
    + intros Hd. by apply distinct_snoc.
    + rewrite length_app. simpl. lia.
Qed.

Lemma scan_ledger_set (lines : list line) (acc : list json) :
  Forall ledger_line lines →
  ∃ processed,
    scan_ledger lines acc = Ok processed ∧
    (∀ x, existsb (py_eqb x) processed =
            existsb (py_eqb x) acc || existsb (py_eqb x) (omap line_key lines)) ∧
    (distinct acc = true → distinct processed = true) ∧
    length processed ≤ length acc + length (List.filter is_parsed lines).
Proof.
  intros Hall. revert acc.
  induction Hall as [|l lines Hl _ IH]; intros acc.
  { exists acc. split; [done|]. split; [|split; [done | simpl; lia]].
    intros x. by rewrite orb_false_r. }
  destruct l as [|[| | | | |r]]; try done.
  { destruct (IH acc) as (processed & Hscan & Hmem & Hd & Hlen). by exists processed. }
  simpl in Hl.
  destruct (set_add_spec (field r "CityNameEn") acc Hl)
    as (acc' & Hadd & Hmem' & Hd' & Hlen').
  destruct (IH acc') as (processed & Hscan & Hmem & Hd & Hlen).
  exists processed. cbn [scan_ledger py_get rbind].
  change (default JNull (r !! "CityNameEn")) with (field r "CityNameEn").
  rewrite Hadd. cbn [rbind]. split; [done|]. split; [|split].
  - intros x. rewrite Hmem, Hmem'. cbn [omap list_omap line_key existsb].
    by rewrite orb_assoc.
  - auto.
  - simpl. lia.
Qed.

(** X3. A ledger whose lines do not parse or are records with names that
    can be hashed loads, and what is loaded is the set of the names of its
    records ([None] for a record without a name): a value is in it exactly
    when it equals the name of a record, no two of its values are equal,
    and it has at most one value for each record. *)
Theorem X3_processed_set_of_names (lines : list line) :
  Forall ledger_line lines →
  ∃ processed,
    load_processed_city_names (Some lines) = Ok processed ∧
    (∀ x, existsb (py_eqb x) processed = existsb (py_eqb x) (omap line_key lines)) ∧
    distinct processed = true ∧
    length processed ≤ length (List.filter is_parsed lines).
Proof.
  intros Hall.
  destruct (scan_ledger_set lines [] Hall) as (processed & Hscan & Hmem & Hd & Hlen).
  exists processed. split; [done|]. split; [exact Hmem|]. split; [by apply Hd|].
  exact Hlen.
Qed.

(** Two records of one name, a line that does not parse, and a record
    without a name. *)
Lemma X3_witness :
  ∃ processed,
    load_processed_city_names
      (Some [Parsed (JObj (named_record "Testville")); Garbage;
             Parsed (JObj (named_record "Testville")); Parsed (JObj ∅)])
      = Ok processed ∧
    length processed ≤ 3.
Proof.
  destruct (X3_processed_set_of_names
              [Parsed (JObj (named_record "Testville")); Garbage;
               Parsed (JObj (named_record "Testville")); Parsed (JObj ∅)])
    as (processed & Hload & _ & _ & Hlen).
  - repeat constructor.
  - exists processed. split; [exact Hload | exact Hlen].
Defined.

(** X2. Only lines that do not parse are forgiven.  A line that parses to
    something other than a record whose name can be hashed ends the process
    at startup, with nothing done: [AttributeError] for a value that is no
    object, [TypeError] for a name that is a list or an object. *)
Theorem X2_bad_ledger_line_aborts (o : oracle) (d : disk) (cities : json)
    (before after : list line) (v : json) (e : exn) :
  load_input (input_file d) = Ok cities →
  qid_file d ≠ Corrupt → countries_file d ≠ Corrupt → states_file d ≠ Corrupt →
  output_file d = Some (before ++ Parsed v :: after) →
  Forall ledger_line before →
  line_error v = Some e →
  process_entries o d = (Crashed e, d).
Proof.
  intros Hin Hq Hc Hs Hout Hbefore Hv.
  unfold process_entries.
  rewrite Hin, !load_json_parses, Hout by done. cbn [rbind].
  cbn [load_processed_city_names]. rewrite scan_ledger_app.
  destruct (scan_ledger_set before [] Hbefore) as (processed & -> & _).
  cbn [rbind scan_ledger].
  destruct v as [| | | | |r]; simpl in Hv; try (by injection Hv as <-).
  cbn [py_get rbind].
  change (default JNull (r !! "CityNameEn")) with (field r "CityNameEn").
  unfold set_add, set_mem.
  destruct (hashable (field r "CityNameEn")); [done|]. by injection Hv as <-.
Qed.

Lemma X2_witness :
  process_entries demo_oracle odd_ledger_disk = (Crashed AttributeError, odd_ledger_disk).
Proof.
  apply (X2_bad_ledger_line_aborts demo_oracle odd_ledger_disk
           (JArr [obj [("CityNameEn", JStr "Testville")]]) [Garbage] [] (JNum 5));
    try done.
  by repeat constructor.
Defined.

(** *** More on the resolver *)

Lemma search_hit_found (r : option json) (qid : json) :
  search_hit r = Ok (Some qid) ↔ first_hit r qid.
Proof.
  split.
  - destruct r as [[| | | | |data]|]; try done.
    unfold search_hit. cbn [response rbind py_get].
    destruct (data !! "search") as [found|] eqn:Hfound; [|done].
    cbn [from_option id]. destruct (truthy found); [|done].
    cbn [py_item]. rewrite Hfound. cbn [rbind].
    destruct found as [| | |[|c str]|[|[| | | | |top] rest]|]; try done.
    cbn [py_first rbind py_item].
    destruct (top !! "id") as [q|] eqn:Hid; [|done].
    intros [= ->]. by exists data, top, rest.
  - intros (data & top & rest & -> & Hfound & Hid).
    unfold search_hit. cbn [response rbind py_get]. rewrite Hfound.
    cbn [from_option id truthy length Nat.eqb negb py_item]. rewrite Hfound.
    cbn [rbind py_first py_item]. by rewrite Hid.
Qed.

(** X4. What the resolver takes from a search.  For a name the cache
    lacks, the name is cached exactly when the answer is an object whose
    ["search"] is a list starting with an object that has an ["id"]; that
    identifier is then returned, stored under the name (the other entries
    stay) and the cache is saved at once.  Whatever else the answer is, the
    resolver returns [None] and the cache stays as it was. *)
Theorem X4_resolver_takes_first_hit (o : oracle) (n : string) (s : state)
    (qid : json) :
  cache Names s !! n = None →
  (cache Names (get_wikidata_id o (JStr n) s).2 !! n = Some qid ↔
   first_hit (search o (now s) n) qid) ∧
  (first_hit (search o (now s) n) qid →
   (get_wikidata_id o (JStr n) s).1 = Next qid ∧
   cache Names (get_wikidata_id o (JStr n) s).2 = <[n := qid]> (cache Names s) ∧
   cache_file Names (fs (get_wikidata_id o (JStr n) s).2)
     = Stored (<[n := qid]> (cache Names s))) ∧
  ((∀ q, ¬ first_hit (search o (now s) n) q) →
   (get_wikidata_id o (JStr n) s).1 = Next JNull ∧
   cache Names (get_wikidata_id o (JStr n) s).2 = cache Names s).
Proof.
  intros Hc. rewrite get_wikidata_id_str, Hc.
  destruct (search_hit (search o (now s) n)) as [[q|]|e] eqn:Hs.
  - pose proof (proj1 (search_hit_found _ _) Hs) as Hq.
    assert (∀ q', first_hit (search o (now s) n) q' → q' = q) as Huniq.
    { intros q' H'%search_hit_found. congruence. }
    cbn [fst snd]. autorewrite with st. rewrite !decide_True by done.
    split; [|split].
    + rewrite lookup_insert_eq. split.
      * by intros [= <-].
      * by intros ->%Huniq.
    + by intros ->%Huniq.
    + intros Hno. by destruct (Hno q).
  - assert (∀ q', ¬ first_hit (search o (now s) n) q') as Hno.
    { intros q' H'%search_hit_found. congruence. }
    cbn [fst snd]. autorewrite with st. split; [|split]; try done.
    + rewrite Hc. split; [done|]. intros H. by destruct (Hno qid).
    + intros H. by destruct (Hno qid).
  - assert (∀ q', ¬ first_hit (search o (now s) n) q') as Hno.
    { intros q' H'%search_hit_found. congruence. }
    cbn [fst snd]. autorewrite with st. split; [|split]; try done.
    + rewrite Hc. split; [done|]. intros H. by destruct (Hno qid).
    + intros H. by destruct (Hno qid).
Qed.

Lemma X4_witness :
  (get_wikidata_id demo_oracle (JStr "Testville") (fresh_state demo_disk)).1
    = Next (JStr "Q1").
Proof.
  destruct (X4_resolver_takes_first_hit demo_oracle "Testville"
              (fresh_state demo_disk) (JStr "Q1")) as (_ & H & _).
  - reflexivity.
  - apply H. exists (list_to_map [("search", JArr [obj [("id", JStr "Q1")]])]),
               (list_to_map [("id", JStr "Q1")]), [].
    repeat split.
Defined.

(** *** More on the detail fetches *)

(** X5. The shape of a city record.  [enrich_city] always returns: a
    record with exactly the seven keys of a city record, or, with the
    error printed, the empty record; never a part of a record. *)
Theorem X5_city_record_shape (o : oracle) (qid : json) (s : state) :
  ∃ info,
    (enrich_city o qid s).1 = Next info ∧
    ((dom info = city_keys ∧
      log (fs (enrich_city o qid s).2) = log (fs s) ++ [EvCity qid]) ∨
     (info = ∅ ∧
      log (fs (enrich_city o qid s).2) =
        log (fs s) ++ [EvCity qid; EvError "Error enriching city"])).
Proof.
  rewrite enrich_city_run. cbv zeta. cbn [fst snd].
  destruct (enrich_city_body (entity o (now s) qid) qid) as [info|e] eqn:Hb.
  - exists info. split; [done|]. left. split; [|by autorewrite with st].
    unfold enrich_city_body in Hb. rinv Hb. subst info.
    rewrite !dom_insert_L, dom_empty_L. unfold city_keys. set_solver.
  - exists ∅. split; [done|]. right. split; [done|].
    autorewrite with st. by rewrite <- app_assoc.
Qed.

(** X6. The shape of the record of a country or a state.
    [get_entity_info] always returns: the empty record, with the error
    printed, or a record that has the identifier it was asked for under
    [<level>QID], the two names and the code of its level, and at most one
    more key: [CapitalQID] for a country, [CountryQID] for a state. *)
Theorem X6_parent_record_shape (o : oracle) (qid : json) (lv : level) (s : state) :
  ∃ info,
    (get_entity_info o qid lv s).1 = Next info ∧
    ((info !! (level_name lv +:+ "QID") = Some qid ∧
      required_keys lv ⊆ dom info ∧
      dom info ⊆ required_keys lv ∪ {[optional_key lv]} ∧
      log (fs (get_entity_info o qid lv s).2) = log (fs s) ++ [EvEntity lv qid]) ∨
     (info = ∅ ∧
      log (fs (get_entity_info o qid lv s).2) =
        log (fs s) ++ [EvEntity lv qid; EvError "Error loading entity"])).
Proof.
  rewrite get_entity_info_run. cbv zeta. cbn [fst snd].
  destruct (entity_info_body (entity o (now s) qid) qid lv) as [info|e] eqn:Hb.
  - exists info. split; [done|]. left.
    split; [|split; [|split; [|by autorewrite with st]]];
      unfold entity_info_body in Hb; destruct lv; rinv Hb; subst info;
      cbn [level_name String.append optional_key required_keys];
      rewrite ?dom_insert_L, ?dom_empty_L;
      try set_solver; by simplify_map_eq.
  - exists ∅. split; [done|]. right. split; [done|].
    autorewrite with st. by rewrite <- app_assoc.
Qed.

(** X7. A location is all or nothing, and so is the record.  When the
    document states a location (P625) whose value lacks the latitude or the
    longitude (or is no object at all), [enrich_city] returns the empty
    record: the country, the state and everything else the document states
    are lost with it. *)
Theorem X7_location_all_or_nothing (o : oracle) (qid : json) (s : state)
    (labels claims c : json) (axis : string) (e : exn) :
  entity_parts (entity o (now s) qid) qid = Ok (labels, claims) →
  get_claim claims "P625" = Ok c →
  truthy c = true →
  axis ∈ ["latitude"; "longitude"] →
  py_item c axis = Raise e →
  (enrich_city o qid s).1 = Next ∅.
Proof.
  intros Hparts Hget Hc Haxis Hitem. rewrite enrich_city_run. cbv zeta. cbn [fst].
  destruct (enrich_city_body (entity o (now s) qid) qid) as [info|e'] eqn:Hb;
    [exfalso|done].
  apply enrich_city_body_ok in Hb
    as (labels' & claims' & Hparts' & _ & _ & _ & _ & _ & _ & _ & [Hlat _] & [Hlon _] & _).
  rewrite Hparts in Hparts'. injection Hparts' as <- <-.
  assert (claim_coordinate claims axis = Raise e) as Hraise.
  { unfold claim_coordinate. rewrite Hget. cbn [rbind]. rewrite Hc.
    exact Hitem. }
  apply elem_of_cons in Haxis as [->|Haxis]; [congruence|].
  apply list_elem_of_singleton in Haxis as ->. congruence.
Qed.

Lemma X7_witness :
  (enrich_city adrift_oracle (JStr "Q1") (fresh_state demo_disk)).1 = Next ∅.
Proof.
  apply (X7_location_all_or_nothing adrift_oracle (JStr "Q1")
           (fresh_state demo_disk) (obj [])
           (obj [("P17", statement (obj [("id", JStr "Q2")]));
                 ("P625", statement (obj [("longitude", JNum 20)]))])
           (obj [("longitude", JNum 20)]) "latitude" KeyError).
  - reflexivity.
  - reflexivity.
  - reflexivity.
  - left.
  - reflexivity.
Defined.

(** *** More on the loop *)

(** X8. A city whose detail fetch fails is emitted all the same.  When the
    name is resolved and the fetch or the reading of the city's document
    fails, the loop body prints the error, appends the caller's record with
    [IsCapital] false and nothing else added, and sleeps: no country and no
    state is fetched, the caches stay as they are, and the name is in the
    ledger from then on. *)
Theorem X8_failed_city_fetch_emits (o : oracle) (idx total : nat)
    (city : gmap string json) (n : string) (s s1 : state) (qid : json) (e : exn) :
  city !! "CityNameEn" = Some (JStr n) →
  get_wikidata_id o (JStr n) (note (EvProgress idx total (JStr n)) s) = (Next qid, s1) →
  truthy qid = true →
  enrich_city_body (entity o (now s1) qid) qid = Raise e →
  let record := <["IsCapital" := JBool false]> city in
  ∃ s',
    process_city o idx total city s = (Next (), s') ∧
    log (fs s') =
      log (fs s1) ++ [EvCity qid; EvError "Error enriching city";
                      EvAppend record; EvSleep 1] ∧
    output_file (fs s') =
      Some (lines_of (output_file (fs s1)) ++ [Parsed (JObj record)]) ∧
    line_name (Parsed (JObj record)) = Some n ∧
    memory s' = memory s1 ∧ stored (fs s') = stored (fs s1).
Proof.
  intros Hname Hres Hq Hbody record. eexists. split; [|split; [|split; [|split]]].
  - unfold process_city, bind. cbn [py_item]. rewrite Hname.
    cbn [uncaught ret]. unfold emit. rewrite Hres, Hq. cbn [negb].
    rewrite enrich_city_run, Hbody. cbv zeta. cbn [caught].
    unfold country_enrichment, state_enrichment, field.
    rewrite !lookup_empty. cbn [from_option id truthy ret].
    rewrite (left_id_L ∅ (∪)). reflexivity.
  - autorewrite with st. by rewrite <- !app_assoc.
  - by autorewrite with st.
  - cbn [line_name]. unfold record. rewrite lookup_insert_ne by done.
    by rewrite Hname.
  - by autorewrite with st.
Qed.

Lemma X8_witness :
  ∃ s',
    process_city offline_oracle 1 1 caller_city (fresh_state demo_disk) = (Next (), s') ∧
    output_file (fs s') =
      Some [Parsed (JObj (<["IsCapital" := JBool false]> caller_city))].
Proof.
  destruct (X8_failed_city_fetch_emits offline_oracle 1 1 caller_city "Testville"
              (fresh_state demo_disk)
              (get_wikidata_id offline_oracle (JStr "Testville")
                 (note (EvProgress 1 1 (JStr "Testville")) (fresh_state demo_disk))).2
              (JStr "Q1") RequestError) as (s' & H & _ & Hout & _).
  - reflexivity.
  - reflexivity.
  - reflexivity.
  - reflexivity.
  - exists s'. split; [exact H | exact Hout].
Defined.

Lemma line_key_name (l : line) (n : string) :
  line_name l = Some n → line_key l = Some (JStr n).
Proof.
  intros (r & -> & Hr)%line_name_some. simpl. unfold field. by rewrite Hr.
Qed.

(** Records whose names are all in the processed set: nothing is selected. *)
Lemma select_none (cities processed : list json) :
  Forall (λ v, ∃ city n, v = JObj city ∧ city !! "CityNameEn" = Some (JStr n) ∧
                         existsb (py_eqb (JStr n)) processed = true) cities →
  select cities processed = Ok [].
Proof.
  induction 1 as [|v cities (city & n & -> & Hname & Hin) _ IH]; [done|].
  cbn [select py_item]. rewrite Hname. cbn [rbind]. unfold set_mem.
  cbn [hashable rbind]. by rewrite IH, Hin.
Qed.

(** X9. Nothing left to do.  When every record of the input has its name
    in the ledger, a run asks nothing of the API and writes nothing: it
    prints that it processes 0 cities and ends. *)
Theorem X9_processed_input_is_no_op (o : oracle) (d : disk) (cities : list json) :
  input_file d = Stored (JArr cities) →
  qid_file d ≠ Corrupt → countries_file d ≠ Corrupt → states_file d ≠ Corrupt →
  Forall ledger_line (lines_of (output_file d)) →
  Forall named cities →
  (∀ city n, JObj city ∈ cities → city !! "CityNameEn" = Some (JStr n) →
             ∃ l, l ∈ lines_of (output_file d) ∧ line_name l = Some n) →
  process_entries o d = (Done, with_log (λ l, l ++ [EvProcessing 0]) d).
Proof.
  intros Hin Hq Hc Hs Hlines Hnamed Hcover.
  unfold process_entries.
  rewrite Hin, !load_json_parses, load_processed_lines by done. cbn [load_input rbind].
  destruct (scan_ledger_set _ [] Hlines) as (processed & -> & Hmem & _).
  cbn [rbind py_iter]. rewrite (select_none cities processed); [done|].
  rewrite Forall_forall in Hnamed. apply Forall_forall.
  intros v Hv. destruct (Hnamed v Hv) as (city & n & -> & Hname).
  exists city, n. split; [done|]. split; [done|].
  destruct (Hcover city n Hv Hname) as (l & Hl & Hn).
  rewrite Hmem. apply existsb_exists. exists (JStr n).
  split; [|by apply py_eqb_str].
  apply list_elem_of_In, list_elem_of_omap. exists l. split; [done|].
  by apply line_key_name.
Qed.

Lemma X9_witness :
  process_entries demo_oracle done_disk =
    (Done, with_log (λ l, l ++ [EvProcessing 0]) done_disk).
Proof.
  apply (X9_processed_input_is_no_op demo_oracle done_disk
           [obj [("CityNameEn", JStr "Testville")]]); try done.
  - by repeat constructor.
  - constructor; [|constructor].
    exists (list_to_map [("CityNameEn", JStr "Testville")]), "Testville".
    split; reflexivity.
  - intros city n Hcity Hname.
    apply list_elem_of_singleton in Hcity. injection Hcity as ->.
    exists (Parsed (JObj (named_record "Testville"))). split; [left|].
    injection Hname as <-. reflexivity.
Defined.

Lemma country_enrichment_details (o : oracle) (qid : json)
    (info city city1 : gmap string json) (s s1 : state) :
  country_enrichment o qid info city s = (Next city1, s1) →
  (truthy (field info "CountryQID") = true →
   ∃ key record,
     field info "CountryQID" = JStr key ∧
     cache Countries s1 !! key = Some record ∧
     city1 !! "CountryDetails" = Some record) ∧
  (truthy (field info "CountryQID") = false →
   city1 !! "CountryDetails" = city !! "CountryDetails").
Proof.
  unfold country_enrichment, bind.
  destruct (truthy (field info "CountryQID")) eqn:Ht.
  - destruct (parent_record o Country _ s) as [[record| | |] s2] eqn:Hp; try done.
    apply parent_record_next in Hp as (key & Hkey & Hc & _).
    destruct (py_get record "CapitalQID" JNull) as [capital|]; simpl; [|done].
    intros [= <- <-]. split; [|done]. intros _. exists key, record.
    split; [done|]. split; [done|].
    rewrite lookup_insert_ne by done. by rewrite lookup_insert_eq.
  - simpl. intros [= <- <-]. split; [done|]. intros _.
    by rewrite lookup_insert_ne.
Qed.

Lemma state_enrichment_details (o : oracle)
    (info city city2 : gmap string json) (s s2 : state) :
  state_enrichment o info city s = (Next city2, s2) →
  (truthy (field info "StateQID") = true →
   ∃ key record,
     field info "StateQID" = JStr key ∧
     cache States s2 !! key = Some record ∧
     city2 !! "StateDetails" = Some record) ∧
  (truthy (field info "StateQID") = false →
   city2 !! "StateDetails" = city !! "StateDetails").
Proof.
  unfold state_enrichment, bind.
  destruct (truthy (field info "StateQID")) eqn:Ht.
  - destruct (parent_record o State _ s) as [[record| | |] s3] eqn:Hp; try done.
    apply parent_record_next in Hp as (key & Hkey & Hc & _).
    simpl. intros [= <- <-]. split; [|done]. intros _. exists key, record.
    split; [done|]. split; [done|]. by rewrite lookup_insert_eq.
  - simpl. intros [= <- <-]. by split.
Qed.

(** X10. When the details of the country and of the state are in a record.
    For each of the two levels: if the city record names a parent (a true
    value under [CountryQID], [StateQID]), the output record holds under
    [CountryDetails], [StateDetails] the record the cache of that level has
    for it; if it names none, the pipeline writes no details, and the field
    is the caller's, when the caller gave one. *)
Theorem X10_details_follow_the_parent (o : oracle) (idx total : nat)
    (city : gmap string json) (s s' : state) :
  process_city o idx total city s = (Next (), s') →
  ∃ record name qid s1 info,
    output_file (fs s') =
      Some (lines_of (output_file (fs s)) ++ [Parsed (JObj record)]) ∧
    city !! "CityNameEn" = Some name ∧
    get_wikidata_id o name (note (EvProgress idx total name) s) = (Next qid, s1) ∧
    info = caught (enrich_city_body (entity o (now s1) qid) qid) ∧
    ∀ lv,
      (truthy (field info (parent_field lv)) = true →
       ∃ key parent,
         field info (parent_field lv) = JStr key ∧
         cache (domain_of lv) s' !! key = Some parent ∧
         record !! details_field lv = Some parent) ∧
      (truthy (field info (parent_field lv)) = false →
       record !! details_field lv = city !! details_field lv).
Proof.
  intros Hrun.
  pose proof (process_city_cases background o
                (λ i t nm s0, background_note _ s0)
                (background_resolve o) (background_enrich o)
                (background_parent o) idx total city s) as Hc.
  rewrite Hrun in Hc.
  destruct Hc as (name & qid & s1 & info & s2 & city1 & s3 & city2 & s4 & Hname
                  & Hres & Hq & Hen & Hinfo & Hco & Hst & -> & [Hout _] & _).
  assert (output_file (fs s4) = output_file (fs s)) as Hout4.
  { pose proof (preserves_get_wikidata_id background o (background_resolve o) name
                  (note (EvProgress idx total name) s)) as [H1 _].
    rewrite Hres in H1. simpl in H1.
    pose proof (background_enrich o qid s1) as [H2 _]. rewrite Hen in H2.
    pose proof (preserves_country_enrichment background o (background_parent o)
                  qid info (info ∪ city) s2) as [H3 _]. rewrite Hco in H3.
    pose proof (preserves_state_enrichment background o (background_parent o)
                  info city1 s3) as [H4 _]. rewrite Hst in H4.
    simpl in *. congruence. }
  exists city2, name, qid, s1, info. split; [|split; [|split; [|split]]]; try done.
  { autorewrite with st. by rewrite Hout4. }
  destruct (country_enrichment_details _ _ _ _ _ _ _ Hco) as [Hc1 Hc0].
  destruct (state_enrichment_details _ _ _ _ _ _ Hst) as [Hs1 Hs0].
  destruct (state_enrichment_next _ _ _ _ _ _ Hst) as [Hkeep Hcache].
  intros [|]; cbn [parent_field details_field domain_of]; autorewrite with st.
  - split.
    + intros Ht. destruct (Hc1 Ht) as (key & parent & Hkey & Hp & Hd).
      exists key, parent. split; [done|]. rewrite Hcache by done.
      split; [done|]. by rewrite Hkeep.
    + intros Ht. rewrite Hkeep, (Hc0 Ht) by done.
      apply lookup_union_r. subst info. apply caught_enrich_city_body. set_solver.
  - split.
    + intros Ht. destruct (Hs1 Ht) as (key & parent & Hkey & Hp & Hd).
      by exists key, parent.
    + intros Ht. rewrite (Hs0 Ht).
      destruct (country_enrichment_next _ _ _ _ _ _ _ Hq Hco) as (Hk1 & _).
      rewrite Hk1 by done.
      apply lookup_union_r. subst info. apply caught_enrich_city_body. set_solver.
Qed.

Lemma X10_witness :
  ∃ record, output_file (fs (after_city demo_city)) = Some [Parsed (JObj record)].
Proof.
  assert (process_city demo_oracle 1 1 demo_city (fresh_state demo_disk)
          = (Next (), after_city demo_city)) as H by (vm_compute; reflexivity).
  destruct (X10_details_follow_the_parent _ _ _ _ _ _ H)
    as (record & name & qid & s1 & info & Hout & _).
  exists record. exact Hout.
Defined.

(** *** Requests *)

Lemma requests_app (a b : list event) : requests (a ++ b) = requests a + requests b.
Proof. unfold requests. by rewrite List.filter_app, length_app. Qed.

Lemma progresses_app (a b : list event) :
  progresses (a ++ b) = progresses a + progresses b.
Proof. unfold progresses. by rewrite List.filter_app, length_app. Qed.

Ltac no_events :=
  exists []; rewrite app_nil_r; split; [done | split; [cbn; lia | done]].

Ltac count_events :=
  autorewrite with st; rewrite <- ?app_assoc;
  eexists; split; [reflexivity | split; [cbn; lia | reflexivity]].

Lemma within_bind {A B : Type} (a b : nat) (m : M A) (k : A → M B) :
  within a m → (∀ x, within b (k x)) → within (a + b) (bind m k).
Proof.
  intros Hm Hk s. unfold bind. destruct (Hm s) as (evs & Hlog & Hreq & Hpro).
  destruct (m s) as [[x| |e|] s1]; simpl in *;
    try (exists evs; split; [done|]; split; [lia | done]).
  destruct (Hk x s1) as (evs' & Hlog' & Hreq' & Hpro').
  exists (evs ++ evs'). rewrite Hlog', Hlog, app_assoc, requests_app, progresses_app.
  split; [done|]. split; lia.
Qed.

Lemma within_quiet {A : Type} (m : M A) :
  (∀ s, (m s).2 = s) → within 0 m.
Proof. intros H s. rewrite H. no_events. Qed.

Lemma within_weaken {A : Type} (a b : nat) (m : M A) :
  a ≤ b → within a m → within b m.
Proof.
  intros Hab Hm s. destruct (Hm s) as (evs & Hlog & Hreq & Hpro).
  exists evs. split; [done|]. split; [lia | done].
Qed.

Lemma within_get_wikidata_id (o : oracle) (name : json) :
  within 1 (get_wikidata_id o name).
Proof.
  intros s. destruct name as [| | |key| |]; try no_events.
  rewrite get_wikidata_id_str.
  destruct (cache Names s !! key); [no_events|].
  destruct (search_hit _) as [[q|]|e]; cbn [snd]; count_events.
Qed.

Lemma within_enrich_city (o : oracle) (qid : json) : within 1 (enrich_city o qid).
Proof.
  intros s. rewrite enrich_city_run. cbv zeta. cbn [snd].
  destruct (enrich_city_body _ _); count_events.
Qed.

Lemma within_parent_record (o : oracle) (lv : level) (pqid : json) :
  within 1 (parent_record o lv pqid).
Proof.
  intros s. destruct pqid as [| | |key| |]; try no_events.
  rewrite parent_record_str.
  destruct (cache _ s !! key); [no_events|].
  rewrite get_entity_info_run. cbv zeta. cbn [snd].
  destruct (entity_info_body _ _ _); count_events.
Qed.

Lemma within_country_enrichment (o : oracle) (qid : json)
    (info city : gmap string json) :
  within 1 (country_enrichment o qid info city).
Proof.
  unfold country_enrichment.
  destruct (truthy _); [|apply (within_weaken 0); [lia | by apply within_quiet]].
  apply (within_bind 1 0); [apply within_parent_record|]. intros record.
  apply (within_bind 0 0); [|intros ?; by apply within_quiet].
  apply within_quiet. intros s. by destruct (py_get _ _ _).
Qed.

Lemma within_state_enrichment (o : oracle) (info city : gmap string json) :
  within 1 (state_enrichment o info city).
Proof.
  unfold state_enrichment.
  destruct (truthy _); [|apply (within_weaken 0); [lia | by apply within_quiet]].
  apply (within_bind 1 0); [apply within_parent_record|]. intros record.
  by apply within_quiet.
Qed.

(** One pass through the loop body: one record taken up, and at most four
    requests (the search, the city, its country and its state). *)
Lemma process_city_budget (o : oracle) (idx total : nat)
    (city : gmap string json) (s : state) :
  ∃ evs,
    log (fs (process_city o idx total city s).2) = log (fs s) ++ evs ∧
    requests evs ≤ 4 * progresses evs ∧
    progresses evs ≤ 1.
Proof.
  unfold process_city. unfold bind at 1. cbn [py_item].
  destruct (city !! "CityNameEn") as [name|]; cbn [uncaught ret abort];
    [|exists []; rewrite app_nil_r; split; [done|]; cbn; lia].
  unfold bind at 1. unfold emit at 1.
  match goal with |- context [(?m (note ?e s)).2] =>
    assert (within 4 m) as Hrest end.
  { apply (within_bind 1 3); [apply within_get_wikidata_id|]. intros qid.
    destruct (negb (truthy qid)); [apply (within_weaken 0); [lia|by apply within_quiet]|].
    apply (within_bind 1 2); [apply within_enrich_city|]. intros info.
    apply (within_bind 1 1); [apply within_country_enrichment|]. intros city1.
    apply (within_bind 1 0); [apply within_state_enrichment|]. intros city2.
    apply (within_bind 0 0); [|intros _]; intros s0;
      [unfold append_jsonl | unfold emit]; cbn [snd]; count_events. }
  destruct (Hrest (note (EvProgress idx total name) s)) as (evs & Hlog & Hreq & Hpro).
  exists (EvProgress idx total name :: evs).
  rewrite Hlog. autorewrite with st. rewrite <- app_assoc. split; [done|].
  change (requests (EvProgress idx total name :: evs)) with (requests evs).
  change (progresses (EvProgress idx total name :: evs)) with (S (progresses evs)).
  lia.
Qed.

Lemma for_each_budget (o : oracle) (total : nat)
    (to_process : list (gmap string json)) (idx : nat) (s : state) :
  ∃ evs,
    log (fs (for_each o total idx to_process s).2) = log (fs s) ++ evs ∧
    requests evs ≤ 4 * progresses evs ∧
    progresses evs ≤ length to_process.
Proof.
  revert idx s. induction to_process as [|city rest IH]; intros idx s.
  { exists []. rewrite app_nil_r. split; [done|]. cbn. lia. }
  cbn [for_each].
  destruct (process_city_budget o idx total city s) as (evs & Hlog & Hreq & Hpro).
  destruct (process_city o idx total city s) as [[[]| |e|] s1]; cbn [snd] in *;
    try (exists evs; split; [done|]; split; [done | cbn [length]; lia]);
    destruct (IH (S idx) s1) as (evs' & Hlog' & Hreq' & Hpro');
    exists (evs ++ evs');
    rewrite Hlog', Hlog, app_assoc, requests_app, progresses_app;
    (split; [done|]; split; [lia | cbn [length]; lia]).
Qed.

Lemma select_length (items processed : list json)
    (to_process : list (gmap string json)) :
  select items processed = Ok to_process → length to_process ≤ length items.
Proof.
  revert to_process. induction items as [|c items IH]; intros tp Hsel.
  { by injection Hsel as <-. }
  simpl in Hsel.
  apply rbind_ok in Hsel as (name & Hname & Hsel).
  apply rbind_ok in Hsel as (seen & Hseen & Hsel).
  apply rbind_ok in Hsel as (others & Hothers & Hsel).
  specialize (IH _ Hothers).
  destruct c; try done. injection Hsel as <-.
  destruct seen; cbn [length]; lia.
Qed.

(** X11. The request budget.  In every run, each record taken up (each
    progress line) costs at most four requests: the search, the city's
    document, and the documents of its country and its state; and no more
    records are taken up than the input list has.  So a run on an input of
    [n] records makes at most [4 n] requests. *)
Theorem X11_request_budget (o : oracle) (d : disk) :
  ∃ evs,
    extends d (process_entries o d).2 evs ∧
    requests evs ≤ 4 * progresses evs ∧
    ∀ cities, input_file d = Stored (JArr cities) →
              progresses evs ≤ length cities ∧ requests evs ≤ 4 * length cities.
Proof.
  destruct (process_entries_run o d) as [[e H]|H].
  { rewrite H. exists []. unfold extends. rewrite app_nil_r. split; [done|].
    split; [cbn; lia|]. intros cities _. cbn. lia. }
  destruct H as (cities & items & processed & to_process & qids & countries
                 & states & Hload & _ & _ & _ & _ & Hiter & Hsel & H).
  simpl in H. rewrite H. cbn [snd].
  match goal with |- context [for_each o ?t 1 ?tp ?s0] =>
    destruct (for_each_budget o t tp 1 s0) as (evs & Hlog & Hreq & Hpro) end.
  exists (EvProcessing (length to_process) :: evs). unfold extends.
  rewrite Hlog. cbn [fs log with_log]. rewrite <- app_assoc. split; [done|].
  change (requests (EvProcessing (length to_process) :: evs)) with (requests evs).
  change (progresses (EvProcessing (length to_process) :: evs)) with (progresses evs).
  split; [done|]. intros cities' Hin. rewrite Hin in Hload.
  injection Hload as <-. injection Hiter as <-.
  apply select_length in Hsel. lia.
Qed.

(** *** What a run appends *)

(** A ledger that loads has only lines that do not parse and records with
    names that can be hashed. *)
Lemma scan_ledger_lines (lines : list line) (acc processed : list json) :
  scan_ledger lines acc = Ok processed → Forall ledger_line lines.
Proof.
  revert acc. induction lines as [|l lines IH]; intros acc Hscan; [constructor|].
  destruct l as [|v]; simpl in Hscan.
  { constructor; [done | by eapply IH]. }
  apply rbind_ok in Hscan as (name & Hname & Hscan).
  apply rbind_ok in Hscan as (acc' & Hadd & Hscan).
  destruct v as [| | | | |r]; try done. injection Hname as <-.
  constructor; [|by eapply IH]. simpl.
  unfold set_add, set_mem in Hadd.
  change (default JNull (r !! "CityNameEn")) with (field r "CityNameEn") in Hadd.
  by destruct (hashable (field r "CityNameEn")).
Qed.

(** What is selected is in the input, under a name the processed set does
    not have. *)
Lemma select_in (items processed : list json)
    (to_process : list (gmap string json)) (city : gmap string json) :
  select items processed = Ok to_process →
  city ∈ to_process →
  JObj city ∈ items ∧
  ∃ name, city !! "CityNameEn" = Some name ∧
          existsb (py_eqb name) processed = false.
Proof.
  revert to_process. induction items as [|c items IH]; intros tp Hsel Hin.
  { injection Hsel as <-. by apply elem_of_nil in Hin. }
  simpl in Hsel.
  apply rbind_ok in Hsel as (name & Hname & Hsel).
  apply rbind_ok in Hsel as (seen & Hseen & Hsel).
  apply rbind_ok in Hsel as (others & Hothers & Hsel).
  destruct c as [| | | | |m]; try done. injection Hsel as <-.
  unfold set_mem in Hseen. destruct (hashable name); [|done].
  injection Hseen as <-.
  assert (city ∈ others → JObj city ∈ JObj m :: items ∧
            ∃ name, city !! "CityNameEn" = Some name ∧
                    existsb (py_eqb name) processed = false) as Hrest.
  { intros H. destruct (IH _ Hothers H) as [H1 H2]. split; [by right | done]. }
  destruct (existsb (py_eqb name) processed) eqn:He; [by apply Hrest|].
  apply elem_of_cons in Hin as [->|Hin]; [|by apply Hrest].
  split; [left|]. exists name. split; [|done].
  simpl in Hname. by destruct (m !! "CityNameEn") as [v|]; [injection Hname as ->|].
Qed.

(** One pass through the loop body appends one record, under the name of
    the input record, or nothing. *)
Lemma process_city_appends (o : oracle) (idx total : nat)
    (city : gmap string json) (s : state) :
  match process_city o idx total city s with
  | (Next _, s') =>
      ∃ n record,
        city !! "CityNameEn" = Some (JStr n) ∧
        output_file (fs s') =
          Some (lines_of (output_file (fs s)) ++ [Parsed (JObj record)]) ∧
        record !! "CityNameEn" = Some (JStr n)
  | (_, s') => output_file (fs s') = output_file (fs s)
  end.
Proof.
  pose proof (process_city_cases background o
                (λ i t nm s0, background_note _ s0)
                (background_resolve o) (background_enrich o)
                (background_parent o) idx total city s) as Hc.
  destruct (process_city o idx total city s) as [[[]| |e|] s'] eqn:Hp;
    [| |by destruct Hc..].
  - destruct Hc as (name & qid & s1 & info & s2 & city1 & s3 & city2 & s4 & Hname
                    & Hres & Hq & Hen & Hinfo & Hco & Hst & -> & R1 & R2).
    destruct (get_wikidata_id_next _ _ _ _ _ Hres) as [n ->].
    assert (background s s4) as [Hout _] by (by etrans).
    exists n, city2. split; [done|]. split.
    + autorewrite with st. by rewrite Hout.
    + by rewrite (emitted_name _ _ _ _ _ _ _ _ _ _ Hq Hinfo Hco Hst).
  - by destruct Hc as (name & qid & _ & _ & _ & [Hout _]).
Qed.

Lemma for_each_appends (o : oracle) (total : nat)
    (to_process : list (gmap string json)) (idx : nat) (s : state) :
  ∃ new,
    lines_of (output_file (fs (for_each o total idx to_process s).2)) =
      lines_of (output_file (fs s)) ++ new ∧
    Forall (λ l, ∃ r n city,
              l = Parsed (JObj r) ∧ r !! "CityNameEn" = Some (JStr n) ∧
              city ∈ to_process ∧ city !! "CityNameEn" = Some (JStr n)) new.
Proof.
  revert idx s. induction to_process as [|c rest IH]; intros idx s.
  { exists []. by rewrite app_nil_r. }
  cbn [for_each]. pose proof (process_city_appends o idx total c s) as Hstep.
  destruct (process_city o idx total c s) as [[[]| |e|] s1]; cbn [snd];
    try (exists []; by rewrite app_nil_r, Hstep).
  - destruct Hstep as (n & record & Hname & Hout & Hrec).
    destruct (IH (S idx) s1) as (new & Hlines & Hall).
    exists (Parsed (JObj record) :: new). rewrite Hlines, Hout. cbn [lines_of from_option id].
    rewrite <- app_assoc. split; [done|]. constructor.
    + exists record, n, c. repeat split; try done. left.
    + eapply Forall_impl; [exact Hall|]. intros l (r & m & city & -> & Hr & Hin & Hc).
      exists r, m, city. repeat split; try done. by right.
  - destruct (IH (S idx) s1) as (new & Hlines & Hall).
    exists new. rewrite Hlines, Hstep. split; [done|].
    eapply Forall_impl; [exact Hall|]. intros l (r & m & city & -> & Hr & Hin & Hc).
    exists r, m, city. repeat split; try done. by right.
Qed.

(** X12. What a run appends, and what it never touches.  The input file is
    left as it is.  The ledger keeps its lines, and every line a run adds
    is a record under a string name that is the name of a record of the
    input and was the name of no record of the ledger at startup. *)
Theorem X12_appends_only_new_names (o : oracle) (d : disk) (cities : list json) :
  input_file d = Stored (JArr cities) →
  input_file (process_entries o d).2 = input_file d ∧
  ∃ new,
    lines_of (output_file (process_entries o d).2) =
      lines_of (output_file d) ++ new ∧
    Forall (λ l, ∃ r n city,
              l = Parsed (JObj r) ∧ r !! "CityNameEn" = Some (JStr n) ∧
              JObj city ∈ cities ∧ city !! "CityNameEn" = Some (JStr n) ∧
              ∀ l0, l0 ∈ lines_of (output_file d) → line_name l0 ≠ Some n) new.
Proof.
  intros Hin. split; [apply process_entries_input|].
  destruct (process_entries_run o d) as [[e H]|H].
  { rewrite H. exists []. by rewrite app_nil_r. }
  destruct H as (cities' & items & processed & to_process & qids & countries
                 & states & Hload & _ & _ & _ & Hproc & Hiter & Hsel & H).
  simpl in H. rewrite H. cbn [snd]. clear H.
  rewrite Hin in Hload. injection Hload as <-. injection Hiter as <-.
  rewrite load_processed_lines in Hproc.
  pose proof (scan_ledger_lines _ _ _ Hproc) as Hlines.
  destruct (scan_ledger_set _ [] Hlines) as (processed' & Hscan & Hmem & _).
  rewrite Hproc in Hscan. injection Hscan as <-.
  match goal with |- context [for_each o ?t 1 ?tp ?s0] =>
    destruct (for_each_appends o t tp 1 s0) as (new & Hnew & Hall) end.
  exists new. split; [exact Hnew|].
  eapply Forall_impl; [exact Hall|]. intros l (r & n & city & -> & Hr & Hcity & Hname).
  destruct (select_in _ _ _ _ Hsel Hcity) as (Hitem & name & Hname' & Hnot).
  rewrite Hname in Hname'. injection Hname' as <-.
  exists r, n, city. repeat split; try done.
  intros l0 Hl0 Hn. rewrite Hmem in Hnot. cbn [existsb orb] in Hnot.
  assert (existsb (py_eqb (JStr n)) (omap line_key (lines_of (output_file d))) = true)
    as Hyes; [|congruence].
  apply existsb_exists. exists (JStr n). split; [|by apply py_eqb_str].
  apply list_elem_of_In, list_elem_of_omap. exists l0. split; [done|].
  by apply line_key_name.
Qed.

Lemma X12_witness :
  input_file (process_entries demo_oracle demo_disk).2 = input_file demo_disk.
Proof.
  apply (X12_appends_only_new_names demo_oracle demo_disk
           [obj [("CityNameEn", JStr "Testville")]]).
  reflexivity.
Defined.

(** *** More on the startup *)

Lemma select_raise (before after processed : list json) (v : json) (e : exn) :
  Forall (λ x, item_error x = None) before →
  item_error v = Some e →
  select (before ++ v :: after) processed = Raise e.
Proof.
  intros Hbefore Hv. induction Hbefore as [|x before Hx _ IH].
  - cbn [app select]. destruct v as [| | | | |m]; simpl in Hv;
      try (by injection Hv as <-).
    cbn [py_item]. destruct (m !! "CityNameEn") as [name|]; [|by injection Hv as <-].
    cbn [rbind]. unfold set_mem. destruct (hashable name); [done|].
    by injection Hv as <-.
  - cbn [app select]. rewrite IH.
    destruct x as [| | | | |m]; simpl in Hx; try done.
    cbn [py_item]. destruct (m !! "CityNameEn") as [name|]; [|done].
    cbn [rbind]. unfold set_mem. by destruct (hashable name).
Qed.

(** X13. One bad record stops the whole run before it starts.  The records
    to process are selected before the first is taken up, so when any item
    of the input list, even the last, is no object ([TypeError]), has no
    ["CityNameEn"] ([KeyError]) or has a name that cannot be hashed
    ([TypeError]), the process ends with that exception and nothing is
    done: no request, no write. *)
Theorem X13_bad_input_record_aborts (o : oracle) (d : disk)
    (before after : list json) (v : json) (e : exn) :
  input_file d = Stored (JArr (before ++ v :: after)) →
  qid_file d ≠ Corrupt → countries_file d ≠ Corrupt → states_file d ≠ Corrupt →
  Forall ledger_line (lines_of (output_file d)) →
  Forall (λ x, item_error x = None) before →
  item_error v = Some e →
  process_entries o d = (Crashed e, d).
Proof.
  intros Hin Hq Hc Hs Hlines Hbefore Hv.
  unfold process_entries.
  rewrite Hin, !load_json_parses, load_processed_lines by done.
  cbn [load_input rbind].
  destruct (scan_ledger_set _ [] Hlines) as (processed & -> & _).
  cbn [rbind py_iter]. by rewrite (select_raise before after processed v e).
Qed.

Lemma X13_witness :
  process_entries demo_oracle nameless_disk = (Crashed KeyError, nameless_disk).
Proof.
  apply (X13_bad_input_record_aborts demo_oracle nameless_disk
           [obj [("CityNameEn", JStr "Testville")]] [] (obj [("Mayor", JStr "Ada")]));
    try done.
  by repeat constructor.
Defined.

(** *** The ledger after a run *)

(** With a fixed oracle: a record is emitted when the answer for its name
    is a true value, skipped when it is a false one. *)
Lemma process_city_answer (o : oracle) (idx total : nat)
    (city : gmap string json) (s : state) :
  fixed o →
  match process_city o idx total city s with
  | (Next _, s') =>
      ∃ n record,
        emitted_as o (cache Names s) city = Some n ∧
        steady o s s' ∧
        output_file (fs s') =
          Some (lines_of (output_file (fs s)) ++ [Parsed (JObj record)]) ∧
        line_name (Parsed (JObj record)) = Some n
  | (Continue, s') =>
      emitted_as o (cache Names s) city = None ∧ calm o s s'
  | _ => True
  end.
Proof.
  intros Hfix.
  pose proof (process_city_cases (calm o) o
                (λ i t nm s0, conj (steady_progress o i t nm s0) (background_note _ s0))
                (λ key s0, conj (steady_resolve o key s0 Hfix) (background_resolve o key s0))
                (λ qid s0, conj (steady_enrich o qid s0) (background_enrich o qid s0))
                (λ lv key s0, conj (steady_parent o lv key s0 Hfix) (background_parent o lv key s0))
                idx total city s) as Hc.
  destruct (process_city o idx total city s) as [[[]| |e|] s'] eqn:Hp; [| |done..].
  - destruct Hc as (name & qid & s1 & info & s2 & city1 & s3 & city2 & s4 & Hname
                    & Hres & Hq & Hen & Hinfo & Hco & Hst & -> & R1 & R2).
    destruct (get_wikidata_id_next _ _ _ _ _ Hres) as [n ->].
    pose proof (get_wikidata_id_answer o n (note (EvProgress idx total (JStr n)) s)
                  Hfix) as Ha.
    rewrite Hres in Ha. simpl in Ha. injection Ha as ->.
    autorewrite with st in Hq.
    assert (calm o s s4) as [Hsteady [Hout _]] by (by etrans).
    exists n, city2. split; [|split; [|split]].
    + unfold emitted_as. by rewrite Hname, Hq.
    + etrans; [exact Hsteady | apply steady_emit].
    + autorewrite with st. by rewrite Hout.
    + cbn [line_name].
      by rewrite (emitted_name _ _ _ _ _ _ _ _ _ _ Hq Hinfo Hco Hst), Hname.
  - destruct Hc as (name & qid & Hname & Hres & Hq & Hcalm).
    destruct (get_wikidata_id_next _ _ _ _ _ Hres) as [n ->].
    pose proof (get_wikidata_id_answer o n (note (EvProgress idx total (JStr n)) s)
                  Hfix) as Ha.
    rewrite Hres in Ha. simpl in Ha. injection Ha as ->.
    autorewrite with st in Hq. split; [|done].
    unfold emitted_as. by rewrite Hname, Hq.
Qed.

Lemma emitted_as_agree (o : oracle) (s s' : state) (city : gmap string json) :
  agree o s s' →
  emitted_as o (cache Names s') city = emitted_as o (cache Names s) city.
Proof.
  intros [Ha _]. unfold emitted_as.
  destruct (city !! "CityNameEn") as [[| | |n| |]|]; try done. by rewrite Ha.
Qed.

Lemma list_omap_same {A B : Type} (f g : A → option B) (l : list A) :
  (∀ x, f x = g x) → omap f l = omap g l.
Proof.
  intros H. induction l as [|x l IH]; [done|].
  cbn [omap list_omap]. by rewrite H, IH.
Qed.

Lemma for_each_names (o : oracle) (total : nat)
    (to_process : list (gmap string json)) (idx : nat) (s : state) :
  fixed o →
  (for_each o total idx to_process s).1 = Done →
  ∃ new,
    lines_of (output_file (fs (for_each o total idx to_process s).2)) =
      lines_of (output_file (fs s)) ++ new ∧
    Forall (λ l, is_Some (line_name l)) new ∧
    omap line_name new = omap (emitted_as o (cache Names s)) to_process.
Proof.
  intros Hfix. revert idx s.
  induction to_process as [|c rest IH]; intros idx s Hdone.
  { exists []. by rewrite app_nil_r. }
  cbn [for_each] in Hdone |- *.
  pose proof (process_city_answer o idx total c s Hfix) as Hstep.
  destruct (process_city o idx total c s) as [[[]| |e|] s1]; try done.
  - destruct Hstep as (n & record & Hem & Hsteady & Hout & Hrec).
    destruct (IH (S idx) s1 Hdone) as (new & Hlines & Hall & Hnames).
    exists (Parsed (JObj record) :: new). rewrite Hlines, Hout.
    cbn [lines_of from_option id]. rewrite <- app_assoc. split; [done|].
    split; [constructor; [by exists n | done]|].
    cbn [omap list_omap]. rewrite Hrec, Hem, Hnames. f_equal.
    apply list_omap_same. intros city.
    by apply emitted_as_agree, agree_steady.
  - destruct Hstep as (Hem & Hsteady & Hout & _).
    destruct (IH (S idx) s1 Hdone) as (new & Hlines & Hall & Hnames).
    exists new. rewrite Hlines, Hout. split; [done|]. split; [done|].
    cbn [omap list_omap]. rewrite Hem, Hnames.
    apply list_omap_same. intros city.
    by apply emitted_as_agree, agree_steady.
Qed.

(** The selection is the filter the list comprehension says. *)
Lemma select_filter (items processed : list json) (lines : list line)
    (to_process : list (gmap string json)) :
  select items processed = Ok to_process →
  (∀ x, existsb (py_eqb x) processed = existsb (py_eqb x) (omap line_key lines)) →
  to_process =
    List.filter (λ city, negb (in_ledger lines city)) (records_of items).
Proof.
  intros Hsel Hmem. revert to_process Hsel.
  induction items as [|c items IH]; intros tp Hsel.
  { by injection Hsel as <-. }
  simpl in Hsel.
  apply rbind_ok in Hsel as (name & Hname & Hsel).
  apply rbind_ok in Hsel as (seen & Hseen & Hsel).
  apply rbind_ok in Hsel as (others & Hothers & Hsel).
  specialize (IH _ Hothers).
  destruct c as [| | | | |m]; try done. injection Hsel as <-.
  unfold set_mem in Hseen. destruct (hashable name); [|done].
  injection Hseen as <-.
  cbn [records_of omap list_omap List.filter]. fold (records_of items).
  unfold in_ledger at 1, field.
  simpl in Hname. destruct (m !! "CityNameEn") as [v|]; [|done].
  injection Hname as ->. cbn [from_option id]. rewrite <- Hmem.
  destruct (existsb (py_eqb name) processed); cbn [negb]; by rewrite IH.
Qed.

(** X14. The ledger after a run.  With an oracle whose answers do not
    change, a run that ends normally adds to the ledger exactly one record
    for each record of the input whose name is not in the ledger at startup
    and has a true answer from the resolver, in the order of the input, and
    under that name.  A name that is twice in the input is emitted twice:
    the processed set is read once, at startup. *)
Theorem X14_ledger_after_a_run (o : oracle) (d : disk) (cities : list json) :
  fixed o →
  input_file d = Stored (JArr cities) →
  (process_entries o d).1 = Done →
  ∃ new,
    lines_of (output_file (process_entries o d).2) =
      lines_of (output_file d) ++ new ∧
    Forall (λ l, is_Some (line_name l)) new ∧
    omap line_name new = expected_names o d cities.
Proof.
  intros Hfix Hin Hdone.
  destruct (process_entries_run o d) as [[e H]|H].
  { by rewrite H in Hdone. }
  destruct H as (cities' & items & processed & to_process & qids & countries
                 & states & Hload & Hq & _ & _ & Hproc & Hiter & Hsel & H).
  simpl in H. rewrite H in Hdone |- *. cbn [fst snd] in *. clear H.
  rewrite Hin in Hload. injection Hload as <-. injection Hiter as <-.
  apply load_json_ok in Hq. subst qids.
  rewrite load_processed_lines in Hproc.
  pose proof (scan_ledger_lines _ _ _ Hproc) as Hlines.
  destruct (scan_ledger_set _ [] Hlines) as (processed' & Hscan & Hmem & _).
  rewrite Hproc in Hscan. injection Hscan as <-.
  rewrite (select_filter _ _ _ _ Hsel Hmem) in Hdone |- *.
  match goal with |- context [for_each o ?t 1 ?tp ?s0] =>
    destruct (for_each_names o t tp 1 s0 Hfix Hdone) as (new & Hnew & Hall & Hnames)
  end.
  exists new. split; [exact Hnew|]. split; [exact Hall|]. exact Hnames.
Qed.

Lemma X14_witness :
  ∃ new,
    lines_of (output_file (process_entries demo_oracle twice_disk).2) = [] ++ new ∧
    omap line_name new =
      expected_names demo_oracle twice_disk
        [obj [("CityNameEn", JStr "Testville")];
         obj [("CityNameEn", JStr "Nowhere")];
         obj [("CityNameEn", JStr "Testville"); ("Mayor", JStr "Ada")]].
Proof.
  destruct (X14_ledger_after_a_run demo_oracle twice_disk
              [obj [("CityNameEn", JStr "Testville")];
               obj [("CityNameEn", JStr "Nowhere")];
               obj [("CityNameEn", JStr "Testville"); ("Mayor", JStr "Ada")]])
    as (new & Hlines & _ & Hnames).
  - split; intros; reflexivity.
  - reflexivity.
  - vm_compute. reflexivity.
  - exists new. split; [exact Hlines | exact Hnames].
Defined.

(** Testville is expected twice, and Nowhere not at all. *)
Example expected_names_twice :
  expected_names demo_oracle twice_disk
    [obj [("CityNameEn", JStr "Testville")];
     obj [("CityNameEn", JStr "Nowhere")];
     obj [("CityNameEn", JStr "Testville"); ("Mayor", JStr "Ada")]]
  = ["Testville"; "Testville"].
Proof. vm_compute. reflexivity. Qed.

(** *** What is searched *)

Ltac silent := exists []; rewrite app_nil_r; split; [done | constructor].

Lemma emits_only_bind {A B : Type} (P : event → Prop) (m : M A) (k : A → M B) :
  emits_only P m → (∀ x, emits_only P (k x)) → emits_only P (bind m k).
Proof.
  intros Hm Hk s. unfold bind. destruct (Hm s) as (evs & Hlog & Hall).
  destruct (m s) as [[x| |e|] s1]; simpl in *; try by exists evs.
  destruct (Hk x s1) as (evs' & Hlog' & Hall').
  exists (evs ++ evs'). rewrite Hlog', Hlog, app_assoc. split; [done|].
  by apply Forall_app.
Qed.

Lemma emits_only_quiet {A : Type} (P : event → Prop) (m : M A) :
  (∀ s, (m s).2 = s) → emits_only P m.
Proof. intros H s. rewrite H. silent. Qed.

Lemma emits_only_ret_bind {A B : Type} (P : event → Prop) (a : A) (k : A → M B) :
  emits_only P (k a) → emits_only P (bind (ret a) k).
Proof. intros H s. exact (H s). Qed.

Ltac list_events :=
  autorewrite with st; rewrite <- ?app_assoc;
  eexists; split; [reflexivity | repeat constructor; try done].

Lemma emits_only_parent_record (city : gmap string json) (o : oracle)
    (lv : level) (pqid : json) :
  emits_only (search_for city) (parent_record o lv pqid).
Proof.
  intros s. destruct pqid as [| | |key| |];
    try (silent).
  rewrite parent_record_str.
  destruct (cache _ s !! key); [silent|].
  rewrite get_entity_info_run. cbv zeta. cbn [snd].
  destruct (entity_info_body _ _ _); list_events.
Qed.

(** Whatever the loop body searches for is the name of its record. *)
Lemma emits_only_process_city (o : oracle) (idx total : nat)
    (city : gmap string json) :
  emits_only (search_for city) (process_city o idx total city).
Proof.
  unfold process_city. cbn [py_item].
  destruct (city !! "CityNameEn") as [name|] eqn:Hname;
    [|by apply emits_only_quiet].
  cbn [uncaught]. apply emits_only_ret_bind.
  apply emits_only_bind; [intros s; unfold emit; cbn [snd]; list_events|].
  intros _. apply emits_only_bind.
  { intros s. destruct name as [| | |key| |];
      try (silent).
    rewrite get_wikidata_id_str.
    destruct (cache Names s !! key); [silent|].
    destruct (search_hit _) as [[q|]|e]; cbn [snd]; list_events;
      by intros n [= <-]. }
  intros qid. destruct (negb (truthy qid)); [by apply emits_only_quiet|].
  apply emits_only_bind.
  { intros s. rewrite enrich_city_run. cbv zeta. cbn [snd].
    destruct (enrich_city_body _ _); list_events. }
  intros info. apply emits_only_bind.
  { unfold country_enrichment. destruct (truthy _); [|by apply emits_only_quiet].
    apply emits_only_bind; [apply emits_only_parent_record|]. intros record.
    apply emits_only_bind; [|intros ?; by apply emits_only_quiet].
    apply emits_only_quiet. intros s. by destruct (py_get _ _ _). }
  intros city1. apply emits_only_bind.
  { unfold state_enrichment. destruct (truthy _); [|by apply emits_only_quiet].
    apply emits_only_bind; [apply emits_only_parent_record|]. intros record.
    by apply emits_only_quiet. }
  intros city2. apply emits_only_bind; [|intros _]; intros s;
    [unfold append_jsonl | unfold emit]; cbn [snd]; list_events.
Qed.

Lemma for_each_searches (o : oracle) (total : nat)
    (to_process : list (gmap string json)) (idx : nat) (s : state) :
  ∃ evs,
    log (fs (for_each o total idx to_process s).2) = log (fs s) ++ evs ∧
    ∀ n, EvSearch n ∈ evs →
         ∃ city, city ∈ to_process ∧ city !! "CityNameEn" = Some (JStr n).
Proof.
  revert idx s. induction to_process as [|c rest IH]; intros idx s.
  { exists []. rewrite app_nil_r. split; [done|].
    intros n Hn. by apply elem_of_nil in Hn. }
  cbn [for_each].
  destruct (emits_only_process_city o idx total c s) as (evs & Hlog & Hall).
  assert (∀ n, EvSearch n ∈ evs →
               ∃ city, city ∈ c :: rest ∧ city !! "CityNameEn" = Some (JStr n))
    as Hhere.
  { intros n Hn. rewrite Forall_forall in Hall. exists c.
    split; [left | by apply (Hall _ Hn)]. }
  destruct (process_city o idx total c s) as [[[]| |e|] s1]; cbn [snd] in *;
    try (by exists evs);
    destruct (IH (S idx) s1) as (evs' & Hlog' & Hthere);
    exists (evs ++ evs'); rewrite Hlog', Hlog, app_assoc; (split; [done|]);
    intros n [Hn|Hn]%elem_of_app; try (by apply Hhere);
    destruct (Hthere n Hn) as (city & Hin & Hname); exists city;
    (split; [by right | done]).
Qed.

Lemma process_entries_searches (o : oracle) (d : disk) (cities : list json) :
  input_file d = Stored (JArr cities) →
  ∃ evs,
    log (process_entries o d).2 = log d ++ evs ∧
    ∀ n, EvSearch n ∈ evs →
      (∃ city, JObj city ∈ cities ∧ city !! "CityNameEn" = Some (JStr n)) ∧
      (∀ l, l ∈ lines_of (output_file d) → line_name l ≠ Some n).
Proof.
  intros Hin. destruct (process_entries_run o d) as [[e H]|H].
  { rewrite H. exists []. rewrite app_nil_r. split; [done|].
    intros n Hn. by apply elem_of_nil in Hn. }
  destruct H as (cities' & items & processed & to_process & qids & countries
                 & states & Hload & _ & _ & _ & Hproc & Hiter & Hsel & H).
  simpl in H. rewrite H. cbn [snd]. clear H.
  rewrite Hin in Hload. injection Hload as <-. injection Hiter as <-.
  rewrite load_processed_lines in Hproc.
  pose proof (scan_ledger_lines _ _ _ Hproc) as Hlines.
  destruct (scan_ledger_set _ [] Hlines) as (processed' & Hscan & Hmem & _).
  rewrite Hproc in Hscan. injection Hscan as <-.
  match goal with |- context [for_each o ?t 1 ?tp ?s0] =>
    destruct (for_each_searches o t tp 1 s0) as (evs & Hlog & Hsearch) end.
  exists (EvProcessing (length to_process) :: evs).
  rewrite Hlog. cbn [fs log with_log]. rewrite <- app_assoc. split; [done|].
  intros n [?|Hn]%elem_of_cons; [done|].
  destruct (Hsearch n Hn) as (city & Hcity & Hname).
  destruct (select_in _ _ _ _ Hsel Hcity) as (Hitem & name & Hname' & Hnot).
  split; [by exists city|].
  rewrite Hname in Hname'. injection Hname' as <-.
  intros l0 Hl0 Hn0. rewrite Hmem in Hnot. cbn [existsb orb] in Hnot.
  assert (existsb (py_eqb (JStr n)) (omap line_key (lines_of (output_file d))) = true)
    as Hyes; [|congruence].
  apply existsb_exists. exists (JStr n). split; [|by apply py_eqb_str].
  apply list_elem_of_In, list_elem_of_omap. exists l0. split; [done|].
  by apply line_key_name.
Qed.

(** X15. No request is spent on a record that is done.  Every search of a
    run is for the name of a record of the input that is not in the ledger
    at startup, and that the cache of names, as the run found it, lacks. *)
Theorem X15_searches_only_for_new_names (o : oracle) (d : disk)
    (cities : list json) :
  input_file d = Stored (JArr cities) →
  ∃ evs,
    extends d (process_entries o d).2 evs ∧
    ∀ n, EvSearch n ∈ evs →
      (∃ city, JObj city ∈ cities ∧ city !! "CityNameEn" = Some (JStr n)) ∧
      (∀ l, l ∈ lines_of (output_file d) → line_name l ≠ Some n) ∧
      file_content (qid_file d) !! n = None.
Proof.
  intros Hin.
  destruct (process_entries_searches o d cities Hin) as (evs & Hlog & Hsearch).
  destruct (process_entries_tracks o d) as (evs' & Hlog' & Hresp & _).
  rewrite Hlog in Hlog'. apply app_inv_head in Hlog'. subst evs'.
  exists evs. split; [exact Hlog|]. intros n Hn.
  destruct (Hsearch n Hn) as [Hcity Hledger]. split; [done|]. split; [done|].
  destruct (file_content (qid_file d) !! n) as [q|] eqn:Hq; [|done].
  destruct (respects_no_search (stored d) evs n Hresp); [by exists q | done].
Qed.

Lemma X15_witness :
  ∃ evs, extends demo_disk (process_entries demo_oracle demo_disk).2 evs.
Proof.
  destruct (X15_searches_only_for_new_names demo_oracle demo_disk
              [obj [("CityNameEn", JStr "Testville")]]) as (evs & Hlog & _).
  - reflexivity.
  - exists evs. exact Hlog.
Defined.

Lemma select_raise_head (after processed : list json) (v : json) (e : exn) :
  item_error v = Some e → select (v :: after) processed = Raise e.
Proof. intros Hv. by apply (select_raise [] after processed v e). Qed.

(** X16. An input that is not a list.  When the input file parses to
    anything but a list, the process ends at startup with [TypeError] and
    nothing done: a number, a boolean or [null] cannot be iterated, and
    the keys of an object and the characters of a string cannot be indexed
    by ["CityNameEn"].  Only the empty object and the empty string pass,
    as an empty input. *)
Theorem X16_input_must_be_a_list (o : oracle) (d : disk) (v : json) :
  input_file d = Stored v →
  (∀ l, v ≠ JArr l) →
  qid_file d ≠ Corrupt → countries_file d ≠ Corrupt → states_file d ≠ Corrupt →
  Forall ledger_line (lines_of (output_file d)) →
  process_entries o d =
    if nothing_to_iterate v
    then (Done, with_log (λ l, l ++ [EvProcessing 0]) d)
    else (Crashed TypeError, d).
Proof.
  intros Hin Hv Hq Hc Hs Hlines.
  unfold process_entries.
  rewrite Hin, !load_json_parses, load_processed_lines by done.
  cbn [load_input rbind].
  destruct (scan_ledger_set _ [] Hlines) as (processed & -> & _).
  cbn [rbind]. destruct v as [| | |s|l|m]; try done.
  - destruct s as [|c s]; [done|]. cbn [py_iter nothing_to_iterate String.eqb rbind].
    cbn [String.list_ascii_of_string fmap list_fmap].
    by rewrite (select_raise_head _ processed _ TypeError).
  - by destruct (Hv l).
  - cbn [py_iter nothing_to_iterate rbind].
    destruct (map_to_list m) as [|[k x] rest] eqn:Hm.
    + apply map_to_list_empty_iff in Hm as ->. by rewrite bool_decide_eq_true_2.
    + rewrite bool_decide_eq_false_2.
      * cbn [fmap list_fmap fst]. by rewrite (select_raise_head _ processed _ TypeError).
      * intros ->. by rewrite map_to_list_empty in Hm.
Qed.

Lemma X16_witness :
  process_entries demo_oracle bare_disk = (Crashed TypeError, bare_disk).
Proof.
  apply (X16_input_must_be_a_list demo_oracle bare_disk
           (obj [("CityNameEn", JStr "Testville")])); done.
Defined.

(** *** Detail fetches that fail *)

(** Deleting a property from the claims: it is read as [None]. *)
Lemma get_claim_delete (m : gmap string json) (p q : string) :
  get_claim (JObj (delete p m)) q =
    if decide (q = p) then Ok JNull else get_claim (JObj m) q.
Proof.
  unfold get_claim. cbn [py_get rbind].
  destruct (decide (q = p)) as [->|Hne].
  - by rewrite lookup_delete_eq.
  - by rewrite lookup_delete_ne.
Qed.

Lemma city_reads_delete (labels : json) (m : gmap string json) (p : string) :
  city_reads labels (JObj m) = true → city_reads labels (JObj (delete p m)) = true.
Proof.
  unfold city_reads, claim_id, claim_coordinate, claim_population.
  rewrite !get_claim_delete, !andb_true_iff.
  intros ((((((H1 & H2) & H3) & H4) & H5) & H6) & H7).
  repeat split; try done; by case_decide.
Qed.

Lemma parent_reads_delete (lv : level) (labels : json) (m : gmap string json)
    (p : string) :
  parent_reads lv labels (JObj m) = true →
  parent_reads lv labels (JObj (delete p m)) = true.
Proof.
  unfold parent_reads. rewrite !get_claim_delete, !andb_true_iff.
  intros (((H1 & H2) & H3) & H4).
  repeat split; try done; by case_decide.
Qed.

Lemma enrich_city_body_reads (r : option json) (qid labels claims : json) :
  entity_parts r qid = Ok (labels, claims) →
  is_ok (enrich_city_body r qid) = city_reads labels claims.
Proof.
  intros H. unfold enrich_city_body, city_reads. rewrite H. cbn [rbind fst snd].
  destruct (label labels "ar"); cbn [rbind is_ok andb]; [|done].
  destruct (claim_id claims "P17"); cbn [rbind is_ok andb]; [|done].
  destruct (claim_id claims "P131"); cbn [rbind is_ok andb]; [|done].
  destruct (claim_coordinate claims "latitude"); cbn [rbind is_ok andb]; [|done].
  destruct (claim_coordinate claims "longitude"); cbn [rbind is_ok andb]; [|done].
  destruct (claim_population claims); cbn [rbind is_ok andb]; [|done].
  by destruct (get_claim claims "P300").
Qed.

Lemma entity_info_body_reads (r : option json) (qid labels claims : json)
    (lv : level) :
  entity_parts r qid = Ok (labels, claims) →
  is_ok (entity_info_body r qid lv) = parent_reads lv labels claims.
Proof.
  intros H. unfold entity_info_body, parent_reads. rewrite H. cbn [rbind fst snd].
  destruct (label labels "en"); cbn [rbind is_ok andb]; [|done].
  destruct (label labels "ar"); cbn [rbind is_ok andb]; [|done].
  destruct lv; cbn [code_property link_property].
  - destruct (get_claim claims "P297"); cbn [rbind is_ok andb]; [|done].
    destruct (get_claim claims "P36") as [c|]; cbn [rbind is_ok andb]; [|done].
    by destruct c.
  - destruct (get_claim claims "P300"); cbn [rbind is_ok andb]; [|done].
    destruct (get_claim claims "P17") as [c|]; cbn [rbind is_ok andb]; [|done].
    by destruct c.
Qed.

Lemma is_ok_caught (r : result (gmap string json)) :
  is_ok r = false → caught r = ∅.
Proof. by destruct r. Qed.

Lemma enrich_city_body_keys (r : option json) (qid : json) (info : gmap string json) :
  enrich_city_body r qid = Ok info → dom info = city_keys.
Proof.
  intros Hb. unfold enrich_city_body in Hb. rinv Hb. subst info.
  rewrite !dom_insert_L, dom_empty_L. unfold city_keys. set_solver.
Qed.

Lemma entity_info_body_keys (r : option json) (qid : json) (lv : level)
    (info : gmap string json) :
  entity_info_body r qid lv = Ok info →
  info !! (level_name lv +:+ "QID") = Some qid ∧
  required_keys lv ⊆ dom info ∧
  dom info ⊆ required_keys lv ∪ {[optional_key lv]}.
Proof.
  intros Hb.
  split; [|split];
    unfold entity_info_body in Hb; destruct lv; rinv Hb; subst info;
    cbn [level_name String.append optional_key required_keys];
    rewrite ?dom_insert_L, ?dom_empty_L;
    try set_solver; by simplify_map_eq.
Qed.

Lemma entity_info_body_lacks (r : option json) (qid labels : json)
    (claims info : gmap string json) (lv : level) :
  entity_info_body r qid lv = Ok info →
  entity_parts r qid = Ok (labels, JObj claims) →
  (claims !! code_property lv = None → info !! code_key lv = Some JNull) ∧
  (claims !! link_property lv = None → info !! optional_key lv = None).
Proof.
  unfold entity_info_body. intros H Hparts.
  rewrite Hparts in H. cbn [rbind fst snd] in H.
  apply rbind_ok in H as (en & _ & H). apply rbind_ok in H as (ar & _ & H).
  destruct lv; cbn [code_property code_key link_property optional_key level_name
                      String.append] in *;
    apply rbind_ok in H as (iso & Hiso & H);
    apply rbind_ok in H as (link & Hlink & H); split; intros Hp.
  - rewrite get_claim_missing in Hiso by done. injection Hiso as <-.
    destruct (is_dict link); rinv H; subst info; by simplify_map_eq.
  - rewrite get_claim_missing in Hlink by done. injection Hlink as <-.
    cbn in H. injection H as <-. by simplify_map_eq.
  - rewrite get_claim_missing in Hiso by done. injection Hiso as <-.
    destruct (is_dict link); rinv H; subst info; by simplify_map_eq.
  - rewrite get_claim_missing in Hlink by done. injection Hlink as <-.
    cbn in H. injection H as <-. by simplify_map_eq.
Qed.

(** The record appended when the city's fetch failed. *)
Lemma process_city_lost (o : oracle) (idx total : nat)
    (city : gmap string json) (n : string) (s s1 : state) (qid : json) (e : exn) :
  city !! "CityNameEn" = Some (JStr n) →
  get_wikidata_id o (JStr n) (note (EvProgress idx total (JStr n)) s) = (Next qid, s1) →
  truthy qid = true →
  enrich_city_body (entity o (now s1) qid) qid = Raise e →
  process_city o idx total city s =
    (Next (),
     note (EvSleep 1)
       (appended (<["IsCapital" := JBool false]> city)
          (note (EvError "Error enriching city") (note (EvCity qid) s1)))).
Proof.
  intros Hname Hres Hq Hbody.
  unfold process_city, bind. cbn [py_item]. rewrite Hname.
  cbn [uncaught ret]. unfold emit. rewrite Hres, Hq. cbn [negb].
  rewrite enrich_city_run, Hbody. cbv zeta. cbn [caught].
  unfold country_enrichment, state_enrichment, field.
  rewrite !lookup_empty. cbn [from_option id truthy ret].
  rewrite (left_id_L ∅ (∪)). reflexivity.
Qed.

(** C9, as the code has it.  Graceful degradation of the detail fetch.

    Whatever the oracle answers, [enrich_city] and [get_entity_info] return
    a record and raise nothing.  The record is empty when the request
    fails, when the document has no labels and claims to read, and when one
    of the expressions of the record raises ([city_reads], [parent_reads]
    false).  Otherwise it is the full record: for a city the seven keys
    [city_keys], and a field whose property the claims lack is there with
    [None] for its value; for a country or a state the identifier asked
    for, the keys [required_keys] and at most [optional_key], the code is
    there with [None] when the claims lack its property, and the key of the
    capital (of the country, for a state) is not there when the claims lack
    its property.  A document that reads still reads with a property
    deleted.

    The record appended for a city has every field of the city record with
    its value, [None] included; when the city record is empty it is the
    caller's record with [IsCapital] false added, so the fields the caller
    gave are kept; and the details of a parent the city record names are
    the record the cache of its level holds.  After the record is appended
    the loop goes on with the next record, and a city whose fetch fails is
    appended and the loop goes on. *)
Theorem C9_graceful_degradation (o : oracle) (qid : json) (s : state) :
  (∃ info,
     (enrich_city o qid s).1 = Next info ∧
     (entity o (now s) qid = None → info = ∅) ∧
     (∀ e, entity_parts (entity o (now s) qid) qid = Raise e → info = ∅) ∧
     (∀ labels claims,
        entity_parts (entity o (now s) qid) qid = Ok (labels, claims) →
        if city_reads labels claims
        then dom info = city_keys ∧
             ∀ m f p, claims = JObj m → (f, p) ∈ city_fields → m !! p = None →
                      info !! f = Some JNull
        else info = ∅)) ∧
  (∀ lv, ∃ info,
     (get_entity_info o qid lv s).1 = Next info ∧
     (entity o (now s) qid = None → info = ∅) ∧
     (∀ e, entity_parts (entity o (now s) qid) qid = Raise e → info = ∅) ∧
     (∀ labels claims,
        entity_parts (entity o (now s) qid) qid = Ok (labels, claims) →
        if parent_reads lv labels claims
        then info !! (level_name lv +:+ "QID") = Some qid ∧
             required_keys lv ⊆ dom info ∧
             dom info ⊆ required_keys lv ∪ {[optional_key lv]} ∧
             ∀ m, claims = JObj m →
                  (m !! code_property lv = None → info !! code_key lv = Some JNull) ∧
                  (m !! link_property lv = None → info !! optional_key lv = None)
        else info = ∅)) ∧
  (∀ labels m p,
     (city_reads labels (JObj m) = true →
      city_reads labels (JObj (delete p m)) = true) ∧
     (∀ lv, parent_reads lv labels (JObj m) = true →
            parent_reads lv labels (JObj (delete p m)) = true)) ∧
  (∀ idx total city rest s0 s',
     process_city o idx total city s0 = (Next (), s') →
     (∃ record name q s1 info,
        output_file (fs s') =
          Some (lines_of (output_file (fs s0)) ++ [Parsed (JObj record)]) ∧
        get_wikidata_id o name (note (EvProgress idx total name) s0) = (Next q, s1) ∧
        (enrich_city o q s1).1 = Next info ∧
        (∀ f v, info !! f = Some v → record !! f = Some v) ∧
        (info = ∅ → record = <["IsCapital" := JBool false]> city) ∧
        (∀ lv, truthy (field info (parent_field lv)) = true →
               ∃ key parent,
                 field info (parent_field lv) = JStr key ∧
                 cache (domain_of lv) s' !! key = Some parent ∧
                 record !! details_field lv = Some parent)) ∧
     for_each o total idx (city :: rest) s0 = for_each o total (S idx) rest s') ∧
  (∀ idx total city n rest s0 s1 q e,
     city !! "CityNameEn" = Some (JStr n) →
     get_wikidata_id o (JStr n) (note (EvProgress idx total (JStr n)) s0) = (Next q, s1) →
     truthy q = true →
     enrich_city_body (entity o (now s1) q) q = Raise e →
     ∃ s',
       process_city o idx total city s0 = (Next (), s') ∧
       output_file (fs s') =
         Some (lines_of (output_file (fs s1)) ++
               [Parsed (JObj (<["IsCapital" := JBool false]> city))]) ∧
       for_each o total idx (city :: rest) s0 = for_each o total (S idx) rest s').
Proof.
  split; [|split; [|split; [|split]]].
  - exists (caught (enrich_city_body (entity o (now s) qid) qid)).
    rewrite enrich_city_run. split; [done|]. split; [|split].
    + intros ->. done.
    + intros e He. unfold enrich_city_body. by rewrite He.
    + intros labels claims Hparts.
      rewrite <- (enrich_city_body_reads _ _ _ _ Hparts).
      destruct (enrich_city_body _ _) as [info|e] eqn:Hbody; cbn [is_ok caught]; [|done].
      split; [by eapply enrich_city_body_keys|].
      intros m f p -> Hin Hp. by eapply enrich_city_body_missing.
  - intros lv. exists (caught (entity_info_body (entity o (now s) qid) qid lv)).
    rewrite get_entity_info_run. split; [done|]. split; [|split].
    + intros ->. done.
    + intros e He. unfold entity_info_body. by rewrite He.
    + intros labels claims Hparts.
      rewrite <- (entity_info_body_reads _ _ _ _ lv Hparts).
      destruct (entity_info_body _ _ _) as [info|e] eqn:Hbody; cbn [is_ok caught]; [|done].
      destruct (entity_info_body_keys _ _ _ _ Hbody) as (H1 & H2 & H3).
      repeat (split; [done|]).
      intros m ->. by eapply entity_info_body_lacks.
  - intros labels m p. split; [apply city_reads_delete|].
    intros lv. apply parent_reads_delete.
  - intros idx total city rest s0 s' Hrun. split; [|simpl; by rewrite Hrun].
    pose proof (process_city_cases background o
                  (λ i t nm s0, background_note _ s0)
                  (background_resolve o) (background_enrich o)
                  (background_parent o) idx total city s0) as Hc.
    rewrite Hrun in Hc.
    destruct Hc as (name & q & s1 & info & s2 & city1 & s3 & city2 & s4 & Hname
                    & Hres & Hq & Hen & Hinfo & Hco & Hst & -> & [Hout _] & _).
    assert (output_file (fs s4) = output_file (fs s0)) as Hout4.
    { pose proof (preserves_get_wikidata_id background o (background_resolve o) name
                    (note (EvProgress idx total name) s0)) as [H1 _].
      rewrite Hres in H1. simpl in H1.
      pose proof (background_enrich o q s1) as [H2 _]. rewrite Hen in H2.
      pose proof (preserves_country_enrichment background o (background_parent o)
                    q info (info ∪ city) s2) as [H3 _]. rewrite Hco in H3.
      pose proof (preserves_state_enrichment background o (background_parent o)
                    info city1 s3) as [H4 _]. rewrite Hst in H4.
      simpl in *. congruence. }
    destruct (country_enrichment_next _ _ _ _ _ _ _ Hq Hco) as (Hk1 & _ & _).
    destruct (state_enrichment_next _ _ _ _ _ _ Hst) as [Hkeep Hcache].
    exists city2, name, q, s1, info.
    split; [autorewrite with st; by rewrite Hout4|].
    split; [done|].
    split; [rewrite enrich_city_run; simpl; by rewrite Hinfo|].
    split; [|split].
    + intros f v Hv.
      assert (f ∉ ["CityNameEn"; "IsCapital"; "CountryDetails"; "StateDetails"]) as Hf.
      { intros Hf. subst info. rewrite caught_enrich_city_body in Hv by done. done. }
      rewrite !not_elem_of_cons in Hf. destruct Hf as (_ & ? & ? & ? & _).
      rewrite Hkeep, Hk1 by done. by apply lookup_union_Some_l.
    + intros Hempty. rewrite Hempty in Hco, Hst.
      unfold country_enrichment, field in Hco. rewrite lookup_empty in Hco.
      cbn [from_option id truthy default ret] in Hco. injection Hco as <- <-.
      unfold state_enrichment, field in Hst. rewrite lookup_empty in Hst.
      cbn [from_option id truthy default ret] in Hst. injection Hst as <- <-.
      by rewrite (left_id_L ∅ (∪)).
    + destruct (country_enrichment_details _ _ _ _ _ _ _ Hco) as [Hc1 _].
      destruct (state_enrichment_details _ _ _ _ _ _ Hst) as [Hs1 _].
      intros [|]; cbn [parent_field details_field domain_of]; autorewrite with st;
        intros Ht.
      * destruct (Hc1 Ht) as (key & parent & Hkey & Hp & Hd).
        exists key, parent. split; [done|]. rewrite Hcache by done.
        split; [done|]. by rewrite Hkeep.
      * destruct (Hs1 Ht) as (key & parent & Hkey & Hp & Hd).
        by exists key, parent.
  - intros idx total city n rest s0 s1 q e Hname Hres Hq Hbody.
    pose proof (process_city_lost _ idx total _ _ _ _ _ _ Hname Hres Hq Hbody) as Hrun.
    eexists. split; [exact Hrun|]. split.
    + by autorewrite with st.
    + simpl. by rewrite Hrun.
Qed.

(** The document of Testville reads and states no population: the field is
    in the record, with [None] for its value. *)
Lemma C9_witness :
  ∃ info,
    (enrich_city demo_oracle (JStr "Q1") (fresh_state demo_disk)).1 = Next info ∧
    dom info = city_keys ∧
    info !! "Population" = Some JNull.
Proof.
  destruct (C9_graceful_degradation demo_oracle (JStr "Q1") (fresh_state demo_disk))
    as ((info & Hrun & _ & _ & Hreads) & _).
  exists info. split; [exact Hrun|].
  specialize (Hreads (obj []) (obj testville_claims) eq_refl).
  assert (city_reads (obj []) (obj testville_claims) = true) as Hok
    by (vm_compute; reflexivity).
  rewrite Hok in Hreads. destruct Hreads as [Hdom Hnull].
  split; [exact Hdom|].
  apply (Hnull (list_to_map testville_claims) "Population" "P1082").
  - reflexivity.
  - unfold city_fields. do 4 right. left.
  - reflexivity.
Defined.

(** C9, as it is stated, fails.  The document of Testville states no
    population, and a location without a latitude: the fetch returns the
    empty record, and the record appended keeps the population the caller
    gave, 5.  And the document of Q1, read as that of a country, states
    neither a code nor a capital: the code is [None] in the record, the
    capital is no key of it. *)
Lemma C9_counterexample :
  (enrich_city adrift_oracle (JStr "Q1") (fresh_state demo_disk)).1 = Next ∅ ∧
  (process_city adrift_oracle 1 1 caller_city (fresh_state demo_disk)).1 = Next () ∧
  last_record (process_city adrift_oracle 1 1 caller_city (fresh_state demo_disk)).2
    !! "Population" = Some (JNum 5) ∧
  (∃ info,
     (get_entity_info demo_oracle (JStr "Q1") Country (fresh_state demo_disk)).1
       = Next info ∧
     info !! "IsoAlpha2" = Some JNull ∧
     info !! "CapitalQID" = None).
Proof.
  split; [vm_compute; reflexivity|].
  split; [vm_compute; reflexivity|].
  split; [vm_compute; reflexivity|].
  eexists. split; [vm_compute; reflexivity|].
  split; vm_compute; reflexivity.
Qed.
